(** * A shallow embedding of the P2P tracker and peer (RenanBentes/P2P)

    The development follows the three Python sources it is about:

    - [Tracker/Tracker.py]      : module [Tracker]  (UDP directory protocol),
    - [Peer/FileManager.py]     : module [FileManager] (chunk store),
    - [Peer/DownloadManager.py] : module [DownloadManager] (rarest first),
    - [Peer/NetworkManager.py]  : module [NetworkManager] (wire framing),
                                  module [PeerDirectory] (the known peers),
                                  module [Connections] (TCP between peers).

    Python values that travel in JSON are the inductive [json]; Python
    dictionaries whose keys are arbitrary JSON scalars are insertion-ordered
    association lists looked up with Python's [==]; dictionaries keyed by file
    names are [gmap string]; sets of chunk indices are [gset Z]. *)

From Stdlib Require Import ZArith QArith Qround Lia List String Ascii Bool.
From Stdlib Require Import Floats.SpecFloat.
From stdpp Require Import base option list gmap sets strings pretty sorting.

Set Warnings "-register-all".

Local Open Scope string_scope.
Local Open Scope Z_scope.
Local Open Scope list_scope.

(* ================================================================== *)
(** * Python values *)
(* ================================================================== *)

(** [bytes] objects are strings of 8-bit characters.  A Python [str] is kept
    as its UTF-8 encoding, which is injective on the strings [bytes.decode]
    and [json.loads] can produce. *)
Abbreviation bytes := string.

(** The values [json.loads] builds: [None], [bool], [int], [float] (binary64,
    as [spec_float]), [str], [list] and [dict] with [str] keys. *)
Inductive json : Type :=
| JNull
| JBool (b : bool)
| JInt (z : Z)
| JFloat (f : spec_float)
| JStr (s : string)
| JArr (l : list json)
| JObj (m : list (string * json)).

(** [d.get(key)] and [d.get(key, default)] on a [dict] with [str] keys. *)
Fixpoint obj_get (key : string) (m : list (string * json)) : option json :=
  match m with
  | [] => None
  | (k, v) :: m' => if String.eqb k key then Some v else obj_get key m'
  end.

Definition get_or (key : string) (default : json) (m : list (string * json)) : json :=
  match obj_get key m with Some v => v | None => default end.

(** Truth value of an object ([bool(x)], as tested by [if not x]). *)
Definition truthy (v : json) : bool :=
  match v with
  | JNull => false
  | JBool b => b
  | JInt z => negb (z =? 0)
  | JFloat (S754_zero _) => false
  | JFloat _ => true
  | JStr s => negb (String.eqb s "")
  | JArr l => match l with [] => false | _ => true end
  | JObj m => match m with [] => false | _ => true end
  end.

(** [hash(x)] raises [TypeError] on lists and dicts. *)
Definition hashable (v : json) : bool :=
  match v with
  | JArr _ | JObj _ => false
  | _ => true
  end.

(** Number of code points of a [str] held in UTF-8: the bytes that are not
    continuation bytes (10xxxxxx). *)
Definition is_continuation (c : ascii) : bool :=
  let n := N_of_ascii c in (128 <=? n)%N && (n <? 192)%N.

Definition str_len (s : string) : nat :=
  List.length (List.filter (fun c => negb (is_continuation c)) (list_ascii_of_string s)).

(** [len(x)]: defined on [str], [list] and [dict]; [None] stands for the
    [TypeError] the other types raise. *)
Definition py_len (v : json) : option nat :=
  match v with
  | JStr s => Some (str_len s)
  | JArr l => Some (List.length l)
  | JObj m => Some (List.length m)
  | _ => None
  end.

(** ** Equality of dictionary keys

    Python compares [int], [bool] and [float] keys by exact numeric value
    ([1 == 1.0 == True]), strings by content, and a NaN equals nothing.  Every
    hashable value other than NaN gets a canonical key; two values are [==] iff
    their canonical keys coincide. *)
Inductive pykey : Type :=
| KNone
| KStr (s : string)
| KNum (m e : Z)          (* the number m * 2^e, m odd, or m = 0 = e *)
| KInf (negative : bool).

Fixpoint strip_twos (p : positive) (e : Z) : positive * Z :=
  match p with
  | xO p' => strip_twos p' (e + 1)
  | _ => (p, e)
  end.

Definition dyadic (negative : bool) (m : positive) (e : Z) : pykey :=
  let '(m', e') := strip_twos m e in
  KNum (if negative then Z.neg m' else Z.pos m') e'.

Definition key_of_Z (z : Z) : pykey :=
  match z with
  | Z0 => KNum 0 0
  | Zpos p => dyadic false p 0
  | Zneg p => dyadic true p 0
  end.

Definition key_of (v : json) : option pykey :=
  match v with
  | JNull => Some KNone
  | JBool b => Some (key_of_Z (if b then 1 else 0))
  | JInt z => Some (key_of_Z z)
  | JFloat (S754_zero _) => Some (KNum 0 0)
  | JFloat (S754_finite s m e) => Some (dyadic s m e)
  | JFloat (S754_infinity s) => Some (KInf s)
  | JFloat S754_nan => None
  | JStr s => Some (KStr s)
  | JArr _ | JObj _ => None
  end.

#[global] Instance pykey_eq_dec : EqDecision pykey.
Proof. solve_decision. Defined.

(** [a == b] for hashable [a] and [b]. *)
Definition py_eq (a b : json) : bool :=
  match key_of a, key_of b with
  | Some x, Some y => bool_decide (x = y)
  | _, _ => false
  end.

(* ================================================================== *)
(** * [bytes.decode('utf-8')] and [json.loads] *)
(* ================================================================== *)

Module Codec.

Definition byte_in (lo hi : N) (c : ascii) : bool :=
  let n := N_of_ascii c in (lo <=? n)%N && (n <=? hi)%N.

(** Strict UTF-8: shortest forms only, no surrogates, at most U+10FFFF. *)
Fixpoint utf8_valid (s : string) : bool :=
  match s with
  | EmptyString => true
  | String b r =>
      if byte_in 0 127 b then utf8_valid r
      else if byte_in 194 223 b then
        match r with
        | String c1 r1 => byte_in 128 191 c1 && utf8_valid r1
        | _ => false
        end
      else if byte_in 224 239 b then
        match r with
        | String c1 (String c2 r2) =>
            (if byte_in 224 224 b then byte_in 160 191 c1
             else if byte_in 237 237 b then byte_in 128 159 c1
             else byte_in 128 191 c1)
            && byte_in 128 191 c2 && utf8_valid r2
        | _ => false
        end
      else if byte_in 240 244 b then
        match r with
        | String c1 (String c2 (String c3 r3)) =>
            (if byte_in 240 240 b then byte_in 144 191 c1
             else if byte_in 244 244 b then byte_in 128 143 c1
             else byte_in 128 191 c1)
            && byte_in 128 191 c2 && byte_in 128 191 c3 && utf8_valid r3
        | _ => false
        end
      else false
  end.

(** [data.decode('utf-8')]; [None] is [UnicodeDecodeError]. *)
Definition decode_utf8 (data : bytes) : option string :=
  if utf8_valid data then Some data else None.

(** The UTF-8 bytes of a code point (surrogates included: [json.loads] can
    return a lone one from a [\uXXXX] escape). *)
Definition utf8_encode (cp : N) : string :=
  let b (n : N) := ascii_of_N n in
  let cont (n : N) := b (128 + N.land n 63)%N in
  if (cp <? 128)%N then String (b cp) ""
  else if (cp <? 2048)%N then
    String (b (192 + N.shiftr cp 6)%N) (String (cont cp) "")
  else if (cp <? 65536)%N then
    String (b (224 + N.shiftr cp 12)%N)
      (String (cont (N.shiftr cp 6)) (String (cont cp) ""))
  else
    String (b (240 + N.shiftr cp 18)%N)
      (String (cont (N.shiftr cp 12))
         (String (cont (N.shiftr cp 6)) (String (cont cp) ""))).

Definition is_ws (c : ascii) : bool :=
  let n := N_of_ascii c in
  (n =? 32)%N || (n =? 9)%N || (n =? 10)%N || (n =? 13)%N.

Fixpoint skip_ws (s : string) : string :=
  match s with
  | String c s' => if is_ws c then skip_ws s' else s
  | EmptyString => s
  end.

Definition is_digit (c : ascii) : bool := byte_in 48 57 c.

Definition hex_val (c : ascii) : option N :=
  let n := N_of_ascii c in
  if byte_in 48 57 c then Some (n - 48)%N
  else if byte_in 97 102 c then Some (n - 87)%N
  else if byte_in 65 70 c then Some (n - 55)%N
  else None.

Definition hex4 (h1 h2 h3 h4 : ascii) : option N :=
  a ← hex_val h1; b ← hex_val h2; c ← hex_val h3; d ← hex_val h4;
  Some (4096 * a + 256 * b + 16 * c + d)%N.

Definition simple_escape (e : ascii) : option ascii :=
  let n := N_of_ascii e in
  if (n =? 34)%N || (n =? 92)%N || (n =? 47)%N then Some e   (* quote, backslash, slash *)
  else if (n =? 98)%N then Some (ascii_of_N 8)              (* b *)
  else if (n =? 102)%N then Some (ascii_of_N 12)            (* f *)
  else if (n =? 110)%N then Some (ascii_of_N 10)            (* n *)
  else if (n =? 114)%N then Some (ascii_of_N 13)            (* r *)
  else if (n =? 116)%N then Some (ascii_of_N 9)             (* t *)
  else None.

Definition is_high_surrogate (c : N) : bool := (55296 <=? c)%N && (c <=? 56319)%N.
Definition is_low_surrogate (c : N) : bool := (56320 <=? c)%N && (c <=? 57343)%N.
Definition join_surrogates (hi lo : N) : N :=
  (65536 + N.shiftl (hi - 55296) 10 + (lo - 56320))%N.

Definition prepend (p : string) (r : option (string * string)) : option (string * string) :=
  match r with
  | Some (body, rest) => Some (p +:+ body, rest)
  | None => None
  end.

(** The string scanner in strict mode, started after the opening quote:
    the text of the string and what follows its closing quote. *)
Fixpoint scanstring (s : string) : option (string * string) :=
  match s with
  | EmptyString => None
  | String c s1 =>
    if byte_in 34 34 c then Some ("", s1)
    else if byte_in 92 92 c then
      match s1 with
      | EmptyString => None
      | String e s2 =>
        if byte_in 117 117 e then
          match s2 with
          | String h1 (String h2 (String h3 (String h4 s6))) =>
            match hex4 h1 h2 h3 h4 with
            | None => None
            | Some cp =>
              if is_high_surrogate cp then
                match s6 with
                | String b (String u (String g1 (String g2 (String g3 (String g4 s12))))) =>
                  if byte_in 92 92 b && byte_in 117 117 u then
                    match hex4 g1 g2 g3 g4 with
                    | None => None
                    | Some c2 =>
                      if is_low_surrogate c2
                      then prepend (utf8_encode (join_surrogates cp c2)) (scanstring s12)
                      else prepend (utf8_encode cp) (scanstring s6)
                    end
                  else prepend (utf8_encode cp) (scanstring s6)
                | _ => prepend (utf8_encode cp) (scanstring s6)
                end
              else prepend (utf8_encode cp) (scanstring s6)
            end
          | _ => None
          end
        else
          match simple_escape e with
          | Some ch => prepend (String ch "") (scanstring s2)
          | None => None
          end
      end
    else if byte_in 0 31 c then None
    else prepend (String c "") (scanstring s1)
  end.

(** ** Numbers *)

Fixpoint span_digits (s : string) : list Z * string :=
  match s with
  | String c s' =>
      if is_digit c then
        let '(ds, r) := span_digits s' in (Z.of_N (N_of_ascii c) - 48 :: ds, r)
      else ([], s)
  | EmptyString => ([], s)
  end.

Definition Z_of_digits (ds : list Z) : Z :=
  fold_left (fun acc d => 10 * acc + d) ds 0.

(** The binary64 nearest to [m * 10^e] (ties to even), as [float(text)]
    computes it; out of range gives an infinity. *)
Definition float_of_decimal (negative : bool) (m : Z) (e : Z) : spec_float :=
  match m with
  | Zpos p =>
      if 0 <=? e then
        binary_normalize 53 1024 ((if negative then Z.neg p else Z.pos p) * 10 ^ e) 0 negative
      else
        SFdiv 53 1024 (S754_finite negative p 0)
          (S754_finite false (Z.to_pos (10 ^ (- e))) 0)
  | _ => S754_zero negative
  end.

(** An optional minus sign, the integer digits (a lone 0, or a nonzero digit
    and more digits), an optional fraction (a dot and digits) and an optional
    exponent (e or E, an optional sign, digits): an [int] without fraction
    and exponent, a [float] otherwise. *)
Definition match_number (s : string) : option (json * string) :=
  let '(negative, s1) :=
    match s with
    | String c r => if byte_in 45 45 c then (true, r) else (false, s)
    | EmptyString => (false, s)
    end in
  match s1 with
  | EmptyString => None
  | String c r =>
    let int_part :=
      if byte_in 49 57 c then Some (span_digits s1)
      else if byte_in 48 48 c then Some ([0], r)
      else None in
    match int_part with
    | None => None
    | Some (ids, r1) =>
      let '(fds, r2) :=
        match r1 with
        | String dot (String d r') =>
            if byte_in 46 46 dot && is_digit d
            then span_digits (String d r') else ([], r1)
        | _ => ([], r1)
        end in
      let '(expo, r3) :=
        match r2 with
        | String e r' =>
            if byte_in 101 101 e || byte_in 69 69 e then
              let '(eneg, r'') :=
                match r' with
                | String sg t =>
                    if byte_in 45 45 sg then (true, t)
                    else if byte_in 43 43 sg then (false, t)
                    else (false, r')
                | EmptyString => (false, r')
                end in
              match span_digits r'' with
              | ([], _) => (None, r2)
              | (eds, t) => (Some (if eneg then - Z_of_digits eds else Z_of_digits eds), t)
              end
            else (None, r2)
        | EmptyString => (None, r2)
        end in
      match fds, expo with
      | [], None =>
          Some (JInt (if negative then - Z_of_digits ids else Z_of_digits ids), r3)
      | _, _ =>
          let e10 := match expo with Some x => x | None => 0 end in
          Some (JFloat (float_of_decimal negative (Z_of_digits (ids ++ fds))
                          (e10 - Z.of_nat (List.length fds))), r3)
      end
    end
  end.

(** ** Values *)

(** [s] begins with [lit]: the rest of [s]. *)
Fixpoint strip_prefix (lit s : string) : option string :=
  match lit, s with
  | EmptyString, _ => Some s
  | String a lit', String b s' => if Ascii.eqb a b then strip_prefix lit' s' else None
  | _, _ => None
  end.

(** [rval[key] = val] of the object being built: a repeated key keeps its
    first place and takes the last value. *)
Fixpoint obj_set (key : string) (v : json) (m : list (string * json)) : list (string * json) :=
  match m with
  | [] => [(key, v)]
  | (k', v') :: m' =>
      if String.eqb k' key then (k', v) :: m' else (k', v') :: obj_set key v m'
  end.

Inductive parsed (A : Type) : Type :=
| Parsed (a : A) (rest : string)
| Invalid
| OutOfFuel.
Arguments Parsed {A} a rest.
Arguments Invalid {A}.
Arguments OutOfFuel {A}.

(** [scan_once] reads one value at the start of [s]; [parse_members] reads
    the members of an object from a key on, [parse_elements] the elements of
    an array from a value on. *)
Fixpoint scan_once (fuel : nat) (s : string) : parsed json :=
  match fuel with
  | O => OutOfFuel
  | S n =>
    match s with
    | EmptyString => Invalid
    | String c r =>
      if byte_in 34 34 c then
        match scanstring r with
        | Some (str, rest) => Parsed (JStr str) rest
        | None => Invalid
        end
      else if byte_in 123 123 c then
        match skip_ws r with
        | String c' r' =>
            if byte_in 125 125 c' then Parsed (JObj []) r'
            else
              match parse_members n (String c' r') [] with
              | Parsed m rest => Parsed (JObj m) rest
              | Invalid => Invalid
              | OutOfFuel => OutOfFuel
              end
        | EmptyString => Invalid
        end
      else if byte_in 91 91 c then
        match skip_ws r with
        | String c' r' =>
            if byte_in 93 93 c' then Parsed (JArr []) r'
            else
              match parse_elements n (String c' r') with
              | Parsed l rest => Parsed (JArr l) rest
              | Invalid => Invalid
              | OutOfFuel => OutOfFuel
              end
        | EmptyString => Invalid
        end
      else
        match strip_prefix "null" s, strip_prefix "true" s, strip_prefix "false" s,
              strip_prefix "NaN" s, strip_prefix "Infinity" s, strip_prefix "-Infinity" s with
        | Some rest, _, _, _, _, _ => Parsed JNull rest
        | _, Some rest, _, _, _, _ => Parsed (JBool true) rest
        | _, _, Some rest, _, _, _ => Parsed (JBool false) rest
        | _, _, _, Some rest, _, _ => Parsed (JFloat S754_nan) rest
        | _, _, _, _, Some rest, _ => Parsed (JFloat (S754_infinity false)) rest
        | _, _, _, _, _, Some rest => Parsed (JFloat (S754_infinity true)) rest
        | _, _, _, _, _, _ =>
            match match_number s with
            | Some (v, rest) => Parsed v rest
            | None => Invalid
            end
        end
    end
  end
with parse_members (fuel : nat) (s : string) (acc : list (string * json))
  : parsed (list (string * json)) :=
  match fuel with
  | O => OutOfFuel
  | S n =>
    match s with
    | String q r =>
      if byte_in 34 34 q then
        match scanstring r with
        | None => Invalid
        | Some (key, r1) =>
          match skip_ws r1 with
          | String colon r2 =>
            if byte_in 58 58 colon then
              match scan_once n (skip_ws r2) with
              | Parsed v r3 =>
                let acc' := obj_set key v acc in
                match skip_ws r3 with
                | String d r4 =>
                    if byte_in 125 125 d then Parsed acc' r4
                    else if byte_in 44 44 d then parse_members n (skip_ws r4) acc'
                    else Invalid
                | EmptyString => Invalid
                end
              | Invalid => Invalid
              | OutOfFuel => OutOfFuel
              end
            else Invalid
          | EmptyString => Invalid
          end
        end
      else Invalid
    | EmptyString => Invalid
    end
  end
with parse_elements (fuel : nat) (s : string) : parsed (list json) :=
  match fuel with
  | O => OutOfFuel
  | S n =>
    match scan_once n s with
    | Parsed v r1 =>
      match skip_ws r1 with
      | String d r2 =>
          if byte_in 93 93 d then Parsed [v] r2
          else if byte_in 44 44 d then
            match parse_elements n (skip_ws r2) with
            | Parsed l rest => Parsed (v :: l) rest
            | Invalid => Invalid
            | OutOfFuel => OutOfFuel
            end
          else Invalid
      | EmptyString => Invalid
      end
    | Invalid => Invalid
    | OutOfFuel => OutOfFuel
    end
  end.

(** [json.loads(s)] for a [str]: one value between optional white space;
    [None] is [JSONDecodeError].  The fuel covers every text (see
    [scan_once_fuel]). *)
Definition loads (s : string) : option json :=
  let s0 := skip_ws s in
  match scan_once (2 * String.length s0 + 1) s0 with
  | Parsed v rest =>
      match skip_ws rest with
      | EmptyString => Some v
      | _ => None
      end
  | _ => None
  end.

End Codec.

(* ================================================================== *)
(** * Python dictionaries with JSON keys *)
(* ================================================================== *)

(** An insertion-ordered association list; at most one entry per key value
    is ever created by [dict_set]. *)
Module PyDict.
Section dict.
Context {V : Type}.
Implicit Types (d : list (json * V)) (k : json) (v : V).

(** [d.get(k)] *)
Fixpoint get k d : option V :=
  match d with
  | [] => None
  | (k', v) :: d' => if py_eq k' k then Some v else get k d'
  end.

(** [k in d] *)
Definition contains k d : bool :=
  match get k d with Some _ => true | None => false end.

(** [d[k] = v]: the value of the entry that holds [k] is replaced in place,
    a new key goes to the end. *)
Fixpoint set k v d : list (json * V) :=
  match d with
  | [] => [(k, v)]
  | (k', v') :: d' => if py_eq k' k then (k', v) :: d' else (k', v') :: set k v d'
  end.

(** [del d[k]]; [None] is the [KeyError] of a missing key. *)
Fixpoint del k d : option (list (json * V)) :=
  match d with
  | [] => None
  | (k', v') :: d' =>
      if py_eq k' k then Some d'
      else match del k d' with
           | Some r => Some ((k', v') :: r)
           | None => None
           end
  end.

(** The keys are usable and pairwise different: what every [dict] whose keys
    are not NaN satisfies. *)
Definition wf d : Prop :=
  NoDup (List.map (fun kv => key_of (fst kv)) d) /\
  Forall (fun kv => key_of (fst kv) <> None) d.

End dict.
End PyDict.

(* ================================================================== *)
(** * Tracker/Tracker.py *)
(* ================================================================== *)

Module Tracker.

(** Class constants. *)
Definition TRACKER_PORT : Z := 6881.
Definition PEER_TIMEOUT_MINUTES : Z := 2.
Definition CLEANUP_INTERVAL_SECONDS : Z := 30.
Definition MAX_PACKET_SIZE : Z := 65535.
Definition THREAD_POOL_SIZE : Z := 10.

(** The source address of a datagram, [(ip, port)]. *)
Record sockaddr : Type := { ip : string; udp_port : Z }.

(** One value of [self.peers]: [{'files': ..., 'last_seen': ..., 'addr': ...}].
    [time.time()] readings are exact rationals (seconds).  ['addr'] is the text
    [f"{peer_ip}:{peer_tcp_port}"], kept as the two values it interpolates;
    [addr_text] renders it. *)
Record PeerInfo : Type :=
  { files : json; last_seen : Q; addr : string * json }.

(** [str(x)] for the values whose text needs neither [float.__repr__] nor the
    [repr] of a container. *)
Definition py_str (v : json) : option string :=
  match v with
  | JNull => Some "None"
  | JBool true => Some "True"
  | JBool false => Some "False"
  | JInt z => Some (pretty z)
  | JStr s => Some s
  | _ => None
  end.

Definition addr_text (a : string * json) : option string :=
  match py_str (snd a) with
  | Some p => Some (fst a +:+ ":" +:+ p)
  | None => None
  end.

(** What [_send_response] hands to [json.dumps] and [sock.sendto]. *)
Inductive response : Type :=
| PeersList (peers_to_send : list (json * PeerInfo))
    (* {"status": "success", "peers": peers_to_send} *)
| Ack
    (* {"status": "success", "message": "ACK"} *)
| ErrorReply (error_code message : string).
    (* {"status": "error", "error_code": ..., "message": ...} *)

(** The tracker object: the peer table, whether [peers_lock] (a plain
    [threading.Lock], not reentrant) is held, and the datagrams given to
    [sock.sendto] so far, oldest first. *)
Record tracker : Type :=
  { peers : list (json * PeerInfo);
    peers_lock : bool;
    sent : list (response * sockaddr) }.

Inductive exn : Type :=
| UnicodeDecodeError | JSONDecodeError | AttributeError | TypeError | KeyError.

(** How the call of a method ends: it returns, it raises, or the calling
    thread blocks for ever on a lock it already holds. *)
Inductive outcome (A : Type) : Type :=
| Returned (a : A) (t : tracker)
| Raised (e : exn) (t : tracker)
| Blocked (t : tracker).
Arguments Returned {A} a t.
Arguments Raised {A} e t.
Arguments Blocked {A} t.

Definition M (A : Type) : Type := tracker -> outcome A.

#[global] Instance M_ret : MRet M := fun A a t => Returned a t.
#[global] Instance M_bind : MBind M := fun A B f m t =>
  match m t with
  | Returned a t' => f a t'
  | Raised e t' => Raised e t'
  | Blocked t' => Blocked t'
  end.

Definition raise {A} (e : exn) : M A := fun t => Raised e t.

(** [try: body except ...: handler] *)
Definition try_except {A} (body : M A) (handler : exn -> M A) : M A := fun t =>
  match body t with
  | Raised e t' => handler e t'
  | r => r
  end.

Definition get_peers : M (list (json * PeerInfo)) := fun t => Returned (peers t) t.
Definition put_peers (ps : list (json * PeerInfo)) : M unit := fun t =>
  Returned tt {| peers := ps; peers_lock := peers_lock t; sent := sent t |}.

(** [self.peers_lock.acquire()]: blocks when the lock is taken. *)
Definition acquire : M unit := fun t =>
  if peers_lock t then Blocked t
  else Returned tt {| peers := peers t; peers_lock := true; sent := sent t |}.

Definition release : M unit := fun t =>
  Returned tt {| peers := peers t; peers_lock := false; sent := sent t |}.

(** [with self.peers_lock: body]: the lock is released when the body returns
    and when it raises. *)
Definition with_lock {A} (body : M A) : M A :=
  acquire;;
  r ← try_except body (fun e => release;; raise e);
  release;;
  mret r.

(** [sock.sendto(json.dumps(payload).encode('utf-8'), response_addr)]; the
    [except Exception] around it only logs. *)
Definition _send_response (response_addr : sockaddr) (payload : response) : M unit :=
  fun t => Returned tt {| peers := peers t; peers_lock := peers_lock t;
                          sent := sent t ++ [(payload, response_addr)] |}.

Definition _send_peers_list (response_addr : sockaddr) (requester_id : json) : M unit :=
  peers_to_send ← with_lock (
    ps ← get_peers;
    mret (List.filter (fun '(pid, _) => negb (py_eq pid requester_id)) ps));
  _send_response response_addr (PeersList peers_to_send).

Definition _send_ack (response_addr : sockaddr) : M unit :=
  _send_response response_addr Ack.

Definition _send_error_response (response_addr : sockaddr) (error_code message : string)
  : M unit :=
  _send_response response_addr (ErrorReply error_code message).

(** ** Operations on [self.peers] *)

(** [payload[key]] *)
Definition getitem (key : string) (m : list (string * json)) : M json :=
  match obj_get key m with Some v => mret v | None => raise KeyError end.

(** [peer_id in self.peers] *)
Definition peers_contains (peer_id : json) : M bool :=
  if hashable peer_id then ps ← get_peers; mret (PyDict.contains peer_id ps)
  else raise TypeError.

(** [self.peers[peer_id] = info] *)
Definition peers_setitem (peer_id : json) (info : PeerInfo) : M unit :=
  if hashable peer_id then ps ← get_peers; put_peers (PyDict.set peer_id info ps)
  else raise TypeError.

(** [self.peers[peer_id]] *)
Definition peers_getitem (peer_id : json) : M PeerInfo :=
  if hashable peer_id then
    ps ← get_peers;
    match PyDict.get peer_id ps with Some i => mret i | None => raise KeyError end
  else raise TypeError.

(** [del self.peers[peer_id]] *)
Definition peers_delitem (peer_id : json) : M unit :=
  if hashable peer_id then
    ps ← get_peers;
    match PyDict.del peer_id ps with Some ps' => put_peers ps' | None => raise KeyError end
  else raise TypeError.

(** ** Request handlers *)

Definition _handle_register (payload : list (string * json)) (response_addr : sockaddr)
    (peer_ip : string) (peer_tcp_port : json) (now : Q) : M unit :=
  peer_id ← getitem "peer_id" payload;
  if negb (truthy peer_tcp_port) then mret tt
  else
    let public_addr_str := (peer_ip, peer_tcp_port) in
    with_lock (
      peers_setitem peer_id
        {| files := JObj []; last_seen := now; addr := public_addr_str |});;
    _send_peers_list response_addr peer_id.

Definition _handle_update (payload : list (string * json)) (response_addr : sockaddr)
    (peer_ip : string) (peer_tcp_port : json) (now : Q) : M unit :=
  peer_id ← getitem "peer_id" payload;
  let files' := get_or "files" (JObj []) payload in
  let public_addr_str := (peer_ip, peer_tcp_port) in
  with_lock (
    known ← peers_contains peer_id;
    if (known : bool) then
      info ← peers_getitem peer_id;
      peers_setitem peer_id
        {| files := files'; last_seen := last_seen info; addr := addr info |};;
      info ← peers_getitem peer_id;
      peers_setitem peer_id
        {| files := files info; last_seen := now; addr := addr info |};;
      (* the debug message formats len(files) *)
      match py_len files' with Some _ => mret tt | None => raise TypeError end
    else
      peers_setitem peer_id
        {| files := files'; last_seen := now; addr := public_addr_str |});;
  _send_peers_list response_addr peer_id.

Definition _handle_unregister (payload : list (string * json)) (response_addr : sockaddr)
    (peer_ip : string) (peer_tcp_port : json) (now : Q) : M unit :=
  peer_id ← getitem "peer_id" payload;
  with_lock (
    known ← peers_contains peer_id;
    if (known : bool) then peers_delitem peer_id else mret tt);;
  _send_ack response_addr.

(** The [return] inside the [with] block leaves the method once the block
    has been left: the block yields whether it was taken. *)
Definition _handle_heartbeat (payload : list (string * json)) (response_addr : sockaddr)
    (peer_ip : string) (peer_tcp_port : json) (now : Q) : M unit :=
  peer_id ← getitem "peer_id" payload;
  returned ← with_lock (
    known ← peers_contains peer_id;
    if (known : bool) then
      info ← peers_getitem peer_id;
      peers_setitem peer_id
        {| files := files info; last_seen := now; addr := addr info |};;
      mret false
    else
      if truthy peer_tcp_port then
        _handle_register payload response_addr peer_ip peer_tcp_port now;;
        mret true
      else mret false);
  if (returned : bool) then mret tt else _send_ack response_addr.

(** ** Dispatch *)

Definition handler : Type :=
  list (string * json) -> sockaddr -> string -> json -> Q -> M unit.

(** The [handlers] dictionary of [_handle_request]. *)
Definition handlers : list (json * handler) :=
  [ (JStr "REGISTER", _handle_register);
    (JStr "UPDATE", _handle_update);
    (JStr "UNREGISTER", _handle_unregister);
    (JStr "HEARTBEAT", _handle_heartbeat) ].

(** [handlers.get(command)] *)
Definition handlers_get (command : json) : M (option handler) :=
  if hashable command then mret (PyDict.get command handlers) else raise TypeError.

(** [payload.get]: only a [dict] has the attribute. *)
Definition as_dict (payload : json) : M (list (string * json)) :=
  match payload with
  | JObj m => mret m
  | _ => raise AttributeError
  end.

Definition decode (data : bytes) : M string :=
  match Codec.decode_utf8 data with
  | Some text => mret text
  | None => raise UnicodeDecodeError
  end.

Definition json_loads (text : string) : M json :=
  match Codec.loads text with
  | Some v => mret v
  | None => raise JSONDecodeError
  end.

Definition _handle_request (data : bytes) (response_addr : sockaddr) (now : Q) : M unit :=
  try_except (
    text ← decode data;
    payload ← json_loads text;
    fields ← as_dict payload;
    let command := get_or "command" JNull fields in
    let peer_id := get_or "peer_id" JNull fields in
    if negb (truthy command) || negb (truthy peer_id) then mret tt
    else
      let peer_ip := ip response_addr in
      let peer_tcp_port := get_or "port" JNull fields in
      h ← handlers_get command;
      match h with
      | Some handle => handle fields response_addr peer_ip peer_tcp_port now
      | None =>
          _send_error_response response_addr "UNKNOWN_COMMAND" "Comando não reconhecido."
      end)
    (fun e =>
       match e with
       | JSONDecodeError => mret tt
       | _ => _send_error_response response_addr "PROCESSING_ERROR" "Erro interno no tracker."
       end).

(** ** Maintenance *)

Definition timeout_threshold : Z := PEER_TIMEOUT_MINUTES * 60.

(** [now - info['last_seen'] > timeout_threshold] *)
Definition timed_out (now : Q) (info : PeerInfo) : bool :=
  negb (Qle_bool (now - last_seen info) (inject_Z timeout_threshold)).

Fixpoint for_each {A} (l : list A) (body : A -> M unit) : M unit :=
  match l with
  | [] => mret tt
  | x :: l' => body x;; for_each l' body
  end.

(** One turn of the loop of [_remove_timeout_peers_loop], after the sleep,
    with the reading [now] of the clock: the ids it removed. *)
Definition _remove_timeout_peers_pass (now : Q) : M (list json) :=
  with_lock (
    ps ← get_peers;
    let to_remove := List.map fst (List.filter (fun '(_, info) => timed_out now info) ps) in
    for_each to_remove peers_delitem;;
    mret to_remove).

(** A tracker with the table [ps], its lock free and nothing sent yet. *)
Definition idle (ps : list (json * PeerInfo)) : tracker :=
  {| peers := ps; peers_lock := false; sent := [] |}.

End Tracker.

(* ================================================================== *)
(** * [hashlib.sha256] *)
(* ================================================================== *)

(** SHA-256 (FIPS 180-4) on 32-bit words held in [N]. *)
Module SHA256.
Local Open Scope N_scope.

Definition w32 (x : N) : N := x mod 4294967296.
Definition add32 (a b : N) : N := w32 (a + b).
Definition rotr (n x : N) : N := N.lor (N.shiftr x n) (w32 (N.shiftl x (32 - n))).
Definition not32 (x : N) : N := 4294967295 - x.

Definition ch (x y z : N) : N := N.lxor (N.land x y) (N.land (not32 x) z).
Definition maj (x y z : N) : N :=
  N.lxor (N.lxor (N.land x y) (N.land x z)) (N.land y z).
Definition big_sigma0 (x : N) : N := N.lxor (N.lxor (rotr 2 x) (rotr 13 x)) (rotr 22 x).
Definition big_sigma1 (x : N) : N := N.lxor (N.lxor (rotr 6 x) (rotr 11 x)) (rotr 25 x).
Definition small_sigma0 (x : N) : N := N.lxor (N.lxor (rotr 7 x) (rotr 18 x)) (N.shiftr x 3).
Definition small_sigma1 (x : N) : N := N.lxor (N.lxor (rotr 17 x) (rotr 19 x)) (N.shiftr x 10).

Definition K : list N :=
  [
    1116352408; 1899447441; 3049323471; 3921009573; 961987163; 1508970993;
    2453635748; 2870763221; 3624381080; 310598401; 607225278; 1426881987;
    1925078388; 2162078206; 2614888103; 3248222580; 3835390401; 4022224774;
    264347078; 604807628; 770255983; 1249150122; 1555081692; 1996064986;
    2554220882; 2821834349; 2952996808; 3210313671; 3336571891; 3584528711;
    113926993; 338241895; 666307205; 773529912; 1294757372; 1396182291;
    1695183700; 1986661051; 2177026350; 2456956037; 2730485921; 2820302411;
    3259730800; 3345764771; 3516065817; 3600352804; 4094571909; 275423344;
    430227734; 506948616; 659060556; 883997877; 958139571; 1322822218;
    1537002063; 1747873779; 1955562222; 2024104815; 2227730452; 2361852424;
    2428436474; 2756734187; 3204031479; 3329325298 ].

Definition H0 : list N :=
  [
    1779033703; 3144134277; 1013904242; 2773480762;
    1359893119; 2600822924; 528734635; 1541459225 ].

(** The message, a 1 bit, zeros up to 56 modulo 64 bytes, and the length in
    bits as 8 bytes, most significant first. *)
Definition pad (msg : list N) : list N :=
  let len := N.of_nat (List.length msg) in
  let zeros := N.to_nat ((119 - len mod 64) mod 64) in
  let bits := 8 * len in
  msg ++ [128] ++ List.repeat 0 zeros ++
  List.map (fun i => N.shiftr bits (8 * i) mod 256) [7; 6; 5; 4; 3; 2; 1; 0].

(** Big-endian words of a block of bytes. *)
Fixpoint words (bs : list N) : list N :=
  match bs with
  | a :: b :: c :: d :: r => (16777216 * a + 65536 * b + 256 * c + d) :: words r
  | _ => []
  end.

(** The message schedule: [n] more words after a window of the last 16. *)
Fixpoint schedule (n : nat) (window : list N) : list N :=
  match n with
  | O => []
  | S n' =>
      let w i := List.nth i window 0 in
      let next := add32 (add32 (small_sigma1 (w 14%nat)) (w 9%nat))
                        (add32 (small_sigma0 (w 1%nat)) (w 0%nat)) in
      w 0%nat :: schedule n' (List.tl window ++ [next])
  end.

Definition round (st : list N) (kw : N * N) : list N :=
  match st with
  | [a; b; c; d; e; f; g; h] =>
      let t1 := add32 (add32 (add32 h (big_sigma1 e)) (add32 (ch e f g) (fst kw))) (snd kw) in
      let t2 := add32 (big_sigma0 a) (maj a b c) in
      [add32 t1 t2; a; b; c; add32 d t1; e; f; g]
  | _ => st
  end.

Definition compress (h : list N) (block : list N) : list N :=
  let w := schedule 64 (words block) in
  let st := List.fold_left round (List.combine K w) h in
  List.map (fun p => add32 (fst p) (snd p)) (List.combine h st).

Fixpoint blocks (n : nat) (bs : list N) (h : list N) : list N :=
  match n with
  | O => h
  | S n' => blocks n' (List.skipn 64 bs) (compress h (List.firstn 64 bs))
  end.

Definition digest (msg : list N) : list N :=
  let p := pad msg in
  blocks (List.length p / 64) p H0.

Definition hex_digit (n : N) : ascii :=
  ascii_of_N (if n <? 10 then 48 + n else 87 + n).

Definition hex_word (w : N) : string :=
  string_of_list_ascii
    (List.map (fun i => hex_digit (N.shiftr w (4 * i) mod 16)) [7; 6; 5; 4; 3; 2; 1; 0]).

(** [hashlib.sha256(data).hexdigest()] *)
Definition hexdigest (data : string) : string :=
  List.fold_right (fun w acc => hex_word w +:+ acc) ""
    (digest (List.map N_of_ascii (list_ascii_of_string data))).

End SHA256.

(* ================================================================== *)
(** * Peer/NetworkManager.py: framing of the UDP requests *)
(* ================================================================== *)

Module NetworkManager.

Definition RESPONSE_TIMEOUT_S : Z := 5.
Definition MAX_RETRY_ATTEMPTS : Z := 3.
Definition MAX_PAYLOAD_SIZE : Z := 65535.
Definition COMPRESSION_THRESHOLD : Z := 1024.

Definition COMPRESSED_PREFIX : bytes := "COMPRESSED:".

Section zlib.
(** [zlib.compress(data, level=6)] and [zlib.decompress(data)] ([None] is
    [zlib.error]) are the library's. *)
Variable zlib_compress : bytes -> bytes.
Variable zlib_decompress : bytes -> option bytes.

Definition _compress_if_needed (data : bytes) : bytes * bool :=
  if COMPRESSION_THRESHOLD <? Z.of_nat (String.length data)
  then (zlib_compress data, true)
  else (data, false).

(** The datagram [_send_udp_request] gives to [sendto] for the serialized
    payload [json_data]; [None] when it is too large to be sent. *)
Definition udp_message (json_data : bytes) : option bytes :=
  let '(compressed_data, is_compressed) := _compress_if_needed json_data in
  let message :=
    if is_compressed then COMPRESSED_PREFIX +:+ compressed_data else json_data in
  if MAX_PAYLOAD_SIZE <? Z.of_nat (String.length message) then None else Some message.


End zlib.
End NetworkManager.

(* ================================================================== *)
(** * Peer/FileManager.py *)
(* ================================================================== *)

Module FileManager.

Definition CHUNK_SIZE : N := 1024 * 1024.
Definition METADATA_EXTENSION : string := ".meta".

(** The three directories of a peer: [shared_folder], [chunks_dir] and
    [metadata_dir].  A file is named by its directory and its name in it;
    file names are plain names (one path component). *)
Inductive directory : Type := Shared | Chunks | Metadata.

#[global] Instance directory_eq_dec : EqDecision directory.
Proof. solve_decision. Defined.

#[global] Instance directory_countable : Countable directory.
Proof.
  refine (inj_countable'
            (fun d => match d with Shared => 0%nat | Chunks => 1%nat | Metadata => 2%nat end)
            (fun n => match n with 0%nat => Shared | 1%nat => Chunks | _ => Metadata end) _).
  by intros [].
Defined.

Abbreviation path := (directory * string)%type.

(** One value of [local_files_metadata]. *)
Record FileMetadata : Type :=
  { fileName : string; fileSize : Z; fileHash : string; totalChunks : Z; createdAt : Z }.

(** The two dictionaries of the object and the files on disk. *)
Record file_manager : Type :=
  { local_files_metadata : gmap string FileMetadata;
    available_chunks : gmap string (gset Z);
    disk : gmap path bytes }.

Definition set_disk (d : gmap path bytes) (fm : file_manager) : file_manager :=
  {| local_files_metadata := local_files_metadata fm;
     available_chunks := available_chunks fm;
     disk := d |}.

(** ** Utilities *)

Definition isalnum (c : ascii) : bool :=
  Codec.byte_in 48 57 c || Codec.byte_in 65 90 c || Codec.byte_in 97 122 c.

(** Keeps the ASCII letters and digits and [. _ -]; nothing is left for
    [rstrip] to remove. *)
Definition _safe_filename (filename : string) : string :=
  string_of_list_ascii
    (List.filter
       (fun c => isalnum c || Codec.byte_in 46 46 c || Codec.byte_in 95 95 c
                 || Codec.byte_in 45 45 c)
       (list_ascii_of_string filename)).

(** [self.chunks_dir / f"{self._safe_filename(file_name)}.{chunk_index}.chunk"] *)
Definition chunk_path (file_name : string) (chunk_index : Z) : path :=
  (Chunks, _safe_filename file_name +:+ "." +:+ pretty chunk_index +:+ ".chunk").


(** ** Queries *)

Definition get_file_metadata (file_name : string) (fm : file_manager) : option FileMetadata :=
  local_files_metadata fm !! file_name.

Definition has_complete_file (file_name : string) (fm : file_manager) : bool :=
  match get_file_metadata file_name fm, available_chunks fm !! file_name with
  | Some meta, Some chunks =>
      if decide (chunks = ∅) then false
      else Z.of_nat (size chunks) =? totalChunks meta
  | _, _ => false
  end.

(** ** Chunks *)

Definition save_chunk (file_name : string) (chunk_index : Z) (data : bytes)
    (fm : file_manager) : file_manager :=
  let chunks := default ∅ (available_chunks fm !! file_name) in
  {| local_files_metadata := local_files_metadata fm;
     available_chunks := <[file_name := chunks ∪ {[chunk_index]}]> (available_chunks fm);
     disk := <[chunk_path file_name chunk_index := data]> (disk fm) |}.

Definition load_chunk (file_name : string) (chunk_index : Z) (fm : file_manager)
  : option bytes :=
  disk fm !! chunk_path file_name chunk_index.

(** ** Metadata files *)

(** [value.replace('%%', '')] *)
Fixpoint drop_percent_pairs (s : string) : string :=
  match s with
  | String a (String b r as s') =>
      if Codec.byte_in 37 37 a && Codec.byte_in 37 37 b then drop_percent_pairs r
      else String a (drop_percent_pairs s')
  | _ => s
  end.

(** After [%(]: a name of one character or more without [)], then [)s]. *)
Fixpoint key_reference (s : string) (seen : bool) : option string :=
  match s with
  | EmptyString => None
  | String c r =>
      if Codec.byte_in 41 41 c then
        match r with
        | String s' r' => if seen && Codec.byte_in 115 115 s' then Some r' else None
        | EmptyString => None
        end
      else key_reference r true
  end.

(** Is a percent sign left once the references [%(name)s] are taken out? *)
Fixpoint stray_percent (fuel : nat) (s : string) : bool :=
  match fuel with
  | O => false
  | S n =>
    match s with
    | EmptyString => false
    | String c r =>
        if Codec.byte_in 37 37 c then
          match r with
          | String p r' =>
              if Codec.byte_in 40 40 p then
                match key_reference r' false with
                | Some rest => stray_percent n rest
                | None => true
                end
              else true
          | EmptyString => true
          end
        else stray_percent n r
    end
  end.

(** [BasicInterpolation.before_set] accepts the value. *)
Definition interpolation_ok (value : string) : bool :=
  let v := drop_percent_pairs value in
  negb (stray_percent (String.length v) v).

(** [value.replace('\n', '\n\t')] *)
Fixpoint indent_newlines (s : string) : string :=
  match s with
  | EmptyString => ""
  | String c r =>
      if Codec.byte_in 10 10 c
      then String c (String (ascii_of_N 9) (indent_newlines r))
      else String c (indent_newlines r)
  end.

Definition newline : string := String (ascii_of_N 10) "".

(** What [config.write] produces for the section [metadata]. *)
Definition meta_text (meta : FileMetadata) : string :=
  let line (k v : string) := k +:+ " = " +:+ indent_newlines v +:+ newline in
  "[metadata]" +:+ newline +:+
  line "filename" (fileName meta) +:+
  line "filesize" (pretty (fileSize meta)) +:+
  line "filehash" (fileHash meta) +:+
  line "totalchunks" (pretty (totalChunks meta)) +:+
  line "createdat" (pretty (createdAt meta)) +:+
  newline.

(** [None] is the [ValueError] of a value the parser refuses. *)
Definition _save_metadata (file_name : string) (fm : file_manager) : option file_manager :=
  match get_file_metadata file_name fm with
  | None => Some fm
  | Some meta =>
      if interpolation_ok (fileName meta) && interpolation_ok (fileHash meta) then
        let meta_path := (Metadata, _safe_filename file_name +:+ METADATA_EXTENSION) in
        Some (set_disk (<[meta_path := meta_text meta]> (disk fm)) fm)
      else None
  end.

(** ** Ingest *)

(** [f.read(n)]: the bytes read and the rest of the stream. *)
Fixpoint read (n : N) (stream : bytes) : bytes * bytes :=
  match stream with
  | EmptyString => ("", "")
  | String c s' =>
      if (n =? 0)%N then ("", stream)
      else let '(data, rest) := read (n - 1) s' in (String c data, rest)
  end.

(** The data of the successive [f.read(self.CHUNK_SIZE)]. *)
Fixpoint read_chunks (count : nat) (stream : bytes) : list bytes :=
  match count with
  | O => []
  | S count' =>
      let '(chunk_data, rest) := read CHUNK_SIZE stream in
      chunk_data :: read_chunks count' rest
  end.

(** [for i in range(total_chunks): self.save_chunk(file_name, i, f.read(...))],
    from index [i] on. *)
Fixpoint save_chunks (file_name : string) (i : Z) (count : nat) (stream : bytes)
    (fm : file_manager) : file_manager :=
  match count with
  | O => fm
  | S count' =>
      let '(chunk_data, rest) := read CHUNK_SIZE stream in
      save_chunks file_name (i + 1) count' rest (save_chunk file_name i chunk_data fm)
  end.

Definition total_chunks_of (file_size : Z) : Z :=
  (file_size + Z.of_N CHUNK_SIZE - 1) / Z.of_N CHUNK_SIZE.

(** [process_new_file(self.shared_folder / file_name)] at the time [now]. *)
Definition process_new_file (file_name : string) (now : Q) (fm : file_manager)
  : file_manager :=
  match disk fm !! (Shared, file_name) with
  | None => fm                         (* stat raises, the error is logged *)
  | Some content =>
    let file_size := Z.of_nat (String.length content) in
    if file_size =? 0 then fm
    else
      let file_hash := SHA256.hexdigest content in
      let total_chunks := total_chunks_of file_size in
      let metadata :=
        {| fileName := file_name; fileSize := file_size; fileHash := file_hash;
           totalChunks := total_chunks; createdAt := Qfloor (now * 1000) |} in
      let fm1 :=
        {| local_files_metadata := <[file_name := metadata]> (local_files_metadata fm);
           available_chunks := <[file_name := ∅]> (available_chunks fm);
           disk := disk fm |} in
      match _save_metadata file_name fm1 with
      | None => fm1                    (* the error is logged *)
      | Some fm2 => save_chunks file_name 0 (Z.to_nat total_chunks) content fm2
      end
  end.

(** ** Reconstruction *)

(** [PurePath.suffix] and [PurePath.with_suffix] on a name. *)
Fixpoint rfind_dot (l : list ascii) (i : nat) (last : option nat) : option nat :=
  match l with
  | [] => last
  | c :: r => rfind_dot r (S i) (if Codec.byte_in 46 46 c then Some i else last)
  end.

Definition stem (name : string) : string :=
  let l := list_ascii_of_string name in
  match rfind_dot l 0 None with
  | Some i =>
      if (0 <? i)%nat && (i <? List.length l - 1)%nat
      then string_of_list_ascii (List.firstn i l) else name
  | None => name
  end.

(** [None] is the [ValueError] of an empty name. *)
Definition with_suffix (name suffix : string) : option string :=
  if String.eqb name "" then None else Some (stem name +:+ suffix).

(** The loop that writes the chunks [i], [i+1], ... to the open file:
    what has been written when it ends, [None] when a chunk is missing. *)
Fixpoint write_chunks (file_name : string) (i : Z) (count : nat) (fm : file_manager)
    (written : bytes) : option bytes :=
  match count with
  | O => Some written
  | S count' =>
      match load_chunk file_name i fm with
      | None => None
      | Some chunk_data =>
          write_chunks file_name (i + 1) count' fm (written +:+ chunk_data)
      end
  end.

Definition reconstruct_file (file_name : string) (fm : file_manager)
  : bool * file_manager :=
  if negb (has_complete_file file_name fm) then (false, fm)
  else
    match get_file_metadata file_name fm with
    | None => (false, fm)
    | Some meta =>
      let output_path : path := (Shared, file_name) in
      let already :=
        match disk fm !! output_path with
        | Some content => Z.of_nat (String.length content) =? fileSize meta
        | None => false
        end in
      if already then (true, fm)
      else
        match with_suffix file_name ".part" with
        | None => (false, fm)
        | Some temp_name =>
          let temp_path : path := (Shared, temp_name) in
          match write_chunks file_name 0 (Z.to_nat (totalChunks meta)) fm "" with
          | None => (false, set_disk (delete temp_path (disk fm)) fm)
          | Some content =>
            let written := <[temp_path := content]> (disk fm) in
            let reconstructed_hash := SHA256.hexdigest content in
            if String.eqb reconstructed_hash (fileHash meta) then
              (* temp_path.rename(output_path) *)
              (true, set_disk (<[output_path := content]> (delete temp_path written)) fm)
            else (false, set_disk (delete temp_path written) fm)
          end
        end
    end.

(** ** Counters *)

(** [sum(len(chunks) for chunks in self.available_chunks.values())] *)
Definition get_total_chunks_count (fm : file_manager) : Z :=
  map_fold (fun _ chunks total => Z.of_nat (size chunks) + total) 0 (available_chunks fm).

(** ** The shared folder *)

(** [s.startswith(prefix)] and [s.endswith(suffix)] *)
Definition startswith (prefix s : string) : bool :=
  match Codec.strip_prefix prefix s with Some _ => true | None => false end.

Fixpoint endswith (suffix s : string) : bool :=
  String.eqb suffix s ||
  match s with
  | String _ r => endswith suffix r
  | EmptyString => false
  end.

(** The names [scan_shared_folder_for_new_files] passes over. *)
Definition scan_skips (name : string) : bool :=
  startswith "." name
  || List.existsb (fun suffix => endswith suffix name) [".meta"; ".chunk"; ".part"; ".tmp"].

(** The names [FileChangeHandler.on_created] passes over. *)
Definition on_created_skips (name : string) : bool :=
  startswith "." name
  || List.existsb (fun suffix => endswith suffix name)
       [".tmp"; ".part"; ".crdownload"; ".meta"; ".chunk"].

(** [scan_shared_folder_for_new_files]: [entries] are the regular files that
    [iterdir()] yields, in its order, each with the reading of the clock at
    the time it is processed. *)
Fixpoint scan_shared_folder_for_new_files (entries : list (string * Q)) (fm : file_manager)
  : file_manager :=
  match entries with
  | [] => fm
  | (name, now) :: rest =>
      scan_shared_folder_for_new_files rest
        (if negb (scan_skips name) && negb (bool_decide (is_Some (local_files_metadata fm !! name)))
         then process_new_file name now fm
         else fm)
  end.

(** [FileChangeHandler.on_created] for the event of the path
    [shared_folder / name]; [now] is the clock after the two seconds of sleep. *)
Definition on_created (is_directory : bool) (name : string) (now : Q) (fm : file_manager)
  : file_manager :=
  if is_directory then fm
  else if on_created_skips name then fm
  else process_new_file name now fm.

End FileManager.

(* ================================================================== *)
(** * Peer/DownloadManager.py: the order of the chunks *)
(* ================================================================== *)

Module DownloadManager.

Definition MAX_CONCURRENT_DOWNLOADS : nat := 3.
Definition MAX_CHUNK_RETRY_ATTEMPTS : nat := 3.
Definition CHUNK_DOWNLOADER_THREADS : nat := 5.

(** [sorted(l, key=key)]: the stable sort, ascending. *)
Fixpoint insert_by {A} (key : A -> Z) (x : A) (l : list A) : list A :=
  match l with
  | [] => [x]
  | y :: r => if key x <=? key y then x :: y :: r else y :: insert_by key x r
  end.

Definition sorted {A} (key : A -> Z) (l : list A) : list A :=
  List.fold_right (insert_by key) [] l.

(** [sub in s] for two [str]. *)
Fixpoint is_substring (sub s : string) : bool :=
  match Codec.strip_prefix sub s with
  | Some _ => true
  | None => match s with
            | String _ r => is_substring sub r
            | EmptyString => false
            end
  end.

(** [for chunk_index in l: if chunk_index in chunk_frequency:
    chunk_frequency[chunk_index] += 1]; [None] is the [TypeError] of an
    unhashable element. *)
Fixpoint count_listed (l : list json) (chunk_frequency : list (json * Z))
  : option (list (json * Z)) :=
  match l with
  | [] => Some chunk_frequency
  | chunk_index :: l' =>
      if hashable chunk_index then
        match PyDict.get chunk_index chunk_frequency with
        | Some n => count_listed l' (PyDict.set chunk_index (n + 1) chunk_frequency)
        | None => count_listed l' chunk_frequency
        end
      else None
  end.

(** The body of the loop over [all_peers.values()] for one [peer_info];
    [None] is an exception ([AttributeError] or [TypeError]). *)
Definition count_peer (file_name : string) (peer_info : json)
    (chunk_frequency : list (json * Z)) : option (list (json * Z)) :=
  match peer_info with
  | JObj info =>
      match get_or "files" (JObj []) info with
      | JObj peer_files =>
          match obj_get file_name peer_files with
          | None => Some chunk_frequency
          | Some (JArr l) => count_listed l chunk_frequency
          | Some (JObj _) | Some (JStr _) => Some chunk_frequency
              (* the keys of a dict and the characters of a str are no int *)
          | Some _ => None
          end
      | JArr l =>
          if List.existsb (fun x => match x with JStr s => String.eqb s file_name | _ => false end) l
          then None else Some chunk_frequency
      | JStr s => if is_substring file_name s then None else Some chunk_frequency
      | _ => None
      end
  | _ => None
  end.

Fixpoint count_peers (file_name : string) (peer_infos : list json)
    (chunk_frequency : list (json * Z)) : option (list (json * Z)) :=
  match peer_infos with
  | [] => Some chunk_frequency
  | peer_info :: rest =>
      match count_peer file_name peer_info chunk_frequency with
      | Some cf => count_peers file_name rest cf
      | None => None
      end
  end.

(** [needed_chunks] is the set in the order in which Python iterates over
    it; [known_peers] is what [get_known_peers()] returns. *)
Definition _get_rarest_chunks_first (needed_chunks : list Z) (file_name : string)
    (known_peers : list (string * json)) : option (list Z) :=
  let chunk_frequency := List.map (fun chunk_idx => (JInt chunk_idx, 0)) needed_chunks in
  match count_peers file_name (List.map snd known_peers) chunk_frequency with
  | Some chunk_frequency' =>
      Some (sorted (fun idx => default 0 (PyDict.get (JInt idx) chunk_frequency'))
              needed_chunks)
  | None => None
  end.

(** The chunks [_fetch_all_needed_chunks] submits in one turn of its loop. *)
Definition batch (needed_chunks : list Z) (file_name : string)
    (known_peers : list (string * json)) : option (list Z) :=
  List.firstn CHUNK_DOWNLOADER_THREADS
    <$> _get_rarest_chunks_first needed_chunks file_name known_peers.

(** ** The download task *)

Import FileManager.

(** ** Fetching the chunks *)

(** What one attempt of [_fetch_one_chunk] meets. *)
Inductive attempt : Type :=
| NoPeer                                  (* no known peer lists the chunk *)
| Answered (chunk_data : option bytes)    (* what [request_chunk] returned *)
| AttemptRaised.                          (* the lookup of the peers or of the address raised *)

(** How [_fetch_one_chunk] ends. *)
Inductive fetch : Type :=
| Fetched (chunk_data : bytes)            (* [True], after [save_chunk] *)
| GaveUp                                  (* [False] *)
| FetchRaised.

(** The loop [for attempt in range(...)] over what the attempts meet; an
    attempt the list does not cover finds no peer. *)
Fixpoint fetch_attempts (attempts : nat) (answers : list attempt) : fetch :=
  match attempts, answers with
  | S attempts', answer :: answers' =>
      match answer with
      | Answered (Some (String c data)) => Fetched (String c data)
      | AttemptRaised => FetchRaised
      | _ => fetch_attempts attempts' answers'
      end
  | _, _ => GaveUp
  end.

Definition _fetch_one_chunk (file_name : string) (chunk_index : Z) (answers : list attempt)
    (fm : file_manager) : fetch * file_manager :=
  match fetch_attempts MAX_CHUNK_RETRY_ATTEMPTS answers with
  | Fetched chunk_data =>
      (Fetched chunk_data, save_chunk file_name chunk_index chunk_data fm)
  | ended => (ended, fm)
  end.

(** What one turn of the loop of [_fetch_all_needed_chunks] meets: the known
    peers when the order is computed and, for each chunk, what the attempts
    made for it meet. *)
Record turn : Type :=
  { peers_then : list (string * json);
    answers_then : Z -> list attempt }.

(** The tasks of one turn and the loop [for future in futures] over their
    results: whether a result raised, the set [needed_chunks] and the store
    afterwards.  The tasks write different chunk files and add different
    indices, so the order in which they run makes no difference; they are
    taken in the order of submission.  Removing an element leaves the other
    elements of the set in their order of iteration. *)
Fixpoint fetch_batch (file_name : string) (chunks : list Z) (t : turn)
    (needed_chunks : list Z) (fm : file_manager) : bool * list Z * file_manager :=
  match chunks with
  | [] => (false, needed_chunks, fm)
  | chunk_index :: rest =>
      match _fetch_one_chunk file_name chunk_index (answers_then t chunk_index) fm with
      | (Fetched _, fm') =>
          fetch_batch file_name rest t
            (List.filter (fun c => negb (c =? chunk_index)) needed_chunks) fm'
      | (GaveUp, fm') => fetch_batch file_name rest t needed_chunks fm'
      | (FetchRaised, fm') =>
          let '(_, needed_chunks', fm'') := fetch_batch file_name rest t needed_chunks fm' in
          (true, needed_chunks', fm'')
      end
  end.

Inductive fetched : Type :=
| Finished (fm : file_manager)                           (* the loop has ended *)
| Failed (fm : file_manager)                             (* an exception has left it *)
| Running (needed_chunks : list Z) (fm : file_manager).  (* it is still in the loop *)

(** The loop [while needed_chunks: ...] from the turn [turn_no] on, for at
    most [fuel] turns. *)
Fixpoint _fetch_all_needed_chunks (fuel : nat) (world : nat -> turn) (turn_no : nat)
    (file_name : string) (needed_chunks : list Z) (fm : file_manager) : fetched :=
  match needed_chunks with
  | [] => Finished fm
  | _ =>
      match fuel with
      | O => Running needed_chunks fm
      | S fuel' =>
          match _get_rarest_chunks_first needed_chunks file_name (peers_then (world turn_no)) with
          | None => Failed fm
          | Some sorted_chunks_to_download =>
              let '(raised, needed_chunks', fm') :=
                fetch_batch file_name
                  (List.firstn CHUNK_DOWNLOADER_THREADS sorted_chunks_to_download)
                  (world turn_no) needed_chunks fm in
              if (raised : bool) then Failed fm'
              else _fetch_all_needed_chunks fuel' world (S turn_no) file_name needed_chunks' fm'
          end
      end
  end.



End DownloadManager.

(* ================================================================== *)
(** * Peer/NetworkManager.py: the known peers *)
(* ================================================================== *)

Module PeerDirectory.

(** ** The peers the tracker has told of *)

(** [self.known_peers], a dictionary from peer ids to what the tracker relayed
    for them, in the order of insertion, and [self.last_tracker_response_time]. *)
Record network_manager : Type :=
  { known_peers : list (string * json); last_tracker_response_time : Q }.

(** How a method ends: it returns, it raises (the state is what the method
    had made of it), or it takes a path the model does not follow. *)
Inductive result (A : Type) : Type :=
| Done (a : A)
| Raises (a : A)
| NotFollowed.
Arguments Done {A} a.
Arguments Raises {A} a.
Arguments NotFollowed {A}.

(** [stored.update(peer_info)].  Only a [dict] has the method; a [dict]
    argument is merged key by key, an empty [str] or [list] changes nothing,
    any other [str] and the scalars raise.  The update from a list of pairs is
    not followed. *)
Definition dict_update (stored peer_info : json) : result json :=
  match stored with
  | JObj old =>
      match peer_info with
      | JObj new => Done (JObj (fold_left (fun d kv => Codec.obj_set kv.1 kv.2 d) new old))
      | JStr "" | JArr [] => Done stored
      | JArr _ => NotFollowed
      | _ => Raises stored
      end
  | _ => Raises stored
  end.

(** The loop over [new_peers.items()]. *)
Fixpoint merge_peers (new_peers known : list (string * json))
  : result (list (string * json)) :=
  match new_peers with
  | [] => Done known
  | (peer_id, peer_info) :: rest =>
      match obj_get peer_id known with
      | Some stored =>
          match dict_update stored peer_info with
          | Done info => merge_peers rest (Codec.obj_set peer_id info known)
          | Raises _ => Raises known
          | NotFollowed => NotFollowed
          end
      | None => merge_peers rest (known ++ [(peer_id, peer_info)])
      end
  end.

Definition _process_tracker_response (response : json) (now : Q) (nm : network_manager)
  : result network_manager :=
  match response with
  | JObj fields =>
      match obj_get "status" fields with
      | Some (JStr "success") =>
          match obj_get "peers" fields with
          | Some (JObj new_peers) =>
              match merge_peers new_peers (known_peers nm) with
              | Done merged =>
                  Done {| known_peers :=
                            List.filter
                              (fun '(pid, _) =>
                                 match obj_get pid new_peers with Some _ => true | None => false end)
                              merged;
                          last_tracker_response_time := now |}
              | Raises merged =>
                  Raises {| known_peers := merged;
                            last_tracker_response_time := last_tracker_response_time nm |}
              | NotFollowed => NotFollowed
              end
          | Some _ => Raises nm                  (* no [items] *)
          | None =>
              Done {| known_peers := known_peers nm; last_tracker_response_time := now |}
          end
      | _ => Done nm                              (* the error is logged *)
      end
  | _ => Raises nm                                (* no [get] *)
  end.

(** [(time.time() - self.last_tracker_response_time) < 90] *)
Definition is_connected_to_tracker (now : Q) (nm : network_manager) : bool :=
  negb (Qle_bool 90 (now - last_tracker_response_time nm)).

(** [file_name in info.get('files', {})]; [None] is an exception. *)
Definition advertises (file_name : string) (info : json) : option bool :=
  match info with
  | JObj fields =>
      match get_or "files" (JObj []) fields with
      | JObj peer_files =>
          Some match obj_get file_name peer_files with Some _ => true | None => false end
      | JArr l =>
          Some (List.existsb
                  (fun x => match x with JStr s => String.eqb s file_name | _ => false end) l)
      | JStr s => Some (DownloadManager.is_substring file_name s)
      | _ => None
      end
  | _ => None
  end.

(** [chunk_index in info.get('files', {}).get(file_name, set())] *)
Definition lists_chunk (file_name : string) (chunk_index : Z) (info : json) : option bool :=
  match info with
  | JObj fields =>
      match get_or "files" (JObj []) fields with
      | JObj peer_files =>
          match obj_get file_name peer_files with
          | None => Some false
          | Some (JArr l) => Some (List.existsb (py_eq (JInt chunk_index)) l)
          | Some (JObj _) => Some false        (* the keys of a dict are str *)
          | Some _ => None
          end
      | _ => None
      end
  | _ => None
  end.

(** The dictionary comprehension [{peer_id: info for ... if test(info)}]. *)
Fixpoint select_peers (test : json -> option bool) (known : list (string * json))
  : option (list (string * json)) :=
  match known with
  | [] => Some []
  | (peer_id, info) :: rest =>
      match test info with
      | Some keep =>
          match select_peers test rest with
          | Some found => Some (if keep then (peer_id, info) :: found else found)
          | None => None
          end
      | None => None
      end
  end.

Definition find_peers_with_file (file_name : string) (nm : network_manager)
  : option (list (string * json)) :=
  select_peers (advertises file_name) (known_peers nm).

Definition find_peers_with_chunk (file_name : string) (chunk_index : Z)
    (nm : network_manager) : option (list (string * json)) :=
  select_peers (lists_chunk file_name chunk_index) (known_peers nm).

End PeerDirectory.

(* ================================================================== *)
(** * Peer/NetworkManager.py: the connections between peers *)
(* ================================================================== *)

Module Connections.
Import FileManager PeerDirectory.

(** ** The connections between peers *)

(** What is still to arrive on a connection, as its reader meets it: the
    pieces in which the bytes come, then the end of the stream.  A connection
    on which the reader waits longer than its time-out is not followed. *)
Abbreviation stream := (list bytes).

(** [sock.recv(bufsize)]: at most [bufsize] bytes of the piece that has
    arrived, nothing at the end of the stream. *)
Fixpoint recv (bufsize : N) (s : stream) : bytes * stream :=
  match s with
  | [] => ("", [])
  | piece :: rest =>
      if String.eqb piece "" then recv bufsize rest
      else if (bufsize =? 0)%N then ("", s)
      else
        let '(data, remaining) := read bufsize piece in
        (data, if String.eqb remaining "" then rest else remaining :: rest)
  end.

(** [struct.pack('>I', n)] and [struct.unpack('>I', data)[0]]; [None] is
    [struct.error]. *)
Definition byte_of (n : Z) : ascii := ascii_of_N (Z.to_N (n mod 256)).

Definition pack_u32 (n : Z) : option bytes :=
  if (0 <=? n) && (n <? 4294967296) then
    Some (String (byte_of (Z.shiftr n 24)) (String (byte_of (Z.shiftr n 16))
            (String (byte_of (Z.shiftr n 8)) (String (byte_of n) ""))))
  else None.

Definition unpack_u32 (data : bytes) : option Z :=
  match data with
  | String a (String b (String c (String d ""))) =>
      Some (Z.of_N (N_of_ascii a) * 16777216 + Z.of_N (N_of_ascii b) * 65536
            + Z.of_N (N_of_ascii c) * 256 + Z.of_N (N_of_ascii d))
  | _ => None
  end.

(** How [_read_tcp_response] ends. *)
Inductive read_result : Type :=
| Read (header : option json) (data : option bytes)
| ReadRaised.

(** The loop [while len(data) < chunk_size], for at most [fuel] turns:
    the data, or [None] when the stream ends before. *)
Inductive received : Type :=
| Received (data : bytes)
| EndOfStream
| OutOfTurns.

Fixpoint recv_chunk (fuel : nat) (chunk_size : Z) (data : bytes) (s : stream)
  : received * stream :=
  if Z.of_nat (String.length data) <? chunk_size then
    match fuel with
    | O => (OutOfTurns, s)
    | S fuel' =>
        let '(packet, s') := recv (Z.to_N (chunk_size - Z.of_nat (String.length data))) s in
        if String.eqb packet "" then (EndOfStream, s')
        else recv_chunk fuel' chunk_size (data +:+ packet) s'
    end
  else (Received data, s).

(** [0 < x] for a [float] *)
Definition float_positive (f : spec_float) : bool :=
  match f with
  | S754_finite false _ _ | S754_infinity false => true
  | _ => false
  end.

(** Every turn of the loop adds a byte at least, so [chunk_size] turns are
    enough (see [recv_chunk_turns]). *)
Definition _read_tcp_response (s : stream) : read_result * stream :=
  let '(header_size_data, s1) := recv 4 s in
  if String.eqb header_size_data "" then (Read None None, s1)
  else
    match unpack_u32 header_size_data with
    | None => (ReadRaised, s1)
    | Some header_size =>
        let '(header_data, s2) := recv (Z.to_N header_size) s1 in
        match text ← Codec.decode_utf8 header_data; Codec.loads text with
        | None => (ReadRaised, s2)
        | Some (JObj fields) =>
            let header := JObj fields in
            let loop (chunk_size : Z) :=
              match recv_chunk (Z.to_nat chunk_size) chunk_size "" s2 with
              | (Received data, s3) => (Read (Some header) (Some data), s3)
              | (_, s3) => (Read (Some header) None, s3)
              end in
            match obj_get "status" fields, obj_get "chunk_size" fields with
            | Some (JStr "success"), Some chunk_size =>
                match chunk_size with
                | JInt z => loop z
                | JBool b => loop (if b then 1 else 0)
                | JFloat f =>
                    if float_positive f then (ReadRaised, s2)
                    else (Read (Some header) (Some ""), s2)
                | _ => (ReadRaised, s2)
                end
            | _, _ => (Read (Some header) None, s2)
            end
        | Some _ => (ReadRaised, s2)              (* no [get] *)
        end
    end.

Section connections.
(** [json.dumps(header).encode('utf-8')] is the library's. *)
Variable json_dumps : json -> bytes.

(** [_send_tcp_request]: the bytes given to [sendall]; [None] is the
    [struct.error] of a header of 4 GiB or more. *)
Definition _send_tcp_request (header : json) (data : option bytes) : option bytes :=
  let header_json := json_dumps header in
  match pack_u32 (Z.of_nat (String.length header_json)) with
  | None => None
  | Some header_size =>
      Some (header_size +:+ header_json +:+
            match data with
            | Some (String c d) => String c d
            | _ => ""
            end)
  end.

Definition _send_tcp_error (error_code message : string) : option bytes :=
  _send_tcp_request
    (JObj [("status", JStr "error"); ("error_code", JStr error_code); ("message", JStr message)])
    None.

(** The dictionary that [get_file_metadata] returns, as it is serialized. *)
Definition metadata_json (meta : FileMetadata) : json :=
  JObj [("fileName", JStr (fileName meta)); ("fileSize", JInt (fileSize meta));
        ("fileHash", JStr (fileHash meta)); ("totalChunks", JInt (totalChunks meta));
        ("createdAt", JInt (createdAt meta))].

(** What a handler of the server has written when it ends. *)
Definition written (sent : option bytes) : result bytes :=
  match sent with Some b => Done b | None => Raises "" end.

(** [_handle_get_chunk] for a request whose [file_name] is a [str] and whose
    [chunk_index] is an [int], as [request_chunk] sends them; a [file_name]
    that is a list or a dict and a [chunk_index] of another type are not
    followed. *)
Definition _handle_get_chunk (request : list (string * json)) (fm : file_manager)
  : result bytes :=
  match obj_get "file_name" request, obj_get "chunk_index" request with
  | Some file_name, Some chunk_index =>
      match file_name, chunk_index with
      | JStr name, JInt index =>
          match load_chunk name index fm with
          | Some (String c d) =>
              let chunk_data := String c d in
              written (_send_tcp_request
                         (JObj [("status", JStr "success");
                                ("chunk_size", JInt (Z.of_nat (String.length chunk_data)))])
                         (Some chunk_data))
          | _ => written (_send_tcp_error "CHUNK_NOT_FOUND" "Chunk não encontrado")
          end
      | (JNull | JBool _ | JInt _ | JFloat _), _ => Raises ""   (* not iterable *)
      | _, _ => NotFollowed
      end
  | _, _ => Raises ""                                            (* KeyError *)
  end.

(** [_handle_file_info] for a request whose [file_name] is a [str]. *)
Definition _handle_file_info (request : list (string * json)) (fm : file_manager)
  : result bytes :=
  match obj_get "file_name" request with
  | Some (JStr name) =>
      match get_file_metadata name fm with
      | Some metadata =>
          written (_send_tcp_request
                     (JObj [("status", JStr "success"); ("metadata", metadata_json metadata)])
                     None)
      | None =>
          written (_send_tcp_error "FILE_NOT_FOUND"
                     ("Arquivo '" +:+ name +:+ "' não encontrado"))
      end
  | Some (JArr _ | JObj _) => Raises ""                          (* unhashable *)
  | Some _ => NotFollowed
  | None => Raises ""                                            (* KeyError *)
  end.

(** [_handle_tcp_client]: what the server has written to the connection when
    it closes it, for the request that arrives as [incoming]. *)
Definition _handle_tcp_client (incoming : stream) (fm : file_manager) : result bytes :=
  match _read_tcp_response incoming with
  | (ReadRaised, _) => Raises ""
  | (Read None _, _) => Done ""
  | (Read (Some header) _, _) =>
      if negb (truthy header) then Done ""
      else
        match header with
        | JObj fields =>
            let command := get_or "command" JNull fields in
            if negb (hashable command) then Raises ""
            else if py_eq (JStr "GET_CHUNK") command then _handle_get_chunk fields fm
            else if py_eq (JStr "FILE_INFO") command then _handle_file_info fields fm
            else written (_send_tcp_error "UNKNOWN_COMMAND" "Comando desconhecido")
        | _ => Raises ""
        end
  end.

(** [request_chunk] once the connection is made.  [connection] gives, for
    the bytes the method sends, what arrives in answer. *)
Definition request_chunk (connection : bytes -> stream) (file_name : string)
    (chunk_index : Z) : option bytes :=
  match _send_tcp_request
          (JObj [("command", JStr "GET_CHUNK"); ("file_name", JStr file_name);
                 ("chunk_index", JInt chunk_index)])
          None with
  | None => None
  | Some request =>
      match _read_tcp_response (connection request) with
      | (Read (Some (JObj fields)) data, _) =>
          match fields, obj_get "status" fields with
          | _ :: _, Some (JStr "success") => data
          | _, _ => None
          end
      | _ => None
      end
  end.

(** [request_file_info] once the connection is made: the value of
    [resp_header.get("metadata")], [JNull] being [None]. *)
Definition request_file_info (connection : bytes -> stream) (file_name : string) : json :=
  match _send_tcp_request
          (JObj [("command", JStr "FILE_INFO"); ("file_name", JStr file_name)]) None with
  | None => JNull
  | Some request =>
      match _read_tcp_response (connection request) with
      | (Read (Some (JObj fields)) _, _) =>
          match fields, obj_get "status" fields with
          | _ :: _, Some (JStr "success") => get_or "metadata" JNull fields
          | _, _ => JNull
          end
      | _ => JNull
      end
  end.

End connections.

End Connections.

(* ================================================================== *)
(** * Facts about the codec *)
(* ================================================================== *)

Module CodecFacts.
Import Codec.
Local Open Scope nat_scope.

(** A double quote, and a text between double quotes. *)
Definition dq : string := String (ascii_of_N 34) "".
Definition quoted (s : string) : string := dq +:+ s +:+ dq.

Lemma skip_ws_length s : String.length (skip_ws s) <= String.length s.
Proof.
  induction s as [|c s IH]; simpl; [lia|]. destruct (is_ws c); simpl; lia.
Qed.

Lemma prepend_some p r body rest :
  prepend p r = Some (body, rest) -> exists body', r = Some (body', rest).
Proof.
  unfold prepend. destruct r as [[b r']|]; [|done]. intros [= _ <-]. by eexists.
Qed.

Lemma scanstring_length_aux n : forall s body rest,
  String.length s <= n ->
  scanstring s = Some (body, rest) -> String.length rest < String.length s.
Proof.
  induction n as [|n IH]; intros s body rest Hn.
  { destruct s; [done|simpl in Hn; lia]. }
  destruct s as [|c s1]; [done|]. simpl in Hn. simpl scanstring.
  assert (forall p t, String.length t <= n ->
            prepend p (scanstring t) = Some (body, rest) ->
            String.length rest < String.length t) as Hstep.
  { intros p t Ht [b' Hb]%prepend_some. by eapply IH. }
  destruct (byte_in 34 34 c); [intros [= _ <-]; simpl; lia|].
  destruct (byte_in 92 92 c).
  - destruct s1 as [|e s2]; [done|]. simpl in Hn.
    destruct (byte_in 117 117 e).
    + destruct s2 as [|h1 [|h2 [|h3 [|h4 s6]]]]; try done. simpl in Hn.
      destruct (hex4 h1 h2 h3 h4) as [cp|]; [|done].
      assert (prepend (utf8_encode cp) (scanstring s6) = Some (body, rest) ->
              String.length rest < String.length (String c (String e
                (String h1 (String h2 (String h3 (String h4 s6))))))) as H6.
      { intros H. apply Hstep in H; simpl in *; lia. }
      destruct (is_high_surrogate cp); [|exact H6].
      destruct s6 as [|b [|u [|g1 [|g2 [|g3 [|g4 s12]]]]]]; try exact H6.
      destruct (byte_in 92 92 b && byte_in 117 117 u); [|exact H6].
      destruct (hex4 g1 g2 g3 g4) as [c2|]; [|done].
      destruct (is_low_surrogate c2); [|exact H6].
      intros H. apply Hstep in H; simpl in *; lia.
    + destruct (simple_escape e); [|done].
      intros H. apply Hstep in H; simpl in *; lia.
  - destruct (byte_in 0 31 c); [done|].
    intros H. apply Hstep in H; simpl in *; lia.
Qed.

Lemma scanstring_length s body rest :
  scanstring s = Some (body, rest) -> String.length rest < String.length s.
Proof. by apply (scanstring_length_aux (String.length s)). Qed.

Lemma span_digits_length s ds rest :
  span_digits s = (ds, rest) ->
  String.length rest + List.length ds = String.length s.
Proof.
  revert ds rest. induction s as [|c s IH]; intros ds rest; simpl.
  - by intros [= <- <-].
  - destruct (is_digit c); [|by intros [= <- <-]; simpl; lia].
    destruct (span_digits s) as [ds' r'] eqn:E. intros [= <- <-].
    simpl. specialize (IH _ _ eq_refl). lia.
Qed.

Lemma strip_prefix_length lit : forall s rest,
  strip_prefix lit s = Some rest ->
  String.length s = String.length lit + String.length rest.
Proof.
  induction lit as [|a lit IH]; intros s rest; simpl.
  - by intros [= ->].
  - destruct s as [|b s]; [done|]. destruct (Ascii.eqb a b); [|done].
    intros H%IH. simpl. lia.
Qed.

Lemma match_number_length s v rest :
  match_number s = Some (v, rest) -> String.length rest < String.length s.
Proof.
  unfold match_number.
  set (sign := match s with
               | String c r => if byte_in 45 45 c then (true, r) else (false, s)
               | EmptyString => (false, s)
               end).
  assert (String.length (snd sign) <= String.length s) as Hsign.
  { unfold sign. destruct s as [|c r]; [done|]. destruct (byte_in 45 45 c); simpl; lia. }
  destruct sign as [negative s1]. simpl in Hsign.
  destruct s1 as [|c r]; [done|].
  set (int_part := if byte_in 49 57 c then Some (span_digits (String c r))
                   else if byte_in 48 48 c then Some ([0%Z], r) else None).
  assert (forall ids r1, int_part = Some (ids, r1) -> String.length r1 <= String.length r) as Hint.
  { intros ids r1. unfold int_part.
    destruct (byte_in 49 57 c) eqn:E1.
    - intros Hs. assert (span_digits (String c r) = (ids, r1)) as H by congruence.
      clear Hs. simpl in H. unfold is_digit in H.
      assert (byte_in 48 57 c = true) as Hd.
      { unfold byte_in in *. apply andb_true_iff in E1 as [?%N.leb_le ?%N.leb_le].
        apply andb_true_iff. split; apply N.leb_le; lia. }
      rewrite Hd in H.
      destruct (span_digits r) as [ds' r'] eqn:E. injection H as <- <-.
      apply span_digits_length in E. lia.
    - destruct (byte_in 48 48 c); [|done]. by intros [= <- <-]. }
  destruct int_part as [[ids r1]|]; [|done]. specialize (Hint _ _ eq_refl).
  set (frac := match r1 with
               | String dot (String d r') =>
                   if byte_in 46 46 dot && is_digit d then span_digits (String d r') else ([], r1)
               | _ => ([], r1)
               end).
  assert (String.length (snd frac) <= String.length r1) as Hfrac.
  { unfold frac. destruct r1 as [|dot [|d r']]; try (simpl; lia).
    destruct (byte_in 46 46 dot && is_digit d); [|simpl; lia].
    destruct (span_digits (String d r')) as [ds rr] eqn:E.
    apply span_digits_length in E. simpl in *. lia. }
  destruct frac as [fds r2]. simpl in Hfrac.
  set (ex := match r2 with
             | String e r' =>
                 if byte_in 101 101 e || byte_in 69 69 e then
                   let '(eneg, r'') :=
                     match r' with
                     | String sg t =>
                         if byte_in 45 45 sg then (true, t)
                         else if byte_in 43 43 sg then (false, t) else (false, r')
                     | EmptyString => (false, r')
                     end in
                   match span_digits r'' with
                   | ([], _) => (None, r2)
                   | (eds, t) =>
                       (Some (if eneg then (- Z_of_digits eds)%Z else Z_of_digits eds), t)
                   end
                 else (None, r2)
             | EmptyString => (None, r2)
             end).
  assert (String.length (snd ex) <= String.length r2) as Hex.
  { unfold ex. destruct r2 as [|e r']; [done|].
    destruct (byte_in 101 101 e || byte_in 69 69 e); [|done].
    set (sg := match r' with
               | String sg t => if byte_in 45 45 sg then (true, t)
                                else if byte_in 43 43 sg then (false, t) else (false, r')
               | EmptyString => (false, r')
               end).
    assert (String.length (snd sg) <= String.length r') as Hsg.
    { unfold sg. destruct r' as [|x t]; [done|].
      destruct (byte_in 45 45 x); [simpl; lia|]. destruct (byte_in 43 43 x); simpl; lia. }
    destruct sg as [eneg r'']. simpl in Hsg.
    destruct (span_digits r'') as [[|d eds] t] eqn:E; [done|].
    apply span_digits_length in E. simpl in *. lia. }
  destruct ex as [expo r3]. simpl in Hex.
  destruct fds, expo; intros [= _ <-]; simpl in *; lia.
Qed.

Definition shorter {A} (r : parsed A) (s : string) : Prop :=
  match r with
  | Parsed _ rest => String.length rest < String.length s
  | Invalid => True
  | OutOfFuel => False
  end.

Lemma shorter_le {A} (r : parsed A) s s' :
  shorter r s -> String.length s <= String.length s' -> shorter r s'.
Proof. destruct r; simpl; lia || done. Qed.

(** With twice the length of the text as fuel the parser never runs out,
    and what it leaves is shorter than what it was given. *)
Lemma fuel_suffices n :
  (forall s, 2 * String.length s + 1 <= n -> shorter (scan_once n s) s) /\
  (forall s acc, 2 * String.length s + 2 <= n -> shorter (parse_members n s acc) s) /\
  (forall s, 2 * String.length s + 2 <= n -> shorter (parse_elements n s) s).
Proof.
  induction n as [|n (IHv & IHm & IHe)]; [repeat split; intros; lia|].
  split; [|split].
  - intros s Hn. destruct s as [|c r]; [done|]. simpl in Hn. cbn [scan_once].
    destruct (byte_in 34 34 c).
    { destruct (scanstring r) as [[str rest]|] eqn:E; [|done].
      apply scanstring_length in E. simpl. lia. }
    destruct (byte_in 123 123 c).
    { pose proof (skip_ws_length r) as Hw.
      destruct (skip_ws r) as [|c' r'] eqn:E; [done|]. simpl in Hw.
      destruct (byte_in 125 125 c'); [simpl; lia|].
      pose proof (IHm (String c' r') [] ltac:(simpl; lia)) as H.
      destruct (parse_members n (String c' r') []); simpl in *; first [lia | done]. }
    destruct (byte_in 91 91 c).
    { pose proof (skip_ws_length r) as Hw.
      destruct (skip_ws r) as [|c' r'] eqn:E; [done|]. simpl in Hw.
      destruct (byte_in 93 93 c'); [simpl; lia|].
      pose proof (IHe (String c' r') ltac:(simpl; lia)) as H.
      destruct (parse_elements n (String c' r')); simpl in *; first [lia | done]. }
    repeat match goal with
           | |- context [strip_prefix ?lit ?s] =>
               destruct (strip_prefix lit s) eqn:?;
               [match goal with
                | H : strip_prefix _ _ = Some _ |- _ =>
                    apply strip_prefix_length in H; simpl in *; lia
                end|]
           end.
    destruct (match_number (String c r)) as [[v rest]|] eqn:E; [|done].
    apply match_number_length in E. simpl in *. lia.
  - intros s acc Hn. destruct s as [|q r]; [done|]. simpl in Hn. cbn [parse_members].
    destruct (byte_in 34 34 q); [|done].
    destruct (scanstring r) as [[key r1]|] eqn:E; [|done].
    apply scanstring_length in E.
    pose proof (skip_ws_length r1) as Hw1.
    destruct (skip_ws r1) as [|colon r2]; [done|]. simpl in Hw1.
    destruct (byte_in 58 58 colon); [|done].
    pose proof (skip_ws_length r2) as Hw2.
    pose proof (IHv (skip_ws r2) ltac:(lia)) as Hv.
    destruct (scan_once n (skip_ws r2)) as [v r3| |]; [|done|done]. simpl in Hv.
    pose proof (skip_ws_length r3) as Hw3.
    destruct (skip_ws r3) as [|d r4]; [done|]. simpl in Hw3.
    destruct (byte_in 125 125 d); [simpl; lia|].
    destruct (byte_in 44 44 d); [|done].
    pose proof (skip_ws_length r4) as Hw4.
    eapply shorter_le; [apply IHm; lia|simpl; lia].
  - intros s Hn. cbn [parse_elements].
    pose proof (IHv s ltac:(lia)) as Hv.
    destruct (scan_once n s) as [v r1| |]; [|done|done]. simpl in Hv.
    pose proof (skip_ws_length r1) as Hw1.
    destruct (skip_ws r1) as [|d r2]; [done|]. simpl in Hw1.
    destruct (byte_in 93 93 d); [simpl; lia|].
    destruct (byte_in 44 44 d); [|done].
    pose proof (skip_ws_length r2) as Hw2.
    pose proof (IHe (skip_ws r2) ltac:(lia)) as He.
    destruct (parse_elements n (skip_ws r2)); simpl in *; first [lia | done].
Qed.

(** [loads] never gives up for want of fuel. *)
Lemma scan_once_fuel s :
  scan_once (2 * String.length s + 1) s <> OutOfFuel.
Proof.
  destruct (fuel_suffices (2 * String.length s + 1)) as [H _].
  specialize (H s (le_n _)). intros E. by rewrite E in H.
Qed.


(** ** The parser on sample texts, as CPython's [json.loads] reads them *)

Example loads_scalars :
  loads " [1, -0, true, false, null] "
  = Some (JArr [JInt 1; JInt 0; JBool true; JBool false; JNull]).
Proof. vm_compute. reflexivity. Qed.

Example loads_floats :
  loads "[0.1, 2.5, 1E-2, -0.0, 1e-400, 2.5e-324, 1e400, 9007199254740993.0]"
  = Some (JArr [JFloat (S754_finite false 7205759403792794 (-56));
                JFloat (S754_finite false 5629499534213120 (-51));
                JFloat (S754_finite false 5764607523034235 (-59));
                JFloat (S754_zero true);
                JFloat (S754_zero false);
                JFloat (S754_finite false 1 (-1074));
                JFloat (S754_infinity false);
                JFloat (S754_finite false 4503599627370496 1)]).
Proof. vm_compute. reflexivity. Qed.

Example loads_constants :
  loads "[NaN, Infinity, -Infinity]"
  = Some (JArr [JFloat S754_nan; JFloat (S754_infinity false); JFloat (S754_infinity true)]).
Proof. vm_compute. reflexivity. Qed.

Example loads_object :
  loads ("{" +:+ quoted "a" +:+ ": 1, " +:+ quoted "b" +:+ ": [ ], "
         +:+ quoted "a" +:+ " : " +:+ quoted "xA\n" +:+ "}")
  = Some (JObj [("a", JStr ("xA" +:+ String (ascii_of_N 10) "")); ("b", JArr [])]).
Proof. vm_compute. reflexivity. Qed.

Example loads_rejects :
  List.map loads ["hello"; "[1,]"; "01"; "1."; "1e"; "-"; ".5"; "+1"; "nul"; "[1 2]";
                  "{1:2}"; ""; "{} x"; dq +:+ "abc"]
  = List.repeat None 14.
Proof. vm_compute. reflexivity. Qed.

Example decode_rejects_stray_continuation_byte :
  decode_utf8 ("x" +:+ String (ascii_of_N 156) "") = None.
Proof. reflexivity. Qed.

End CodecFacts.

(* ================================================================== *)
(** * Facts about dictionaries *)
(* ================================================================== *)

Module PyDictFacts.
Section facts.
Context {V : Type}.
Implicit Types (d : list (json * V)) (k : json) (v : V).

Lemma py_eq_refl k : key_of k <> None -> py_eq k k = true.
Proof.
  unfold py_eq. destruct (key_of k); [intros _|congruence].
  by apply bool_decide_eq_true.
Qed.

Lemma py_eq_keys k k' : py_eq k k' = true -> key_of k = key_of k'.
Proof.
  unfold py_eq. destruct (key_of k), (key_of k'); try discriminate.
  intros H. apply bool_decide_eq_true in H. by subst.
Qed.

Lemma py_eq_false_of_keys k k' : key_of k <> key_of k' -> py_eq k k' = false.
Proof.
  intros H. destruct (py_eq k k') eqn:E; [|done].
  by apply py_eq_keys in E.
Qed.

Lemma key_of_hashable k : key_of k <> None -> hashable k = true.
Proof. destruct k; simpl; congruence. Qed.

Lemma wf_cons k v d :
  PyDict.wf ((k, v) :: d) <->
  key_of k <> None /\ (key_of k ∉ List.map (fun kv => key_of (fst kv)) d) /\ PyDict.wf d.
Proof.
  unfold PyDict.wf. simpl. rewrite NoDup_cons, Forall_cons. simpl. tauto.
Qed.

Lemma wf_In_inj d k v v' :
  PyDict.wf d -> In (k, v) d -> In (k, v') d -> v = v'.
Proof.
  induction d as [|[k1 v1] d IH]; [done|].
  intros Hwf Hin Hin'. apply wf_cons in Hwf as (_ & Hnotin & Hwf).
  assert (forall w, In (k1, w) d -> False) as Habs.
  { intros w Hw. apply Hnotin, list_elem_of_In, in_map_iff. by exists (k1, w). }
  destruct Hin as [Heq|Hin], Hin' as [Heq'|Hin'].
  - congruence.
  - injection Heq as -> ->. by destruct (Habs v').
  - injection Heq' as -> ->. by destruct (Habs v).
  - by apply IH.
Qed.

(** Deleting, one after the other, keys that differ from the head leaves the head alone. *)
Fixpoint del_all (ks : list json) d : option (list (json * V)) :=
  match ks with
  | [] => Some d
  | k :: ks' => match PyDict.del k d with Some d' => del_all ks' d' | None => None end
  end.

Lemma del_all_skip_head ks : forall k v d,
  Forall (fun k' => py_eq k k' = false) ks ->
  del_all ks ((k, v) :: d) =
  match del_all ks d with Some r => Some ((k, v) :: r) | None => None end.
Proof.
  induction ks as [|k0 ks IH]; intros k v d Hks; [done|].
  apply Forall_cons in Hks as [Hk0 Hks]. simpl. rewrite Hk0.
  destruct (PyDict.del k0 d) as [d'|]; [|done].
  by apply IH.
Qed.

Lemma del_all_filter (P : V -> bool) d :
  PyDict.wf d ->
  del_all (List.map fst (List.filter (fun '(_, i) => P i) d)) d
  = Some (List.filter (fun '(_, i) => negb (P i)) d).
Proof.
  induction d as [|[k v] d IH]; intros Hwf; [done|].
  apply wf_cons in Hwf as (Hk & Hnotin & Hwf). specialize (IH Hwf).
  simpl. destruct (P v) eqn:HP; simpl.
  - by rewrite py_eq_refl.
  - rewrite del_all_skip_head, IH; [done|].
    apply Forall_forall. intros k' Hin.
    apply py_eq_false_of_keys. intros Heq. apply Hnotin. rewrite Heq.
    apply list_elem_of_In in Hin.
    apply in_map_iff in Hin as ([k0 v0] & <- & Hin). apply filter_In in Hin as [Hin _].
    apply list_elem_of_In. apply in_map_iff. by exists (k0, v0).
Qed.

Lemma set_new k v d :
  PyDict.contains k d = false -> PyDict.set k v d = d ++ [(k, v)].
Proof.
  unfold PyDict.contains. induction d as [|[k' v'] d IH]; simpl; [done|].
  destruct (py_eq k' k); [done|]. intros H. by rewrite IH.
Qed.

Lemma get_set_same k v i d :
  PyDict.get k d = Some i -> PyDict.get k (PyDict.set k v d) = Some v.
Proof.
  induction d as [|[k' v'] d IH]; simpl; [done|].
  destruct (py_eq k' k) eqn:E; simpl; rewrite E; [done|apply IH].
Qed.

Lemma set_set_same k v v' i d :
  PyDict.get k d = Some i -> PyDict.set k v' (PyDict.set k v d) = PyDict.set k v' d.
Proof.
  induction d as [|[k' w] d IH]; simpl; [done|].
  destruct (py_eq k' k) eqn:E; simpl; rewrite E; [done|].
  intros H. by rewrite IH.
Qed.

Lemma contains_of_get k i d : PyDict.get k d = Some i -> PyDict.contains k d = true.
Proof. unfold PyDict.contains. by intros ->. Qed.

(** The keys of a dictionary stay the same under an assignment to a key it
    has, and gain the key otherwise. *)
Lemma set_keys k v d :
  List.map (fun kv => key_of (fst kv)) (PyDict.set k v d)
  = if PyDict.contains k d then List.map (fun kv => key_of (fst kv)) d
    else List.map (fun kv => key_of (fst kv)) d ++ [key_of k].
Proof.
  unfold PyDict.contains. induction d as [|[k' v'] d IH]; simpl; [done|].
  destruct (py_eq k' k) eqn:E; simpl; [done|]. rewrite IH.
  by destruct (PyDict.get k d).
Qed.

Lemma get_none_notin k d :
  key_of k <> None -> PyDict.get k d = None ->
  key_of k ∉ List.map (fun kv => key_of (fst kv)) d.
Proof.
  intros Hk. induction d as [|[k' v'] d IH]; simpl; [intros _; apply not_elem_of_nil|].
  destruct (py_eq k' k) eqn:E; [done|]. intros Hget.
  apply not_elem_of_cons. split; [|by apply IH].
  intros Heq. unfold py_eq in E. rewrite <- Heq in E.
  destruct (key_of k); [|done]. by rewrite bool_decide_eq_true_2 in E.
Qed.

(** Assigning to a key that is not NaN keeps a dictionary well formed. *)
Lemma set_wf k v d : key_of k <> None -> PyDict.wf d -> PyDict.wf (PyDict.set k v d).
Proof.
  intros Hk [Hnd Hall]. split.
  - rewrite set_keys. unfold PyDict.contains.
    destruct (PyDict.get k d) eqn:E; [done|].
    apply NoDup_app. split; [done|]. split; [|apply NoDup_singleton].
    intros x Hx ->%list_elem_of_singleton. by apply (get_none_notin k d).
  - clear Hnd. induction d as [|[k' v'] d IH]; simpl.
    + by repeat constructor.
    + apply Forall_cons in Hall as [Hk' Hall].
      destruct (py_eq k' k); constructor; auto.
Qed.

End facts.
End PyDictFacts.

(* ================================================================== *)
(** * Facts about the tracker *)
(* ================================================================== *)

Module TrackerFacts.
Import Tracker PyDictFacts.

Definition with_peers (ps : list (json * PeerInfo)) (t : tracker) : tracker :=
  {| peers := ps; peers_lock := peers_lock t; sent := sent t |}.

(** The tracker after one more datagram was handed to [sendto]. *)
Definition with_reply (r : response) (a : sockaddr) (t : tracker) : tracker :=
  {| peers := peers t; peers_lock := peers_lock t; sent := sent t ++ [(r, a)] |}.

Definition processing_error : response :=
  ErrorReply "PROCESSING_ERROR" "Erro interno no tracker.".


(** The peers-list reply to [requester_id] over the table [ps]. *)
Definition peers_list_for (requester_id : json) (ps : list (json * PeerInfo)) : response :=
  PeersList (List.filter (fun '(pid, _) => negb (py_eq pid requester_id)) ps).

(** ** Running the monad *)

Lemma bind_returned {A B} (m : M A) (f : A -> M B) t a t' :
  m t = Returned a t' -> (m ≫= f) t = f a t'.
Proof. unfold mbind, M_bind. by intros ->. Qed.

Ltac run_handler :=
  cbv beta iota zeta delta
    [try_except handlers_get with_lock acquire release raise getitem
     peers_contains peers_setitem peers_getitem peers_delitem get_peers put_peers
     _send_peers_list _send_ack _send_error_response _send_response
     _handle_register _handle_update _handle_unregister _handle_heartbeat
     mbind M_bind mret M_ret];
  cbn [peers peers_lock sent negb].

Lemma handlers_register : PyDict.get (JStr "REGISTER") handlers = Some _handle_register.
Proof. reflexivity. Qed.
Lemma handlers_update : PyDict.get (JStr "UPDATE") handlers = Some _handle_update.
Proof. reflexivity. Qed.
Lemma handlers_unregister : PyDict.get (JStr "UNREGISTER") handlers = Some _handle_unregister.
Proof. reflexivity. Qed.
Lemma handlers_heartbeat : PyDict.get (JStr "HEARTBEAT") handlers = Some _handle_heartbeat.
Proof. reflexivity. Qed.

Lemma py_eq_str name x : py_eq (JStr name) x = true -> x = JStr name.
Proof.
  unfold py_eq. destruct (key_of x) as [k|] eqn:K; [|done].
  intros H%bool_decide_eq_true. subst k. simpl in K.
  assert (forall z s, key_of_Z z <> KStr s) as Hz.
  { intros [|p|p] s; simpl; unfold dyadic; try done; by destruct (strip_twos p 0). }
  destruct x as [|b|z|f|s|l|m]; simpl in K; try done.
  - injection K as K. by destruct (Hz _ _ K).
  - injection K as K. by destruct (Hz _ _ K).
  - destruct f as [s|s| |s m e]; simpl in K; try done.
    unfold dyadic in K. by destruct (strip_twos m e).
  - congruence.
Qed.


Lemma obj_get_truthy key m :
  truthy (get_or key JNull m) = true -> obj_get key m = Some (get_or key JNull m).
Proof. unfold get_or. by destruct (obj_get key m). Qed.

(** The request once [json.loads] has given an object: what
    [_handle_request] does with its fields. *)
Lemma handle_request_object data text fields response_addr now t :
  Codec.decode_utf8 data = Some text ->
  Codec.loads text = Some (JObj fields) ->
  _handle_request data response_addr now t =
  try_except
    (let command := get_or "command" JNull fields in
     let peer_id := get_or "peer_id" JNull fields in
     if negb (truthy command) || negb (truthy peer_id) then mret tt
     else
       h ← handlers_get command;
       match h with
       | Some handle =>
           handle fields response_addr (ip response_addr) (get_or "port" JNull fields) now
       | None =>
           _send_error_response response_addr "UNKNOWN_COMMAND" "Comando não reconhecido."
       end)
    (fun e =>
       match e with
       | JSONDecodeError => mret tt
       | _ => _send_error_response response_addr "PROCESSING_ERROR" "Erro interno no tracker."
       end) t.
Proof.
  intros Hd Hl. unfold _handle_request, try_except, decode, json_loads.
  rewrite Hd. unfold mbind at 1, M_bind at 1. unfold mret at 1, M_ret at 1.
  rewrite Hl. reflexivity.
Qed.

(** ** Sample datagrams *)

Definition client : sockaddr := {| ip := "10.0.0.7"; udp_port := 40000 |}.

Definition field (name value : string) : string :=
  CodecFacts.quoted name +:+ ": " +:+ value.
Definition str_field (name value : string) : string :=
  field name (CodecFacts.quoted value).

(** REGISTER of peer-1 without a port. *)
Definition register_without_port : bytes :=
  "{" +:+ str_field "command" "REGISTER" +:+ ", " +:+ str_field "peer_id" "peer-1" +:+ "}".

(** REGISTER of peer-1 with its TCP port. *)
Definition register_with_port : bytes :=
  "{" +:+ str_field "command" "REGISTER" +:+ ", " +:+ str_field "peer_id" "peer-1"
      +:+ ", " +:+ field "port" "8000" +:+ "}".

(** HEARTBEAT of peer-1 with its TCP port. *)
Definition heartbeat_with_port : bytes :=
  "{" +:+ str_field "command" "HEARTBEAT" +:+ ", " +:+ str_field "peer_id" "peer-1"
      +:+ ", " +:+ field "port" "8000" +:+ "}".

(** UPDATE of peer-1, as [send_update_to_tracker] builds it: no port. *)
Definition update_without_port : bytes :=
  "{" +:+ str_field "command" "UPDATE" +:+ ", " +:+ str_field "peer_id" "peer-1"
      +:+ ", " +:+ field "files" ("{" +:+ field "x.bin" "[0, 1, 2]" +:+ "}") +:+ "}".



(** [b'COMPRESSED:' + zlib.compress(json_data, level=6)] for the 1362 bytes
    of an UPDATE of peer-1 that lists six files with names of 200 letters. *)
Definition compressed_update : bytes :=
  "COMPRESSED:" +:+
  string_of_list_ascii (List.map ascii_of_N
    [
     120; 156; 171; 86; 74; 206; 207; 205; 77; 204; 75; 81; 178; 82; 80; 10;
     13; 112; 113; 12; 113; 85; 210; 81; 80; 42; 72; 77; 45; 138; 207; 4;
     11; 130; 152; 186; 134; 32; 193; 180; 204; 156; 212; 98; 160; 80; 181; 82;
     226; 48; 1; 6; 122; 73; 153; 121; 64; 31; 69; 27; 196; 2; 253; 55;
     208; 174; 161; 22; 48; 28; 150; 190; 50; 26; 150; 190; 50; 30; 150; 190;
     50; 25; 150; 190; 50; 69; 248; 170; 22; 232; 173; 146; 204; 220; 212; 226;
     146; 196; 220; 2; 160; 144; 161; 185; 1; 20; 212; 2; 0; 26; 53; 242;
     32 ]%N).

(** ** REGISTER *)

(** REGISTER with a port, from a tracker whose lock is free: the record is
    created or replaced and the list of the other peers is sent. *)
Lemma register_with_port_inserts data text fields response_addr now t :
  Codec.decode_utf8 data = Some text ->
  Codec.loads text = Some (JObj fields) ->
  get_or "command" JNull fields = JStr "REGISTER" ->
  truthy (get_or "peer_id" JNull fields) = true ->
  hashable (get_or "peer_id" JNull fields) = true ->
  truthy (get_or "port" JNull fields) = true ->
  peers_lock t = false ->
  let peer_id := get_or "peer_id" JNull fields in
  let table :=
    PyDict.set peer_id
      {| files := JObj []; last_seen := now;
         addr := (ip response_addr, get_or "port" JNull fields) |} (peers t) in
  _handle_request data response_addr now t
  = Returned tt
      {| peers := table; peers_lock := false;
         sent := sent t ++ [(peers_list_for peer_id table, response_addr)] |}.
Proof.
  intros Hd Hl Hc Hp Hh Hport Hfree. cbv zeta.
  rewrite (handle_request_object _ _ _ _ _ _ Hd Hl). cbv zeta.
  rewrite Hc, Hp. cbn [truthy negb orb String.eqb].
  run_handler. cbn [hashable]. rewrite handlers_register. run_handler.
  repeat (progress (rewrite ?(obj_get_truthy _ _ Hp), ?Hfree, ?Hh, ?Hport; run_handler)).
  reflexivity.
Qed.

(** C10: a REGISTER request whose payload has no truthy [port] is ignored:
    the tracker returns with its table, its lock and the datagrams it has sent
    unchanged, so no reply of any kind goes out. *)
Theorem register_without_port_is_ignored data text fields response_addr now t :
  Codec.decode_utf8 data = Some text ->
  Codec.loads text = Some (JObj fields) ->
  get_or "command" JNull fields = JStr "REGISTER" ->
  truthy (get_or "peer_id" JNull fields) = true ->
  truthy (get_or "port" JNull fields) = false ->
  _handle_request data response_addr now t = Returned tt t.
Proof.
  intros Hd Hl Hc Hp Hport.
  rewrite (handle_request_object _ _ _ _ _ _ Hd Hl). cbv zeta.
  rewrite Hc, Hp. cbn [truthy negb orb String.eqb].
  unfold try_except, handlers_get. cbn [hashable].
  erewrite bind_returned by reflexivity. rewrite handlers_register.
  unfold _handle_register, getitem. rewrite (obj_get_truthy _ _ Hp).
  erewrite bind_returned by reflexivity. by rewrite Hport.
Qed.

Lemma register_without_port_witness :
  _handle_request register_without_port client 100 (idle []) = Returned tt (idle []).
Proof.
  eapply register_without_port_is_ignored;
    [vm_compute; reflexivity | vm_compute; reflexivity | reflexivity..].
Defined.

(** ** HEARTBEAT *)

(** C3: a HEARTBEAT of a peer the table does not have, with a port: the
    handler takes [peers_lock] and calls [_handle_register], which takes the
    same lock again; the thread blocks there for ever.  No record is inserted,
    no reply is sent and the lock stays held. *)
Theorem heartbeat_unknown_peer_with_port_blocks
    data text fields response_addr now t :
  Codec.decode_utf8 data = Some text ->
  Codec.loads text = Some (JObj fields) ->
  get_or "command" JNull fields = JStr "HEARTBEAT" ->
  truthy (get_or "peer_id" JNull fields) = true ->
  hashable (get_or "peer_id" JNull fields) = true ->
  PyDict.contains (get_or "peer_id" JNull fields) (peers t) = false ->
  truthy (get_or "port" JNull fields) = true ->
  peers_lock t = false ->
  _handle_request data response_addr now t
  = Blocked {| peers := peers t; peers_lock := true; sent := sent t |}.
Proof.
  intros Hd Hl Hc Hp Hh Hnew Hport Hfree.
  rewrite (handle_request_object _ _ _ _ _ _ Hd Hl). cbv zeta.
  rewrite Hc, Hp. cbn [truthy negb orb String.eqb].
  run_handler. cbn [hashable]. rewrite handlers_heartbeat. run_handler.
  repeat (progress (rewrite ?(obj_get_truthy _ _ Hp), ?Hfree, ?Hh, ?Hnew, ?Hport; run_handler)).
  reflexivity.
Qed.

Lemma heartbeat_blocks_witness :
  _handle_request heartbeat_with_port client 100 (idle [])
  = Blocked {| peers := []; peers_lock := true; sent := [] |}.
Proof.
  eapply (heartbeat_unknown_peer_with_port_blocks _ _ _ client 100 (idle []));
    [vm_compute; reflexivity | vm_compute; reflexivity | reflexivity..].
Defined.

(** The REGISTER the HEARTBEAT was meant to act as does insert the record. *)
Example register_of_the_same_peer :
  _handle_request register_with_port client 100 (idle [])
  = Returned tt
      {| peers := [(JStr "peer-1",
                    {| files := JObj []; last_seen := 100;
                       addr := ("10.0.0.7", JInt 8000) |})];
         peers_lock := false;
         sent := [(PeersList [], client)] |}.
Proof. vm_compute. reflexivity. Qed.

(** Once a handler is blocked on the lock the table is closed to every
    later request that needs it. *)
Example register_after_blocked_heartbeat :
  _handle_request register_with_port client 101
    {| peers := []; peers_lock := true; sent := [] |}
  = Blocked {| peers := []; peers_lock := true; sent := [] |}.
Proof. vm_compute. reflexivity. Qed.

(** ** UPDATE *)

(** C5: an UPDATE of a peer the table does not have and without [port]:
    the record is inserted all the same, with the address text made from
    [None]; the reply is the list of the other peers. *)
Theorem update_from_unknown_peer_inserts_without_port
    data text fields response_addr now t :
  Codec.decode_utf8 data = Some text ->
  Codec.loads text = Some (JObj fields) ->
  get_or "command" JNull fields = JStr "UPDATE" ->
  truthy (get_or "peer_id" JNull fields) = true ->
  hashable (get_or "peer_id" JNull fields) = true ->
  PyDict.contains (get_or "peer_id" JNull fields) (peers t) = false ->
  obj_get "port" fields = None ->
  peers_lock t = false ->
  let peer_id := get_or "peer_id" JNull fields in
  let record := {| files := get_or "files" (JObj []) fields;
                   last_seen := now;
                   addr := (ip response_addr, JNull) |} in
  let table := peers t ++ [(peer_id, record)] in
  _handle_request data response_addr now t
  = Returned tt
      {| peers := table; peers_lock := false;
         sent := sent t ++ [(peers_list_for peer_id table, response_addr)] |}
  /\ addr_text (addr record) = Some (ip response_addr +:+ ":None").
Proof.
  intros Hd Hl Hc Hp Hh Hnew Hport Hfree. cbv zeta. split; [|reflexivity].
  rewrite (handle_request_object _ _ _ _ _ _ Hd Hl). cbv zeta.
  rewrite Hc, Hp. cbn [truthy negb orb String.eqb].
  run_handler. cbn [hashable]. rewrite handlers_update. run_handler.
  assert (get_or "port" JNull fields = JNull) as Hnull by (unfold get_or; by rewrite Hport).
  repeat (progress (rewrite ?(obj_get_truthy _ _ Hp), ?Hfree, ?Hh, ?Hnew, ?Hnull; run_handler)).
  by rewrite set_new.
Qed.

Lemma update_without_port_witness :
  let record := {| files := JObj [("x.bin", JArr [JInt 0; JInt 1; JInt 2])];
                   last_seen := 100; addr := ("10.0.0.7", JNull) |} in
  _handle_request update_without_port client 100 (idle [])
  = Returned tt
      {| peers := [(JStr "peer-1", record)]; peers_lock := false;
         sent := [(PeersList [], client)] |}
  /\ addr_text (addr record) = Some "10.0.0.7:None".
Proof.
  exact (update_from_unknown_peer_inserts_without_port
           update_without_port update_without_port
           [("command", JStr "UPDATE"); ("peer_id", JStr "peer-1");
            ("files", JObj [("x.bin", JArr [JInt 0; JInt 1; JInt 2])])]
           client 100 (idle [])
           eq_refl eq_refl eq_refl eq_refl eq_refl eq_refl eq_refl eq_refl).
Defined.

(** An UPDATE of a peer that is in the table overwrites its [files] and
    sets [last_seen], whatever [port] is; the address is kept. *)
Lemma update_from_known_peer_overwrites_files
    data text fields response_addr now t info :
  Codec.decode_utf8 data = Some text ->
  Codec.loads text = Some (JObj fields) ->
  get_or "command" JNull fields = JStr "UPDATE" ->
  truthy (get_or "peer_id" JNull fields) = true ->
  hashable (get_or "peer_id" JNull fields) = true ->
  PyDict.get (get_or "peer_id" JNull fields) (peers t) = Some info ->
  peers_lock t = false ->
  let peer_id := get_or "peer_id" JNull fields in
  let record := {| files := get_or "files" (JObj []) fields;
                   last_seen := now;
                   addr := addr info |} in
  exists t',
    _handle_request data response_addr now t = Returned tt t' /\
    peers t' = PyDict.set peer_id record (peers t) /\
    PyDict.get peer_id (peers t') = Some record /\
    peers_lock t' = false.
Proof.
  intros Hd Hl Hc Hp Hh Hget Hfree. cbv zeta.
  rewrite (handle_request_object _ _ _ _ _ _ Hd Hl). cbv zeta.
  rewrite Hc, Hp. cbn [truthy negb orb String.eqb].
  run_handler. cbn [hashable]. rewrite handlers_update. run_handler.
  pose proof (contains_of_get _ _ _ Hget) as Hin.
  repeat (progress (rewrite ?(obj_get_truthy _ _ Hp), ?Hfree, ?Hh, ?Hin, ?Hget; run_handler)).
  erewrite get_set_same by exact Hget. run_handler. cbn [files last_seen addr].
  erewrite set_set_same by exact Hget.
  destruct (py_len (get_or "files" (JObj []) fields)); run_handler;
    (eexists; split; [reflexivity|]); cbn [peers peers_lock];
    (split; [done|split; [|done]]); by eapply get_set_same.
Qed.

(** ** Requests that are not well formed *)

(** [data.decode('utf-8')] raises UnicodeDecodeError, which the generic
    [except Exception] clause answers. *)
Lemma undecodable_datagram data response_addr now t :
  Codec.decode_utf8 data = None ->
  _handle_request data response_addr now t
  = Returned tt (with_reply processing_error response_addr t).
Proof.
  intros Hd. unfold _handle_request, decode. rewrite Hd. reflexivity.
Qed.

(** [json.loads] raises JSONDecodeError, which has a clause of its own that
    only logs. *)
Lemma non_json_text data text response_addr now t :
  Codec.decode_utf8 data = Some text -> Codec.loads text = None ->
  _handle_request data response_addr now t = Returned tt t.
Proof.
  intros Hd Hl. unfold _handle_request, decode, json_loads. rewrite Hd.
  run_handler. by rewrite Hl.
Qed.




(** ** Compressed requests *)

Lemma loads_rejects_C rest : Codec.loads (String "C" rest) = None.
Proof.
  unfold Codec.loads. cbn [Codec.skip_ws].
  change (Codec.is_ws "C") with false. cbv iota.
  rewrite Nat.add_1_r. reflexivity.
Qed.

(** C1: the tracker has no branch on the prefix [COMPRESSED:].  A datagram
    that begins with it is never decompressed nor taken as a request: it is
    either dropped without a reply (its bytes are text, which is no JSON) or
    answered with PROCESSING_ERROR (its bytes are no UTF-8 text); the table
    stays as it was. *)
Theorem compressed_request_is_not_decompressed rest response_addr now t :
  _handle_request ("COMPRESSED:" +:+ rest) response_addr now t = Returned tt t \/
  _handle_request ("COMPRESSED:" +:+ rest) response_addr now t
  = Returned tt (with_reply processing_error response_addr t).
Proof.
  destruct (Codec.decode_utf8 ("COMPRESSED:" +:+ rest)) as [text|] eqn:Hd.
  - left. apply (non_json_text _ text); [exact Hd|].
    unfold Codec.decode_utf8 in Hd.
    destruct (Codec.utf8_valid _); [|done]. injection Hd as <-.
    apply loads_rejects_C.
  - right. by apply undecodable_datagram.
Qed.

(** A zlib stream of level 6 begins with the bytes 120 and 156, and 156
    begins no UTF-8 character: every request the peer compresses is answered
    with PROCESSING_ERROR. *)
Lemma zlib_stream_is_refused rest response_addr now t :
  let stream := String (ascii_of_N 120) (String (ascii_of_N 156) rest) in
  _handle_request ("COMPRESSED:" +:+ stream) response_addr now t
  = Returned tt (with_reply processing_error response_addr t).
Proof.
  cbv zeta. by apply undecodable_datagram.
Qed.

(** What the peer sends for a serialized payload of more than 1024 bytes. *)
Lemma udp_message_compressed zlib_compress json_data message :
  NetworkManager.COMPRESSION_THRESHOLD < Z.of_nat (String.length json_data) ->
  NetworkManager.udp_message zlib_compress json_data = Some message ->
  message = "COMPRESSED:" +:+ zlib_compress json_data.
Proof.
  intros Hlong. unfold NetworkManager.udp_message, NetworkManager._compress_if_needed.
  apply Z.ltb_lt in Hlong. rewrite Hlong.
  destruct (NetworkManager.MAX_PAYLOAD_SIZE <? _); [discriminate|]. by intros [= <-].
Qed.

(** The UPDATE of peer-1, compressed by the peer: the tracker leaves its
    table alone and answers with an error. *)
Example compressed_update_is_refused :
  _handle_request compressed_update client 100 (idle [])
  = Returned tt (with_reply processing_error client (idle [])).
Proof. vm_compute. reflexivity. Qed.

(** ** The reaper *)

Lemma peers_delitem_returned k t d :
  hashable k = true -> PyDict.del k (peers t) = Some d ->
  peers_delitem k t = Returned tt (with_peers d t).
Proof.
  intros Hk Hd. unfold peers_delitem. rewrite Hk.
  erewrite bind_returned by reflexivity. by rewrite Hd.
Qed.

Lemma for_each_delitem ks : forall t d',
  Forall (fun k => hashable k = true) ks ->
  del_all ks (peers t) = Some d' ->
  for_each ks peers_delitem t = Returned tt (with_peers d' t).
Proof.
  induction ks as [|k ks IH]; intros t d' Hh Hdel; simpl in *.
  - injection Hdel as <-. by destruct t.
  - apply Forall_cons in Hh as [Hk Hh].
    destruct (PyDict.del k (peers t)) as [d1|] eqn:E; [|done].
    erewrite bind_returned by (by apply peers_delitem_returned).
    by rewrite (IH (with_peers d1 t) d').
Qed.

Lemma timeout_threshold_val : inject_Z timeout_threshold = 120%Q.
Proof. reflexivity. Qed.

Lemma timed_out_false now info :
  timed_out now info = false <-> (now - last_seen info <= 120)%Q.
Proof.
  unfold timed_out. rewrite timeout_threshold_val, negb_false_iff. apply Qle_bool_iff.
Qed.

Lemma timed_out_true now info :
  timed_out now info = true <-> (120 < now - last_seen info)%Q.
Proof.
  unfold timed_out. rewrite timeout_threshold_val, negb_true_iff.
  rewrite <- not_true_iff_false, Qle_bool_iff. split.
  - apply Qnot_le_lt.
  - apply Qlt_not_le.
Qed.


(** C9: one pass of the reaper over a table whose keys are pairwise
    different and not NaN, with the lock free: it returns, the table it leaves
    is the old one without the records that have [now - last_seen > 120], in
    the same order and with every field as it was; so every record left has
    [now - last_seen <= 120], and the ids it removed are those of the records
    with [now - last_seen > 120]. *)
Theorem reaper_pass_evicts_exactly_timed_out (now : Q) (t : tracker) :
  PyDict.wf (peers t) ->
  peers_lock t = false ->
  exists removed t',
    _remove_timeout_peers_pass now t = Returned removed t' /\
    peers t' = List.filter (fun '(_, info) => negb (timed_out now info)) (peers t) /\
    peers_lock t' = false /\ sent t' = sent t /\
    (forall k info, In (k, info) (peers t') <->
                    In (k, info) (peers t) /\ (now - last_seen info <= 120)%Q) /\
    (forall k info, In (k, info) (peers t) ->
                    (In k removed <-> (120 < now - last_seen info)%Q)).
Proof.
  intros Hwf Hfree.
  set (P := fun '((_, info) : json * PeerInfo) => timed_out now info).
  set (removed := List.map fst (List.filter P (peers t))).
  set (kept := List.filter (fun '(_, info) => negb (timed_out now info)) (peers t)).
  exists removed, {| peers := kept; peers_lock := false; sent := sent t |}.
  split; [|split; [done|split; [done|split; [done|split]]]].
  - unfold _remove_timeout_peers_pass, with_lock, acquire, release, try_except.
    unfold mbind, M_bind, mret, M_ret, get_peers. rewrite Hfree. cbn.
    fold P. fold removed.
    erewrite for_each_delitem; [done| |].
    + apply Forall_forall. intros k Hk. apply list_elem_of_In in Hk.
      apply in_map_iff in Hk as ([k0 i0] & <- & Hin). apply filter_In in Hin as [Hin _].
      apply key_of_hashable. destruct Hwf as [_ Hall].
      rewrite Forall_forall in Hall. apply (Hall (k0, i0)). by apply list_elem_of_In.
    + cbn. apply (del_all_filter (fun i => timed_out now i)). done.
  - intros k info. cbn. unfold kept. rewrite filter_In, negb_true_iff, timed_out_false. tauto.
  - intros k info Hin. rewrite <- timed_out_true. unfold removed. split.
    + intros Hk. apply in_map_iff in Hk as ([k0 i0] & Heq & Hin0). simpl in Heq. subst k0.
      apply filter_In in Hin0 as [Hin0 HP]. simpl in HP.
      by rewrite <- (wf_In_inj _ _ _ _ Hwf Hin0 Hin).
    + intros HP. apply in_map_iff. exists (k, info). split; [done|]. apply filter_In. done.
Qed.


Definition two_peers : list (json * PeerInfo) :=
  [ (JStr "peer-1", {| files := JObj []; last_seen := 10; addr := ("10.0.0.7", JInt 8000) |});
    (JStr "peer-2", {| files := JObj []; last_seen := 150; addr := ("10.0.0.8", JInt 8001) |}) ].

Lemma two_peers_wf : PyDict.wf two_peers.
Proof.
  split.
  - apply NoDup_cons. split; [|apply NoDup_singleton].
    intros [=]%list_elem_of_singleton.
  - repeat constructor; discriminate.
Defined.

Lemma reaper_pass_witness :
  exists removed t',
    _remove_timeout_peers_pass 200 (idle two_peers) = Returned removed t' /\
    peers t' = List.filter (fun '(_, info) => negb (timed_out 200 info)) two_peers /\
    peers_lock t' = false /\ sent t' = [] /\
    (forall k info, In (k, info) (peers t') <->
                    In (k, info) two_peers /\ (200 - last_seen info <= 120)%Q) /\
    (forall k info, In (k, info) two_peers ->
                    (In k removed <-> (120 < 200 - last_seen info)%Q)).
Proof.
  exact (reaper_pass_evicts_exactly_timed_out 200 (idle two_peers) two_peers_wf eq_refl).
Defined.

Example reaper_pass_on_two_peers :
  _remove_timeout_peers_pass 200 (idle two_peers)
  = Returned [JStr "peer-1"]
      (idle [(JStr "peer-2",
              {| files := JObj []; last_seen := 150; addr := ("10.0.0.8", JInt 8001) |})]).
Proof. vm_compute. reflexivity. Qed.

(** The table stays well formed under the pass. *)
Lemma filter_wf {V} (P : json * V -> bool) d : PyDict.wf d -> PyDict.wf (List.filter P d).
Proof.
  induction d as [|[k v] d IH]; [done|]. intros (Hk & Hnotin & Hwf)%wf_cons.
  simpl. destruct (P (k, v)); [|by apply IH].
  apply wf_cons. split; [done|]. split; [|by apply IH].
  intros Hin. apply Hnotin. apply list_elem_of_In in Hin. apply list_elem_of_In.
  apply in_map_iff in Hin as (kv & Hkv & Hin). apply in_map_iff. exists kv.
  split; [done|]. by apply filter_In in Hin as [Hin _].
Qed.

End TrackerFacts.

(* ================================================================== *)
(** * Facts about the chunk store *)
(* ================================================================== *)

Module FileManagerFacts.
Import FileManager.

(** ** Reading a stream in chunks *)

Lemma string_app_cons c (a b : string) : String c a +:+ b = String c (a +:+ b).
Proof. reflexivity. Qed.

Lemma string_app_nil_l (s : string) : "" +:+ s = s.
Proof. reflexivity. Qed.

Lemma string_app_nil_r (s : string) : s +:+ "" = s.
Proof. induction s as [|c s IH]; [done|]. by rewrite string_app_cons, IH. Qed.

Lemma string_app_assoc (a b c : string) : (a +:+ b) +:+ c = a +:+ (b +:+ c).
Proof. induction a as [|x a IH]; [done|]. by rewrite !string_app_cons, IH. Qed.

Lemma string_app_length (a b : string) :
  String.length (a +:+ b) = (String.length a + String.length b)%nat.
Proof. induction a as [|x a IH]; [done|]. rewrite string_app_cons. simpl. by rewrite IH. Qed.

Lemma string_app_inv_tail (a b c : string) : a +:+ c = b +:+ c -> a = b.
Proof.
  revert b. induction a as [|x a IH]; intros [|y b] H.
  - done.
  - apply (f_equal String.length) in H.
    rewrite string_app_nil_l, string_app_length in H. simpl in H. lia.
  - apply (f_equal String.length) in H.
    rewrite string_app_nil_l, string_app_length in H. simpl in H. lia.
  - rewrite !string_app_cons in H. injection H as -> H. f_equal. by apply IH.
Qed.

Lemma read_app n s data rest : read n s = (data, rest) -> data +:+ rest = s.
Proof.
  revert n data rest. induction s as [|c s IH]; intros n data rest; simpl.
  - by intros [= <- <-].
  - destruct (n =? 0)%N; [by intros [= <- <-]|].
    destruct (read (n - 1) s) as [d r] eqn:E. intros [= <- <-].
    rewrite string_app_cons. f_equal. by eapply IH.
Qed.

Lemma read_length n s data rest :
  read n s = (data, rest) ->
  String.length data = Nat.min (N.to_nat n) (String.length s).
Proof.
  revert n data rest. induction s as [|c s IH]; intros n data rest; simpl.
  - intros [= <- <-]. simpl. lia.
  - destruct (N.eqb_spec n 0) as [->|Hn]; [intros [= <- <-]; simpl; lia|].
    destruct (read (n - 1) s) as [d r] eqn:E. intros [= <- <-].
    simpl. rewrite (IH _ _ _ E). lia.
Qed.

Lemma CHUNK_SIZE_pos : 0 < Z.of_N CHUNK_SIZE.
Proof. reflexivity. Qed.

#[local] Opaque CHUNK_SIZE.

(** [concat] of a list of [bytes]. *)
Definition join (chunks : list bytes) : bytes :=
  List.fold_right (fun c acc => c +:+ acc) "" chunks.

Lemma read_chunks_length count s : List.length (read_chunks count s) = count.
Proof.
  revert s. induction count as [|count IH]; intros s; simpl; [done|].
  destruct (read CHUNK_SIZE s) as [d r]. simpl. by rewrite IH.
Qed.

Lemma join_read_chunks count s :
  Z.of_nat (String.length s) <= Z.of_nat count * Z.of_N CHUNK_SIZE ->
  join (read_chunks count s) = s.
Proof.
  revert s. induction count as [|count IH]; intros s Hlen; simpl.
  - destruct s; [done|]. simpl in Hlen. lia.
  - destruct (read CHUNK_SIZE s) as [d r] eqn:E. simpl.
    pose proof (read_app _ _ _ _ E) as Happ.
    pose proof (read_length _ _ _ _ E) as Hd.
    rewrite IH; [done|].
    assert (String.length s = (String.length d + String.length r)%nat) as Hs
      by (by rewrite <- Happ, string_app_length).
    lia.
Qed.

Lemma total_chunks_covers (len : Z) :
  0 <= len -> len <= total_chunks_of len * Z.of_N CHUNK_SIZE.
Proof.
  intros Hlen. unfold total_chunks_of.
  pose proof CHUNK_SIZE_pos as Hpos.
  pose proof (Z.mul_div_le (len + Z.of_N CHUNK_SIZE - 1) (Z.of_N CHUNK_SIZE) Hpos).
  pose proof (Z.mod_pos_bound (len + Z.of_N CHUNK_SIZE - 1) (Z.of_N CHUNK_SIZE) Hpos).
  pose proof (Z.div_mod (len + Z.of_N CHUNK_SIZE - 1) (Z.of_N CHUNK_SIZE)).
  lia.
Qed.

Lemma total_chunks_nonneg (len : Z) : 0 <= len -> 0 <= total_chunks_of len.
Proof.
  intros. unfold total_chunks_of. apply Z.div_pos; pose proof CHUNK_SIZE_pos; lia.
Qed.




(** ** Chunk files *)

Lemma chunk_path_inj file_name i j :
  chunk_path file_name i = chunk_path file_name j -> i = j.
Proof.
  unfold chunk_path. intros [= H].
  apply (inj (String.append _)) in H. apply (inj (String.append _)) in H.
  apply string_app_inv_tail in H. by apply (inj pretty).
Qed.

Lemma load_save_chunk_eq file_name i data fm :
  load_chunk file_name i (save_chunk file_name i data fm) = Some data.
Proof. unfold load_chunk, save_chunk. simpl. apply lookup_insert_eq. Qed.

Lemma load_save_chunk_ne file_name i j data fm :
  i <> j ->
  load_chunk file_name j (save_chunk file_name i data fm) = load_chunk file_name j fm.
Proof.
  intros Hij. unfold load_chunk, save_chunk. simpl. apply lookup_insert_ne.
  intros H. by apply chunk_path_inj in H.
Qed.

Lemma metadata_save_chunk file_name i data fm :
  local_files_metadata (save_chunk file_name i data fm) = local_files_metadata fm.
Proof. reflexivity. Qed.

Lemma metadata_save_chunks file_name count : forall i stream fm,
  local_files_metadata (save_chunks file_name i count stream fm) = local_files_metadata fm.
Proof.
  induction count as [|count IH]; intros i stream fm; simpl; [done|].
  destruct (read CHUNK_SIZE stream) as [d r]. by rewrite IH.
Qed.

Lemma shared_save_chunks file_name count : forall i stream fm name,
  disk (save_chunks file_name i count stream fm) !! (Shared, name) = disk fm !! (Shared, name).
Proof.
  induction count as [|count IH]; intros i stream fm name; simpl; [done|].
  destruct (read CHUNK_SIZE stream) as [d r]. rewrite IH. simpl.
  by apply lookup_insert_ne.
Qed.

Lemma load_save_chunks_before file_name count : forall i stream fm j,
  j < i ->
  load_chunk file_name j (save_chunks file_name i count stream fm) = load_chunk file_name j fm.
Proof.
  induction count as [|count IH]; intros i stream fm j Hj; simpl; [done|].
  destruct (read CHUNK_SIZE stream) as [d r].
  rewrite IH by lia. apply load_save_chunk_ne. lia.
Qed.

Lemma load_save_chunks file_name count : forall i stream fm (k : nat) chunk,
  read_chunks count stream !! k = Some chunk ->
  load_chunk file_name (i + Z.of_nat k) (save_chunks file_name i count stream fm) = Some chunk.
Proof.
  induction count as [|count IH]; intros i stream fm k chunk; simpl; [done|].
  destruct (read CHUNK_SIZE stream) as [d r]. destruct k as [|k]; simpl.
  - intros [= <-]. rewrite Z.add_0_r, load_save_chunks_before by lia.
    apply load_save_chunk_eq.
  - intros Hk. replace (i + Z.of_nat (S k)) with ((i + 1) + Z.of_nat k) by lia.
    exact (IH (i + 1) r _ k chunk Hk).
Qed.

(** The loop of [reconstruct_file] over chunks that are all there. *)
Lemma write_chunks_all file_name fm chunks : forall i written,
  (forall (k : nat) chunk, chunks !! k = Some chunk ->
                           load_chunk file_name (i + Z.of_nat k) fm = Some chunk) ->
  write_chunks file_name i (List.length chunks) fm written = Some (written +:+ join chunks).
Proof.
  induction chunks as [|c chunks IH]; intros i written Hload; simpl.
  - by rewrite string_app_nil_r.
  - pose proof (Hload 0%nat c eq_refl) as H0. rewrite Z.add_0_r in H0. rewrite H0.
    rewrite IH, string_app_assoc; [done|].
    intros k chunk Hk. replace (i + 1 + Z.of_nat k) with (i + Z.of_nat (S k)) by lia.
    by apply Hload.
Qed.

(** ** The digest is made of hexadecimal digits *)

Definition no_percent (s : string) : Prop :=
  Forall (fun c => Codec.byte_in 37 37 c = false) (list_ascii_of_string s).

Lemma no_percent_cons c s :
  no_percent (String c s) <-> Codec.byte_in 37 37 c = false /\ no_percent s.
Proof. unfold no_percent. simpl. by rewrite Forall_cons. Qed.

Lemma no_percent_app a b : no_percent a -> no_percent b -> no_percent (a +:+ b).
Proof.
  induction a as [|c a IH]; [done|]. rewrite string_app_cons, !no_percent_cons.
  intros [Hc Ha] Hb. auto.
Qed.

Lemma drop_percent_pairs_id s : no_percent s -> drop_percent_pairs s = s.
Proof.
  induction s as [|a s IH]; [done|]. intros [Ha Hs]%no_percent_cons.
  destruct s as [|b r]; [done|].
  change (drop_percent_pairs (String a (String b r)))
    with (if Codec.byte_in 37 37 a && Codec.byte_in 37 37 b then drop_percent_pairs r
          else String a (drop_percent_pairs (String b r))).
  rewrite Ha. cbn [andb]. by rewrite (IH Hs).
Qed.

Lemma stray_percent_none fuel s : no_percent s -> stray_percent fuel s = false.
Proof.
  revert s. induction fuel as [|fuel IH]; intros s Hs; [done|].
  destruct s as [|c s]; [done|]. apply no_percent_cons in Hs as [Hc Hs].
  simpl. rewrite Hc. by apply IH.
Qed.

Lemma interpolation_ok_no_percent s : no_percent s -> interpolation_ok s = true.
Proof.
  intros Hs. unfold interpolation_ok. rewrite (drop_percent_pairs_id _ Hs).
  by rewrite stray_percent_none.
Qed.

Lemma hex_digit_no_percent n : (n < 16)%N -> Codec.byte_in 37 37 (SHA256.hex_digit n) = false.
Proof.
  intros Hn.
  assert (n ∈ List.map N.of_nat (seq 0 16)) as Hin.
  { apply list_elem_of_In, in_map_iff. exists (N.to_nat n). split; [lia|].
    apply in_seq. lia. }
  simpl in Hin. set_unfold in Hin.
  repeat (destruct Hin as [->|Hin]; [reflexivity|]). done.
Qed.

Lemma hex_word_no_percent w : no_percent (SHA256.hex_word w).
Proof.
  unfold SHA256.hex_word, no_percent. rewrite list_ascii_of_string_of_list_ascii.
  apply Forall_forall. intros c Hc. apply list_elem_of_In, in_map_iff in Hc as (i & <- & _).
  apply hex_digit_no_percent. apply N.mod_lt. done.
Qed.

Lemma hexdigest_no_percent data : no_percent (SHA256.hexdigest data).
Proof.
  unfold SHA256.hexdigest. induction (SHA256.digest _) as [|w ws IH]; simpl.
  - constructor.
  - apply no_percent_app; [apply hex_word_no_percent|done].
Qed.


(** ** [process_new_file] *)

Lemma length_zero_iff (s : string) : (Z.of_nat (String.length s) =? 0) = true <-> s = "".
Proof.
  rewrite Z.eqb_eq. destruct s; simpl; split; (done || lia).
Qed.

(** What [process_new_file] leaves for a file that is there and not empty. *)
Lemma process_new_file_unfold file_name now fm content :
  disk fm !! (Shared, file_name) = Some content ->
  content <> "" ->
  interpolation_ok file_name = true ->
  let file_size := Z.of_nat (String.length content) in
  let metadata :=
    {| fileName := file_name; fileSize := file_size;
       fileHash := SHA256.hexdigest content;
       totalChunks := total_chunks_of file_size;
       createdAt := Qfloor (now * 1000) |} in
  process_new_file file_name now fm
  = save_chunks file_name 0 (Z.to_nat (total_chunks_of file_size)) content
      {| local_files_metadata := <[file_name := metadata]> (local_files_metadata fm);
         available_chunks := <[file_name := ∅]> (available_chunks fm);
         disk := <[(Metadata, _safe_filename file_name +:+ METADATA_EXTENSION)
                   := meta_text metadata]> (disk fm) |}.
Proof.
  intros Hfile Hne Hok. cbv zeta. unfold process_new_file. rewrite Hfile.
  destruct (Z.of_nat (String.length content) =? 0) eqn:E.
  { apply length_zero_iff in E. done. }
  unfold _save_metadata, get_file_metadata. cbn [local_files_metadata].
  rewrite lookup_insert_eq. cbn [fileName fileHash]. rewrite Hok.
  rewrite (interpolation_ok_no_percent _ (hexdigest_no_percent content)).
  reflexivity.
Qed.


(** ** The invariant between the two dictionaries *)

(** Every key of [available_chunks] is a key of [local_files_metadata]. *)
Definition chunks_have_metadata (fm : file_manager) : Prop :=
  forall file_name,
    is_Some (available_chunks fm !! file_name) ->
    is_Some (local_files_metadata fm !! file_name).

Lemma save_chunk_keeps_invariant file_name chunk_index data fm :
  is_Some (local_files_metadata fm !! file_name) ->
  chunks_have_metadata fm ->
  chunks_have_metadata (save_chunk file_name chunk_index data fm).
Proof.
  intros Hmeta Hinv f. unfold save_chunk. cbn [available_chunks local_files_metadata].
  destruct (decide (f = file_name)) as [->|Hne]; [done|].
  rewrite lookup_insert_ne by done. apply Hinv.
Qed.

Lemma save_chunks_keeps_invariant file_name count : forall i stream fm,
  is_Some (local_files_metadata fm !! file_name) ->
  chunks_have_metadata fm ->
  chunks_have_metadata (save_chunks file_name i count stream fm).
Proof.
  induction count as [|count IH]; intros i stream fm Hmeta Hinv; simpl; [done|].
  destruct (read CHUNK_SIZE stream) as [d r].
  apply IH; [done|]. by apply save_chunk_keeps_invariant.
Qed.

Lemma process_new_file_keeps_invariant file_name now fm :
  chunks_have_metadata fm -> chunks_have_metadata (process_new_file file_name now fm).
Proof.
  intros Hinv. unfold process_new_file.
  destruct (disk fm !! (Shared, file_name)) as [content|]; [|done].
  destruct (Z.of_nat (String.length content) =? 0); [done|].
  set (metadata := Build_FileMetadata _ _ _ _ _).
  set (fm1 := Build_file_manager _ _ _).
  assert (chunks_have_metadata fm1) as Hinv1.
  { intros f. unfold fm1. cbn [available_chunks local_files_metadata].
    destruct (decide (f = file_name)) as [->|Hne].
    - intros _. rewrite lookup_insert_eq. by eexists.
    - rewrite !lookup_insert_ne by done. apply Hinv. }
  unfold _save_metadata, get_file_metadata. unfold fm1 at 1. cbn [local_files_metadata].
  rewrite lookup_insert_eq.
  destruct (interpolation_ok _ && interpolation_ok _); [|done].
  apply save_chunks_keeps_invariant; [|done].
  cbn. rewrite lookup_insert_eq. by eexists.
Qed.

Lemma reconstruct_file_maps file_name fm :
  local_files_metadata (snd (reconstruct_file file_name fm)) = local_files_metadata fm /\
  available_chunks (snd (reconstruct_file file_name fm)) = available_chunks fm.
Proof.
  unfold reconstruct_file.
  destruct (negb (has_complete_file file_name fm)); [done|].
  destruct (get_file_metadata file_name fm) as [meta|]; [|done].
  destruct (match disk fm !! (Shared, file_name) with Some _ => _ | None => _ end); [done|].
  destruct (with_suffix file_name ".part") as [temp|]; [|done].
  destruct (write_chunks _ _ _ _ _) as [content|]; [|done].
  by destruct (String.eqb _ _).
Qed.

(** C6, as amended: [save_chunk] for a file that has a metadata record,
    [process_new_file] and [reconstruct_file] keep the invariant that every key
    of [available_chunks] has a metadata record. *)
Theorem store_operations_keep_metadata_invariant (fm : file_manager) :
  chunks_have_metadata fm ->
  (forall file_name chunk_index data,
     is_Some (local_files_metadata fm !! file_name) ->
     chunks_have_metadata (save_chunk file_name chunk_index data fm)) /\
  (forall file_name now, chunks_have_metadata (process_new_file file_name now fm)) /\
  (forall file_name, chunks_have_metadata (snd (reconstruct_file file_name fm))).
Proof.
  intros Hinv. split; [|split].
  - intros. by apply save_chunk_keeps_invariant.
  - intros. by apply process_new_file_keeps_invariant.
  - intros file_name f. destruct (reconstruct_file_maps file_name fm) as [-> ->]. apply Hinv.
Qed.

Definition empty_manager : file_manager :=
  {| local_files_metadata := ∅; available_chunks := ∅; disk := ∅ |}.

(** C6, counterexample: [save_chunk] for a file without metadata, on a
    store that has nothing: the file becomes a key of [available_chunks] and
    has no metadata record. *)
Lemma save_chunk_without_metadata_breaks_invariant :
  chunks_have_metadata empty_manager /\
  ~ chunks_have_metadata (save_chunk "ghost.bin" 0 "x" empty_manager).
Proof.
  split.
  - intros f [x Hx]. simpl in Hx. by rewrite lookup_empty in Hx.
  - intros H. destruct (H "ghost.bin") as [m Hm].
    + simpl. rewrite lookup_insert_eq. by eexists.
    + simpl in Hm. by rewrite lookup_empty in Hm.
Qed.

(** ** [reconstruct_file] *)



(** ** Sample stores *)

(** A shared folder with the one file [f.bin], of one byte. *)
Definition fresh_store : file_manager :=
  {| local_files_metadata := ∅; available_chunks := ∅;
     disk := {[ (Shared, "f.bin") := "A" ]} |}.

(** The store after the file was ingested. *)
Definition ingested : file_manager := process_new_file "f.bin" 0 fresh_store.

Definition meta_A : FileMetadata :=
  {| fileName := "f.bin"; fileSize := 1; fileHash := SHA256.hexdigest "A";
     totalChunks := 1; createdAt := 0 |}.


(** The shared file was deleted afterwards. *)
Definition deleted : file_manager :=
  set_disk (delete (Shared, "f.bin") (disk ingested)) ingested.

Example ingested_metadata : get_file_metadata "f.bin" ingested = Some meta_A.
Proof. vm_compute. reflexivity. Qed.

Example ingested_chunk : load_chunk "f.bin" 0 ingested = Some "A".
Proof. vm_compute. reflexivity. Qed.



Example deleted_file_is_rebuilt :
  fst (reconstruct_file "f.bin" deleted) = true /\
  disk (snd (reconstruct_file "f.bin" deleted)) !! (Shared, "f.bin") = Some "A".
Proof. split; vm_compute; reflexivity. Qed.

Lemma fresh_store_invariant : chunks_have_metadata fresh_store.
Proof. intros f [x Hx]. simpl in Hx. by rewrite lookup_empty in Hx. Defined.

Lemma store_invariant_witness :
  (forall file_name chunk_index data,
     is_Some (local_files_metadata ingested !! file_name) ->
     chunks_have_metadata (save_chunk file_name chunk_index data ingested)) /\
  (forall file_name now, chunks_have_metadata (process_new_file file_name now ingested)) /\
  (forall file_name, chunks_have_metadata (snd (reconstruct_file file_name ingested))).
Proof.
  apply store_operations_keep_metadata_invariant.
  apply process_new_file_keeps_invariant. exact fresh_store_invariant.
Defined.

Example split_then_join_hello :
  read_chunks (Z.to_nat (total_chunks_of 5)) "hello" = ["hello"] /\
  total_chunks_of 2621440 = 3 /\
  total_chunks_of 0 = 0.
Proof. repeat split; vm_compute; reflexivity. Qed.

End FileManagerFacts.

(* ================================================================== *)
(** * Facts about the order of the downloads *)
(* ================================================================== *)

Module KeyFacts.

Lemma strip_twos_value p : forall e m e',
  strip_twos p e = (m, e') -> 0 <= e ->
  0 <= e' /\ Z.pos p * 2 ^ e = Z.pos m * 2 ^ e'.
Proof.
  induction p as [p IH|p IH|]; intros e m e' H He; simpl in H;
    try (injection H as <- <-; split; [lia|done]).
  apply IH in H as [He' H]; [|lia]. split; [done|].
  rewrite <- H, Z.pow_add_r by lia. rewrite Pos2Z.inj_xO. lia.
Qed.

Lemma key_of_Z_inj a b : key_of_Z a = key_of_Z b -> a = b.
Proof.
  assert (forall s p, exists m e, dyadic s p 0 = KNum (if s then Z.neg m else Z.pos m) e
                                  /\ 0 <= e /\ Z.pos p = Z.pos m * 2 ^ e) as Hd.
  { intros s p. unfold dyadic. destruct (strip_twos p 0) as [m e] eqn:E.
    apply strip_twos_value in E as [He E]; [|lia]. exists m, e.
    split; [done|]. split; [done|]. rewrite <- E. lia. }
  destruct a as [|p|p], b as [|q|q]; simpl; try done.
  - destruct (Hd false q) as (m & e & -> & _). done.
  - destruct (Hd true q) as (m & e & -> & _). done.
  - destruct (Hd false p) as (m & e & -> & _). done.
  - destruct (Hd false p) as (m & e & -> & _ & Hp), (Hd false q) as (m' & e' & -> & _ & Hq).
    intros [= <- <-]. f_equal. lia.
  - destruct (Hd false p) as (m & e & -> & _), (Hd true q) as (m' & e' & -> & _). done.
  - destruct (Hd true p) as (m & e & -> & _). done.
  - destruct (Hd true p) as (m & e & -> & _), (Hd false q) as (m' & e' & -> & _). done.
  - destruct (Hd true p) as (m & e & -> & _ & Hp), (Hd true q) as (m' & e' & -> & _ & Hq).
    intros [= <- <-]. f_equal. lia.
Qed.

Lemma py_eq_int_int a b : py_eq (JInt a) (JInt b) = true <-> a = b.
Proof.
  unfold py_eq. simpl. rewrite bool_decide_eq_true. split.
  - apply key_of_Z_inj.
  - by intros ->.
Qed.

(** Two ints that are equal to one value are the same int. *)
Lemma py_eq_int_unique a b x :
  py_eq (JInt a) x = true -> py_eq (JInt b) x = true -> a = b.
Proof.
  unfold py_eq. simpl. destruct (key_of x) as [k|]; [|done].
  rewrite !bool_decide_eq_true. intros Ha Hb. apply key_of_Z_inj. congruence.
Qed.

End KeyFacts.

Module SortedFacts.
Import DownloadManager.
Section sorted.
Context {A : Type} (key : A -> Z).

Lemma insert_by_perm x l : insert_by key x l ≡ₚ x :: l.
Proof.
  induction l as [|y l IH]; simpl; [done|].
  destruct (key x <=? key y); [done|].
  rewrite IH. apply Permutation_swap.
Qed.

Lemma sorted_perm l : sorted key l ≡ₚ l.
Proof.
  induction l as [|x l IH]; simpl; [done|].
  unfold sorted in *. simpl. by rewrite insert_by_perm, IH.
Qed.

Lemma insert_by_sorted x l :
  StronglySorted (fun a b => key a <= key b) l ->
  StronglySorted (fun a b => key a <= key b) (insert_by key x l).
Proof.
  induction 1 as [|y l Hl IH Hy]; simpl.
  - repeat constructor.
  - destruct (Z.leb_spec (key x) (key y)) as [Hxy|Hxy].
    + constructor; [by constructor|]. constructor; [done|].
      eapply Forall_impl; [exact Hy|]. simpl. intros. lia.
    + constructor; [done|].
      rewrite insert_by_perm.
      constructor; [lia|done].
Qed.

Lemma sorted_sorted l : StronglySorted (fun a b => key a <= key b) (sorted key l).
Proof.
  induction l as [|x l IH]; [constructor|]. by apply insert_by_sorted.
Qed.

(** Stability: the elements of one key value keep their order. *)
Lemma insert_by_stable s x l :
  List.filter (fun i => key i =? s) (insert_by key x l)
  = List.filter (fun i => key i =? s) (x :: l).
Proof.
  induction l as [|y l IH]; [done|]. simpl insert_by.
  destruct (Z.leb_spec (key x) (key y)) as [Hxy|Hxy]; [done|].
  simpl in *. rewrite IH.
  destruct (Z.eqb_spec (key y) s), (Z.eqb_spec (key x) s); try done. lia.
Qed.

Lemma sorted_stable s l :
  List.filter (fun i => key i =? s) (sorted key l) = List.filter (fun i => key i =? s) l.
Proof.
  induction l as [|x l IH]; [done|].
  change (sorted key (x :: l)) with (insert_by key x (sorted key l)).
  rewrite insert_by_stable. simpl. by rewrite IH.
Qed.

End sorted.

Lemma insert_by_ext {A} (key key' : A -> Z) x l :
  key x = key' x -> Forall (fun y => key y = key' y) l ->
  insert_by key x l = insert_by key' x l.
Proof.
  intros Hx. induction 1 as [|y l Hy Hl IH]; simpl; [done|].
  by rewrite Hx, Hy, IH.
Qed.

Lemma sorted_ext {A} (key key' : A -> Z) l :
  Forall (fun y => key y = key' y) l -> sorted key l = sorted key' l.
Proof.
  induction 1 as [|x l Hx Hl IH]; [done|].
  change (insert_by key x (sorted key l) = insert_by key' x (sorted key' l)).
  rewrite <- IH. apply insert_by_ext; [done|].
  by rewrite sorted_perm.
Qed.

End SortedFacts.

Module DownloadManagerFacts.
Import DownloadManager KeyFacts SortedFacts.

(** ** The score, in the words of the specification *)

(** The chunk list a peer advertises for the file; empty when the peer does
    not advertise the file. *)
Definition advertised (file_name : string) (peer_info : json) : list json :=
  match peer_info with
  | JObj info =>
      match get_or "files" (JObj []) info with
      | JObj peer_files =>
          match obj_get file_name peer_files with
          | Some (JArr l) => l
          | _ => []
          end
      | _ => []
      end
  | _ => []
  end.

Definition b2z (b : bool) : Z := if b then 1 else 0.

(** How many entries of a list are the chunk [idx]. *)
Definition occurrences (idx : Z) (l : list json) : Z :=
  List.fold_right (fun x n => b2z (py_eq (JInt idx) x) + n) 0 l.

(** The rarity score of [idx]: the entries for it in the lists of all known
    peers. *)
Definition rarity_score (file_name : string) (known_peers : list (string * json))
    (idx : Z) : Z :=
  List.fold_right (fun p n => occurrences idx (advertised file_name (snd p)) + n) 0 known_peers.

(** The number of known peers whose list for the file has the chunk. *)
Definition peers_listing (file_name : string) (known_peers : list (string * json))
    (idx : Z) : Z :=
  List.fold_right
    (fun p n => b2z (List.existsb (py_eq (JInt idx)) (advertised file_name (snd p))) + n)
    0 known_peers.

(** A peer entry as the tracker relays it from a peer of this repository: an
    object whose ["files"] maps the file to a list of hashable values. *)
Definition well_formed_peer (file_name : string) (peer_info : json) : Prop :=
  exists info peer_files,
    peer_info = JObj info /\
    get_or "files" (JObj []) info = JObj peer_files /\
    (obj_get file_name peer_files = None \/
     exists l, obj_get file_name peer_files = Some (JArr l) /\
               Forall (fun x => hashable x = true) l).

(** A list of chunk indices without repetition, as [list(chunks)] of a set. *)
Definition lists_a_set (file_name : string) (peer_info : json) : Prop :=
  exists zs, advertised file_name peer_info = List.map JInt zs /\ NoDup zs.

(** ** The frequency dictionary *)

(** The dictionary with the keys [ks] and the values [f]. *)
Definition freq (f : Z -> Z) (ks : list Z) : list (json * Z) :=
  List.map (fun idx => (JInt idx, f idx)) ks.

Lemma freq_ext f g ks : (forall idx, idx ∈ ks -> f idx = g idx) -> freq f ks = freq g ks.
Proof.
  intros H. apply map_ext_in. intros idx Hin. f_equal. apply H. by apply list_elem_of_In.
Qed.

Lemma get_freq f ks idx : idx ∈ ks -> PyDict.get (JInt idx) (freq f ks) = Some (f idx).
Proof.
  induction ks as [|a ks IH]; [by intros ?%elem_of_nil|]. simpl.
  destruct (py_eq (JInt a) (JInt idx)) eqn:E.
  - apply py_eq_int_int in E as ->. done.
  - intros [->|Hin]%elem_of_cons; [|by apply IH].
    assert (py_eq (JInt a) (JInt a) = true) by by apply py_eq_int_int. congruence.
Qed.

(** One turn of the loop over a chunk list. *)
Lemma count_one f ks x :
  NoDup ks ->
  match PyDict.get x (freq f ks) with
  | Some n => PyDict.set x (n + 1) (freq f ks)
  | None => freq f ks
  end = freq (fun idx => f idx + b2z (py_eq (JInt idx) x)) ks.
Proof.
  induction 1 as [|a ks Ha Hks IH]; [done|]. simpl.
  destruct (py_eq (JInt a) x) eqn:E; simpl; rewrite ?E.
  - f_equal. apply freq_ext. intros idx Hin.
    destruct (py_eq (JInt idx) x) eqn:E'; simpl; [|lia].
    pose proof (py_eq_int_unique _ _ _ E E'). by subst.
  - rewrite Z.add_0_r. destruct (PyDict.get x (freq f ks)) as [n|]; simpl.
    + rewrite ?E. by f_equal.
    + by f_equal.
Qed.

Lemma count_listed_freq l : forall f ks cf,
  NoDup ks ->
  count_listed l (freq f ks) = Some cf ->
  cf = freq (fun idx => f idx + occurrences idx l) ks.
Proof.
  induction l as [|x l IH]; intros f ks cf Hks; simpl.
  - intros [= <-]. apply freq_ext. intros. lia.
  - destruct (hashable x); [|done].
    pose proof (count_one f ks x Hks) as Hone.
    destruct (PyDict.get x (freq f ks)) as [n|]; rewrite Hone;
      intros ->%IH; try done; apply freq_ext; intros; lia.
Qed.

Lemma count_listed_returns l : forall f ks,
  NoDup ks -> Forall (fun x => hashable x = true) l ->
  is_Some (count_listed l (freq f ks)).
Proof.
  induction l as [|x l IH]; intros f ks Hks Hl; simpl; [by eexists|].
  apply Forall_cons in Hl as [-> Hl].
  pose proof (count_one f ks x Hks) as Hone.
  destruct (PyDict.get x (freq f ks)) as [n|]; rewrite Hone; by apply IH.
Qed.

Lemma count_peer_freq file_name peer_info f ks cf :
  NoDup ks ->
  count_peer file_name peer_info (freq f ks) = Some cf ->
  cf = freq (fun idx => f idx + occurrences idx (advertised file_name peer_info)) ks.
Proof.
  intros Hks. unfold count_peer, advertised.
  assert (freq f ks = freq (fun idx => f idx + occurrences idx []) ks) as Hnil
    by (apply freq_ext; intros; simpl; lia).
  destruct peer_info as [| | | | |?|info]; try done.
  destruct (get_or "files" (JObj []) info) as [| | | |s|l|peer_files]; try done.
  - destruct (is_substring file_name s); [done|]. by intros [= <-].
  - destruct (existsb _ l); [done|]. by intros [= <-].
  - destruct (obj_get file_name peer_files) as [[| | | |?|l|?]|]; try done;
      try (by intros [= <-]).
    by apply count_listed_freq.
Qed.

Lemma count_peer_returns file_name peer_info f ks :
  NoDup ks -> well_formed_peer file_name peer_info ->
  is_Some (count_peer file_name peer_info (freq f ks)).
Proof.
  intros Hks (info & peer_files & -> & Hfiles & Hlist). unfold count_peer.
  rewrite Hfiles. destruct Hlist as [->|(l & -> & Hl)]; [by eexists|].
  by apply count_listed_returns.
Qed.

Lemma count_peers_freq file_name (peers : list (string * json)) : forall f ks cf,
  NoDup ks ->
  count_peers file_name (List.map snd peers) (freq f ks) = Some cf ->
  cf = freq (fun idx => f idx + rarity_score file_name peers idx) ks.
Proof.
  induction peers as [|p peers IH]; intros f ks cf Hks; simpl.
  - intros [= <-]. apply freq_ext. intros. lia.
  - destruct (count_peer file_name (snd p) (freq f ks)) as [cf1|] eqn:E; [|done].
    apply count_peer_freq in E as ->; [|done].
    intros ->%IH; [|done]. apply freq_ext. intros. lia.
Qed.

Lemma count_peers_returns file_name (peers : list (string * json)) : forall f ks,
  NoDup ks -> Forall (well_formed_peer file_name) (List.map snd peers) ->
  is_Some (count_peers file_name (List.map snd peers) (freq f ks)).
Proof.
  induction peers as [|p peers IH]; intros f ks Hks Hwf; simpl; [by eexists|].
  simpl in Hwf. apply Forall_cons in Hwf as [Hp Hwf].
  destruct (count_peer_returns file_name (snd p) f ks Hks Hp) as [cf1 E]. rewrite E.
  pose proof (count_peer_freq _ _ _ _ _ Hks E) as ->. by apply IH.
Qed.

(** ** The order *)

Lemma rarest_first_when_returned needed file_name known_peers order :
  NoDup needed ->
  _get_rarest_chunks_first needed file_name known_peers = Some order ->
  order = sorted (rarity_score file_name known_peers) needed.
Proof.
  intros Hnd. unfold _get_rarest_chunks_first.
  change (List.map (fun chunk_idx => (JInt chunk_idx, 0)) needed) with (freq (fun _ => 0) needed).
  destruct (count_peers _ _ _) as [cf|] eqn:E; [|done].
  apply count_peers_freq in E as ->; [|done]. intros [= <-].
  apply sorted_ext. apply Forall_forall. intros idx Hin.
  by rewrite get_freq.
Qed.

Lemma occurrences_set idx zs :
  NoDup zs -> occurrences idx (List.map JInt zs) = b2z (List.existsb (py_eq (JInt idx)) (List.map JInt zs)).
Proof.
  induction 1 as [|z zs Hz Hzs IH]; [done|]. simpl. rewrite IH.
  destruct (py_eq (JInt idx) (JInt z)) eqn:E; simpl; [|done].
  apply py_eq_int_int in E as ->.
  destruct (existsb _ _) eqn:Ex; [|done]. exfalso. apply Hz.
  apply existsb_exists in Ex as (x & Hin & Hx).
  apply in_map_iff in Hin as (z' & <- & Hin). apply py_eq_int_int in Hx as ->.
  by apply list_elem_of_In.
Qed.

Lemma rarity_score_counts_peers file_name known_peers idx :
  Forall (lists_a_set file_name) (List.map snd known_peers) ->
  rarity_score file_name known_peers idx = peers_listing file_name known_peers idx.
Proof.
  induction known_peers as [|p peers IH]; [done|]. simpl.
  intros [(zs & Hzs & Hnd) Hrest]%Forall_cons. rewrite IH by done.
  by rewrite Hzs, occurrences_set.
Qed.

(** C7, as amended: for needed chunks without repetition, in the order in
    which the set is iterated, and known peers whose entries are well formed,
    [_get_rarest_chunks_first] returns; the order it returns is a permutation
    of the needed chunks, ascending in the score, in which the chunks of one
    score keep the order of the iteration; the score of a chunk is the number
    of entries for it in the lists of the known peers for the file, zero when
    there is none, and it is the number of peers that list the chunk when no
    list repeats a chunk; the batch is the first [min(5, len(needed))] chunks
    of the order. *)
Theorem rarest_first_order needed file_name known_peers :
  NoDup needed ->
  Forall (well_formed_peer file_name) (List.map snd known_peers) ->
  let score := rarity_score file_name known_peers in
  exists order,
    _get_rarest_chunks_first needed file_name known_peers = Some order /\
    order ≡ₚ needed /\
    StronglySorted (fun a b => score a <= score b) order /\
    (forall s, List.filter (fun i => score i =? s) order
               = List.filter (fun i => score i =? s) needed) /\
    (Forall (lists_a_set file_name) (List.map snd known_peers) ->
     forall idx, score idx = peers_listing file_name known_peers idx) /\
    batch needed file_name known_peers = Some (List.firstn CHUNK_DOWNLOADER_THREADS order) /\
    List.length (List.firstn CHUNK_DOWNLOADER_THREADS order)
    = Nat.min 5 (List.length needed).
Proof.
  intros Hnd Hwf score.
  destruct (count_peers_returns file_name known_peers (fun _ => 0) needed Hnd Hwf) as [cf Hcf].
  assert (exists order, _get_rarest_chunks_first needed file_name known_peers = Some order)
    as [order Horder].
  { unfold _get_rarest_chunks_first.
    change (List.map (fun chunk_idx => (JInt chunk_idx, 0)) needed)
      with (freq (fun _ => 0) needed).
    rewrite Hcf. by eexists. }
  exists order. split; [done|].
  pose proof (rarest_first_when_returned _ _ _ _ Hnd Horder) as ->.
  split; [apply sorted_perm|]. split; [apply sorted_sorted|].
  split; [intros s; apply sorted_stable|].
  split; [intros Hsets idx; by apply rarity_score_counts_peers|].
  split; [unfold batch; by rewrite Horder|].
  rewrite length_firstn. f_equal. by rewrite sorted_perm.
Qed.

(** What the specification says of the order: by score, ties by index. *)
Definition by_score_then_index (score : Z -> Z) (order : list Z) : Prop :=
  StronglySorted (fun a b => score a < score b \/ (score a = score b /\ a < b)) order.

(** C7, counterexample: the set [{1, 8}] is iterated as 8, 1 (the order of
    its hash table); the two chunks have the score 0 and come out as 8, 1: the
    tie is not broken by the index. *)
Lemma ties_follow_iteration_order :
  NoDup [8; 1] /\
  _get_rarest_chunks_first [8; 1] "x.bin" [] = Some [8; 1] /\
  ~ by_score_then_index (rarity_score "x.bin" []) [8; 1].
Proof.
  split; [|split].
  - compute_done.
  - reflexivity.
  - intros [_ Hall]%StronglySorted_inv.
    apply Forall_cons in Hall as [[Hlt|[_ Hlt]] _]; simpl in Hlt; lia.
Qed.


(** ** The third scenario of the specification *)

(** Peer A has the chunks 0, 1, 2 of [x.bin] and peer C has chunk 2. *)
Definition peer_A : json :=
  JObj [("addr", JStr "10.0.0.1:8000");
        ("files", JObj [("x.bin", JArr [JInt 0; JInt 1; JInt 2])])].
Definition peer_C : json :=
  JObj [("addr", JStr "10.0.0.3:8000"); ("files", JObj [("x.bin", JArr [JInt 2])])].
Definition swarm : list (string * json) := [("A", peer_A); ("C", peer_C)].

Lemma swarm_well_formed : Forall (well_formed_peer "x.bin") (List.map snd swarm).
Proof.
  repeat constructor.
  - exists [("addr", JStr "10.0.0.1:8000");
            ("files", JObj [("x.bin", JArr [JInt 0; JInt 1; JInt 2])])],
           [("x.bin", JArr [JInt 0; JInt 1; JInt 2])].
    split; [reflexivity|]. split; [reflexivity|]. right.
    exists [JInt 0; JInt 1; JInt 2]. split; [reflexivity|]. by repeat constructor.
  - exists [("addr", JStr "10.0.0.3:8000"); ("files", JObj [("x.bin", JArr [JInt 2])])],
           [("x.bin", JArr [JInt 2])].
    split; [reflexivity|]. split; [reflexivity|]. right.
    exists [JInt 2]. split; [reflexivity|]. by repeat constructor.
Defined.

Lemma needed_three_NoDup : NoDup [0; 1; 2].
Proof. compute_done. Qed.

Lemma rarest_first_witness :
  let score := rarity_score "x.bin" swarm in
  exists order,
    _get_rarest_chunks_first [0; 1; 2] "x.bin" swarm = Some order /\
    order ≡ₚ [0; 1; 2] /\
    StronglySorted (fun a b => score a <= score b) order /\
    (forall s, List.filter (fun i => score i =? s) order
               = List.filter (fun i => score i =? s) [0; 1; 2]) /\
    (Forall (lists_a_set "x.bin") (List.map snd swarm) ->
     forall idx, score idx = peers_listing "x.bin" swarm idx) /\
    batch [0; 1; 2] "x.bin" swarm = Some (List.firstn CHUNK_DOWNLOADER_THREADS order) /\
    List.length (List.firstn CHUNK_DOWNLOADER_THREADS order) = Nat.min 5 3.
Proof.
  exact (rarest_first_order [0; 1; 2] "x.bin" swarm needed_three_NoDup swarm_well_formed).
Defined.

Example rarest_first_scenario :
  _get_rarest_chunks_first [0; 1; 2] "x.bin" swarm = Some [0; 1; 2] /\
  List.map (rarity_score "x.bin" swarm) [0; 1; 2] = [1; 1; 2].
Proof. split; vm_compute; reflexivity. Qed.

(** A list that repeats a chunk counts once for each entry. *)
Example repeated_entry_counts_twice :
  let peer := JObj [("files", JObj [("x.bin", JArr [JInt 2; JInt 2])])] in
  rarity_score "x.bin" [("D", peer)] 2 = 2 /\
  peers_listing "x.bin" [("D", peer)] 2 = 1 /\
  _get_rarest_chunks_first [2; 5] "x.bin" [("D", peer)] = Some [5; 2].
Proof. repeat split; vm_compute; reflexivity. Qed.

(** An entry whose list holds a list raises. *)
Example unhashable_entry_raises :
  let peer := JObj [("files", JObj [("x.bin", JArr [JArr []])])] in
  _get_rarest_chunks_first [0] "x.bin" [("E", peer)] = None.
Proof. reflexivity. Qed.

End DownloadManagerFacts.

(* ================================================================== *)
(** * Facts about the protocol of the tracker *)
(* ================================================================== *)

Module TrackerProtocol.
Import Tracker PyDictFacts TrackerFacts.

(** ** Lookups after an assignment and after a deletion *)

Section lookups.
Context {V : Type}.
Implicit Types (d : list (json * V)) (k : json) (v : V).

Lemma get_set_eq k v d : key_of k <> None -> PyDict.get k (PyDict.set k v d) = Some v.
Proof.
  intros Hk. induction d as [|[k' v'] d IH]; simpl.
  - by rewrite py_eq_refl.
  - destruct (py_eq k' k) eqn:E; simpl; rewrite E; [done|apply IH].
Qed.

Lemma py_eq_trans_false k0 k k' :
  py_eq k0 k = true -> py_eq k k' = false -> py_eq k0 k' = false.
Proof.
  intros H0 H. apply py_eq_keys in H0. unfold py_eq in *. rewrite H0.
  destruct (key_of k); [done|]. done.
Qed.

Lemma get_set_other k k' v d :
  py_eq k k' = false -> PyDict.get k' (PyDict.set k v d) = PyDict.get k' d.
Proof.
  intros Hne. induction d as [|[k0 v0] d IH]; simpl.
  - by rewrite Hne.
  - destruct (py_eq k0 k) eqn:E; simpl.
    + by rewrite (py_eq_trans_false _ _ _ E Hne).
    + destruct (py_eq k0 k'); [done|apply IH].
Qed.

Lemma set_same_keys k v i d :
  PyDict.get k d = Some i -> List.map fst (PyDict.set k v d) = List.map fst d.
Proof.
  induction d as [|[k' v'] d IH]; simpl; [done|].
  destruct (py_eq k' k); simpl; [done|]. intros H. by rewrite IH.
Qed.

Lemma get_filter_values (P : V -> bool) k v d :
  PyDict.get k d = Some v -> P v = true ->
  PyDict.get k (List.filter (fun '(_, i) => P i) d) = Some v.
Proof.
  induction d as [|[k' v'] d IH]; simpl; [done|].
  destruct (py_eq k' k) eqn:E.
  - intros [= ->] ->. simpl. by rewrite E.
  - intros Hget HP. destruct (P v'); simpl; rewrite ?E; by apply IH.
Qed.

Lemma py_eq_sym k k' : py_eq k k' = py_eq k' k.
Proof.
  unfold py_eq. destruct (key_of k), (key_of k'); try done.
  apply bool_decide_ext. split; congruence.
Qed.

Definition without k d : list (json * V) :=
  List.filter (fun '(k', _) => negb (py_eq k' k)) d.

Lemma without_absent k d : PyDict.contains k d = false -> without k d = d.
Proof.
  unfold PyDict.contains, without. induction d as [|[k' v'] d IH]; simpl; [done|].
  destruct (py_eq k' k); [done|]. simpl. intros H. by rewrite IH.
Qed.

Lemma get_without k d : PyDict.get k (without k d) = None.
Proof.
  unfold without. induction d as [|[k' v'] d IH]; simpl; [done|].
  destruct (py_eq k' k) eqn:E; simpl; [done|]. by rewrite E.
Qed.

Lemma get_without_other k k' d :
  py_eq k k' = false -> key_of k <> None -> PyDict.get k' (without k d) = PyDict.get k' d.
Proof.
  intros Hne Hk. unfold without. induction d as [|[k0 v0] d IH]; simpl; [done|].
  destruct (py_eq k0 k) eqn:E; simpl.
  - by rewrite (py_eq_trans_false _ _ _ E Hne).
  - destruct (py_eq k0 k'); [done|apply IH].
Qed.

Lemma del_without k d :
  PyDict.wf d -> PyDict.contains k d = true -> PyDict.del k d = Some (without k d).
Proof.
  unfold PyDict.contains, without. induction d as [|[k' v'] d IH]; simpl; [done|].
  intros (Hk' & Hnotin & Hwf)%wf_cons.
  destruct (py_eq k' k) eqn:E; simpl.
  - intros _. f_equal. symmetry. apply (without_absent k d).
    unfold PyDict.contains. destruct (PyDict.get k d) eqn:G; [|done].
    exfalso. apply Hnotin. apply py_eq_keys in E. rewrite E.
    clear -G. induction d as [|[k0 v0] d IH]; simpl in *; [done|].
    destruct (py_eq k0 k) eqn:E0.
    + apply py_eq_keys in E0. rewrite E0. apply list_elem_of_here.
    + apply list_elem_of_further. by apply IH.
  - intros H. by rewrite IH.
Qed.

End lookups.

(** ** REGISTER, UNREGISTER and HEARTBEAT *)

(** X1: A REGISTER datagram whose peer_id is truthy and hashable (and not a
    NaN) and whose port is truthy, handled with peers_lock free, returns with
    the lock free. The table then maps the peer_id to the record with empty
    files, last_seen the time of the handling and the address made of the
    sender's IP and the port; every key that is not equal to the peer_id keeps
    its entry; and exactly one datagram has been sent, to the sender: the list
    of the peers of the new table without the entry of the peer_id itself. *)
Theorem register_records_the_peer data text fields response_addr now t :
  Codec.decode_utf8 data = Some text ->
  Codec.loads text = Some (JObj fields) ->
  get_or "command" JNull fields = JStr "REGISTER" ->
  truthy (get_or "peer_id" JNull fields) = true ->
  key_of (get_or "peer_id" JNull fields) <> None ->
  truthy (get_or "port" JNull fields) = true ->
  peers_lock t = false ->
  let peer_id := get_or "peer_id" JNull fields in
  let record := {| files := JObj []; last_seen := now;
                   addr := (ip response_addr, get_or "port" JNull fields) |} in
  exists t',
    _handle_request data response_addr now t = Returned tt t' /\
    PyDict.get peer_id (peers t') = Some record /\
    (forall k, py_eq peer_id k = false ->
               PyDict.get k (peers t') = PyDict.get k (peers t)) /\
    peers_lock t' = false /\
    sent t' = sent t ++ [(PeersList (without peer_id (peers t')), response_addr)] /\
    PyDict.get peer_id (without peer_id (peers t')) = None.
Proof.
  intros Hd Hl Hc Hp Hk Hport Hfree peer_id record.
  pose proof (register_with_port_inserts _ _ _ response_addr now t Hd Hl Hc Hp
                (key_of_hashable _ Hk) Hport Hfree) as Hrun.
  cbv zeta in Hrun. eexists. split; [exact Hrun|]. cbn [peers peers_lock sent].
  split; [by apply get_set_eq|]. split; [intros k Hne; by apply get_set_other|].
  split; [done|]. split; [done|]. apply get_without.
Qed.

(** X2: An UNREGISTER datagram whose peer_id is truthy and hashable, handled
    with peers_lock free on a table that is a proper dictionary, returns with
    the lock free and the table without the entry of the peer_id (no entry is
    left for it, and the table is unchanged when the peer was not in it); the
    sender is answered ACK in both cases. *)
Theorem unregister_removes_the_peer data text fields response_addr now t :
  Codec.decode_utf8 data = Some text ->
  Codec.loads text = Some (JObj fields) ->
  get_or "command" JNull fields = JStr "UNREGISTER" ->
  truthy (get_or "peer_id" JNull fields) = true ->
  hashable (get_or "peer_id" JNull fields) = true ->
  PyDict.wf (peers t) ->
  peers_lock t = false ->
  let peer_id := get_or "peer_id" JNull fields in
  _handle_request data response_addr now t
  = Returned tt {| peers := without peer_id (peers t); peers_lock := false;
                   sent := sent t ++ [(Ack, response_addr)] |}
  /\ PyDict.get peer_id (without peer_id (peers t)) = None
  /\ (PyDict.contains peer_id (peers t) = false -> without peer_id (peers t) = peers t).
Proof.
  intros Hd Hl Hc Hp Hh Hwf Hfree peer_id.
  split; [|split; [apply get_without|apply without_absent]].
  rewrite (handle_request_object _ _ _ _ _ _ Hd Hl). cbv zeta.
  rewrite Hc, Hp. cbn [truthy negb orb String.eqb].
  run_handler. cbn [hashable]. rewrite handlers_unregister. run_handler.
  repeat (progress (rewrite ?(obj_get_truthy _ _ Hp), ?Hfree, ?Hh; run_handler)).
  subst peer_id. destruct (PyDict.contains _ (peers t)) eqn:Hin.
  - run_handler. rewrite (del_without _ _ Hwf Hin). by run_handler.
  - run_handler. by rewrite (without_absent _ _ Hin).
Qed.

Lemma heartbeat_known_run data text fields response_addr now t info :
  Codec.decode_utf8 data = Some text ->
  Codec.loads text = Some (JObj fields) ->
  get_or "command" JNull fields = JStr "HEARTBEAT" ->
  truthy (get_or "peer_id" JNull fields) = true ->
  hashable (get_or "peer_id" JNull fields) = true ->
  PyDict.get (get_or "peer_id" JNull fields) (peers t) = Some info ->
  peers_lock t = false ->
  _handle_request data response_addr now t
  = Returned tt
      {| peers := PyDict.set (get_or "peer_id" JNull fields)
                    {| files := files info; last_seen := now; addr := addr info |} (peers t);
         peers_lock := false;
         sent := sent t ++ [(Ack, response_addr)] |}.
Proof.
  intros Hd Hl Hc Hp Hh Hget Hfree.
  rewrite (handle_request_object _ _ _ _ _ _ Hd Hl). cbv zeta.
  rewrite Hc, Hp. cbn [truthy negb orb String.eqb].
  run_handler. cbn [hashable]. rewrite handlers_heartbeat. run_handler.
  pose proof (contains_of_get _ _ _ Hget) as Hin.
  repeat (progress (rewrite ?(obj_get_truthy _ _ Hp), ?Hfree, ?Hh, ?Hin, ?Hget; run_handler)).
  reflexivity.
Qed.

(** X3: A HEARTBEAT of a peer that is in the table changes only last_seen of
    its record, which becomes the time of the handling: files and address are
    kept, whatever port the datagram carries and whatever address it comes
    from. The entries of the other keys and the order of the keys are
    unchanged, the lock is free again and the sender is answered ACK. *)
Theorem heartbeat_refreshes_known_peer data text fields response_addr now t info :
  Codec.decode_utf8 data = Some text ->
  Codec.loads text = Some (JObj fields) ->
  get_or "command" JNull fields = JStr "HEARTBEAT" ->
  truthy (get_or "peer_id" JNull fields) = true ->
  hashable (get_or "peer_id" JNull fields) = true ->
  PyDict.get (get_or "peer_id" JNull fields) (peers t) = Some info ->
  peers_lock t = false ->
  let peer_id := get_or "peer_id" JNull fields in
  let record := {| files := files info; last_seen := now; addr := addr info |} in
  exists t',
    _handle_request data response_addr now t = Returned tt t' /\
    PyDict.get peer_id (peers t') = Some record /\
    (forall k, py_eq peer_id k = false ->
               PyDict.get k (peers t') = PyDict.get k (peers t)) /\
    List.map fst (peers t') = List.map fst (peers t) /\
    peers_lock t' = false /\
    sent t' = sent t ++ [(Ack, response_addr)].
Proof.
  intros Hd Hl Hc Hp Hh Hget Hfree peer_id record.
  eexists. split; [by eapply heartbeat_known_run|]. cbn [peers peers_lock sent].
  split; [by eapply get_set_same|]. split; [intros k Hne; by apply get_set_other|].
  split; [by eapply set_same_keys|]. done.
Qed.

(** X4: A HEARTBEAT of a peer that is not in the table, with no truthy port,
    leaves the table unchanged (the peer is not registered), releases the lock
    and answers ACK to the sender. *)
Theorem heartbeat_unknown_peer_without_port data text fields response_addr now t :
  Codec.decode_utf8 data = Some text ->
  Codec.loads text = Some (JObj fields) ->
  get_or "command" JNull fields = JStr "HEARTBEAT" ->
  truthy (get_or "peer_id" JNull fields) = true ->
  hashable (get_or "peer_id" JNull fields) = true ->
  PyDict.contains (get_or "peer_id" JNull fields) (peers t) = false ->
  truthy (get_or "port" JNull fields) = false ->
  peers_lock t = false ->
  _handle_request data response_addr now t
  = Returned tt {| peers := peers t; peers_lock := false;
                   sent := sent t ++ [(Ack, response_addr)] |}.
Proof.
  intros Hd Hl Hc Hp Hh Hnew Hport Hfree.
  rewrite (handle_request_object _ _ _ _ _ _ Hd Hl). cbv zeta.
  rewrite Hc, Hp. cbn [truthy negb orb String.eqb].
  run_handler. cbn [hashable]. rewrite handlers_heartbeat. run_handler.
  repeat (progress (rewrite ?(obj_get_truthy _ _ Hp), ?Hfree, ?Hh, ?Hnew, ?Hport; run_handler)).
  reflexivity.
Qed.


(** ** Every request *)

Ltac split_handler :=
  repeat (run_handler;
          match goal with
          | |- context [match obj_get ?k ?m with _ => _ end] => destruct (obj_get k m) eqn:?
          | |- context [match PyDict.get ?k ?d with _ => _ end] => destruct (PyDict.get k d) eqn:?
          | |- context [match PyDict.del ?k ?d with _ => _ end] => destruct (PyDict.del k d) eqn:?
          | |- context [match py_len ?x with _ => _ end] => destruct (py_len x) eqn:?
          | |- context [if ?b then _ else _] => destruct b eqn:?
          end).

(** X5: With peers_lock free, the handling of any datagram either returns,
    with the lock free again and at most one datagram sent, addressed to the
    sender of the request, or blocks. It blocks only for a JSON object whose
    command is HEARTBEAT, whose peer_id is not in the table and whose port is
    truthy; the table and the datagrams sent are then unchanged and the lock
    stays held. No datagram makes the handler end with an exception. *)
Theorem request_outcome data response_addr now t :
  peers_lock t = false ->
  (exists t',
      _handle_request data response_addr now t = Returned tt t' /\
      peers_lock t' = false /\
      (sent t' = sent t \/ exists reply, sent t' = sent t ++ [(reply, response_addr)]))
  \/
  (exists text fields,
      Codec.decode_utf8 data = Some text /\
      Codec.loads text = Some (JObj fields) /\
      get_or "command" JNull fields = JStr "HEARTBEAT" /\
      PyDict.contains (get_or "peer_id" JNull fields) (peers t) = false /\
      truthy (get_or "port" JNull fields) = true /\
      _handle_request data response_addr now t
      = Blocked {| peers := peers t; peers_lock := true; sent := sent t |}).
Proof.
  intros Hfree.
  assert (forall r, exists t',
             Returned tt (with_reply r response_addr t) = Returned tt t' /\
             peers_lock t' = false /\
             (sent t' = sent t \/ exists reply, sent t' = sent t ++ [(reply, response_addr)]))
    as Hreply.
  { intros r. eexists. split; [done|]. split; [done|]. right. by eexists. }
  destruct (Codec.decode_utf8 data) as [text|] eqn:Hd.
  2: { left. rewrite (undecodable_datagram _ _ _ _ Hd). apply Hreply. }
  destruct (Codec.loads text) as [v|] eqn:Hl.
  2: { left. rewrite (non_json_text _ _ _ _ _ Hd Hl). exists t. auto. }
  destruct v as [| | | | | |fields];
    try (left; unfold _handle_request, decode, json_loads; rewrite Hd; run_handler;
         rewrite Hl; apply Hreply).
  rewrite (handle_request_object _ _ _ _ _ _ Hd Hl). cbv zeta.
  destruct (truthy (get_or "command" JNull fields)) eqn:Hc; cbn [negb orb].
  2: { left. exists t. auto. }
  destruct (truthy (get_or "peer_id" JNull fields)) eqn:Hp; cbn [negb orb].
  2: { left. exists t. auto. }
  run_handler.
  destruct (hashable (get_or "command" JNull fields)) eqn:Hh; run_handler.
  2: { left. apply Hreply. }
  unfold handlers. cbn [PyDict.get].
  destruct (py_eq (JStr "REGISTER") _) eqn:E1;
    [|destruct (py_eq (JStr "UPDATE") _) eqn:E2;
      [|destruct (py_eq (JStr "UNREGISTER") _) eqn:E3;
        [|destruct (py_eq (JStr "HEARTBEAT") _) eqn:E4]]].
  5: { left. apply Hreply. }
  all: run_handler; rewrite (obj_get_truthy _ _ Hp); split_handler.
  all: try (left; eexists; split; [reflexivity|]; cbn [peers_lock sent];
            split; [try done|first [by left | right; by eexists]]).
  all: try congruence.
  all: right; exists text, fields; repeat split; try done; by apply py_eq_str.
Qed.


(** ** Sequences of requests *)

(** One pass of the reaper. *)
Lemma reaper_pass_run now t :
  PyDict.wf (peers t) ->
  peers_lock t = false ->
  _remove_timeout_peers_pass now t
  = Returned (List.map fst (List.filter (fun '(_, info) => timed_out now info) (peers t)))
      {| peers := List.filter (fun '(_, info) => negb (timed_out now info)) (peers t);
         peers_lock := false; sent := sent t |}.
Proof.
  intros Hwf Hfree.
  unfold _remove_timeout_peers_pass, with_lock, acquire, release, try_except.
  unfold mbind, M_bind, mret, M_ret, get_peers. rewrite Hfree. cbn.
  erewrite for_each_delitem; [done| |].
  - apply Forall_forall. intros k Hk. apply list_elem_of_In in Hk.
    apply in_map_iff in Hk as ([k0 i0] & <- & Hin). apply filter_In in Hin as [Hin _].
    apply key_of_hashable. destruct Hwf as [_ Hall].
    rewrite Forall_forall in Hall. apply (Hall (k0, i0)). by apply list_elem_of_In.
  - cbn. apply (del_all_filter (fun i => timed_out now i)). done.
Qed.

(** X6: After a HEARTBEAT of a known peer handled at the time now, a pass of
    the loop that removes timed-out peers run at a time later with later - now
    <= 120 seconds returns and keeps the peer: the table still maps the
    peer_id to its record, with last_seen = now. The table is a proper
    dictionary and the lock is free at the start. *)
Theorem heartbeat_keeps_the_peer_alive
    data text fields response_addr now later t info :
  Codec.decode_utf8 data = Some text ->
  Codec.loads text = Some (JObj fields) ->
  get_or "command" JNull fields = JStr "HEARTBEAT" ->
  truthy (get_or "peer_id" JNull fields) = true ->
  key_of (get_or "peer_id" JNull fields) <> None ->
  PyDict.get (get_or "peer_id" JNull fields) (peers t) = Some info ->
  PyDict.wf (peers t) ->
  peers_lock t = false ->
  (later - now <= 120)%Q ->
  let peer_id := get_or "peer_id" JNull fields in
  exists t1 removed t2,
    _handle_request data response_addr now t = Returned tt t1 /\
    _remove_timeout_peers_pass later t1 = Returned removed t2 /\
    PyDict.get peer_id (peers t2)
    = Some {| files := files info; last_seen := now; addr := addr info |}.
Proof.
  intros Hd Hl Hc Hp Hk Hget Hwf Hfree Hsoon peer_id.
  pose proof (heartbeat_known_run _ _ _ response_addr now t info Hd Hl Hc Hp
                (key_of_hashable _ Hk) Hget Hfree) as Hrun.
  eexists _, _, _. split; [exact Hrun|]. split.
  - apply reaper_pass_run; [|done]. cbn [peers]. by apply set_wf.
  - cbn [peers].
    apply (get_filter_values (fun i => negb (timed_out later i))).
    + by eapply get_set_same.
    + apply negb_true_iff, timed_out_false. done.
Qed.

(** X7: A REGISTER of a peer A with a truthy port, then an UPDATE from A, then
    a REGISTER of another peer B with a truthy port: the three requests
    return, and the peers list sent to B in answer to its REGISTER has for A
    the files of the UPDATE (the empty dictionary if the UPDATE has none),
    last_seen the time of the UPDATE, and the address made at the REGISTER
    from A's IP and port, whatever address the UPDATE came from. *)
Theorem published_files_reach_other_peers
    reg reg_text reg_fields upd upd_text upd_fields other other_text other_fields
    addr_a addr_a' addr_b t0 t1 t2 t :
  (* A registers *)
  Codec.decode_utf8 reg = Some reg_text ->
  Codec.loads reg_text = Some (JObj reg_fields) ->
  get_or "command" JNull reg_fields = JStr "REGISTER" ->
  truthy (get_or "peer_id" JNull reg_fields) = true ->
  key_of (get_or "peer_id" JNull reg_fields) <> None ->
  truthy (get_or "port" JNull reg_fields) = true ->
  (* A publishes its files *)
  Codec.decode_utf8 upd = Some upd_text ->
  Codec.loads upd_text = Some (JObj upd_fields) ->
  get_or "command" JNull upd_fields = JStr "UPDATE" ->
  get_or "peer_id" JNull upd_fields = get_or "peer_id" JNull reg_fields ->
  (* B registers *)
  Codec.decode_utf8 other = Some other_text ->
  Codec.loads other_text = Some (JObj other_fields) ->
  get_or "command" JNull other_fields = JStr "REGISTER" ->
  truthy (get_or "peer_id" JNull other_fields) = true ->
  key_of (get_or "peer_id" JNull other_fields) <> None ->
  truthy (get_or "port" JNull other_fields) = true ->
  py_eq (get_or "peer_id" JNull other_fields) (get_or "peer_id" JNull reg_fields) = false ->
  peers_lock t = false ->
  let peer_a := get_or "peer_id" JNull reg_fields in
  exists ta tb tc others,
    _handle_request reg addr_a t0 t = Returned tt ta /\
    _handle_request upd addr_a' t1 ta = Returned tt tb /\
    _handle_request other addr_b t2 tb = Returned tt tc /\
    sent tc = sent tb ++ [(PeersList others, addr_b)] /\
    PyDict.get peer_a others
    = Some {| files := get_or "files" (JObj []) upd_fields;
              last_seen := t1;
              addr := (ip addr_a, get_or "port" JNull reg_fields) |}.
Proof.
  intros Hd Hl Hc Hp Hk Hport Hd' Hl' Hc' Hsame Hd'' Hl'' Hc'' Hp'' Hk'' Hport'' Hne Hfree peer_a.
  pose proof (register_with_port_inserts _ _ _ addr_a t0 t Hd Hl Hc Hp
                (key_of_hashable _ Hk) Hport Hfree) as Hrun.
  cbv zeta in Hrun. set (ta := Build_tracker _ _ _) in Hrun.
  assert (PyDict.get peer_a (peers ta)
          = Some {| files := JObj []; last_seen := t0;
                    addr := (ip addr_a, get_or "port" JNull reg_fields) |}) as Hget
    by (by apply get_set_eq).
  rewrite <- Hsame in Hp, Hk.
  destruct (update_from_known_peer_overwrites_files _ _ _ addr_a' t1 ta _ Hd' Hl' Hc' Hp
              (key_of_hashable _ Hk) ltac:(by rewrite Hsame) eq_refl)
    as (tb & Hrun' & _ & Hget' & Hfree').
  pose proof (register_with_port_inserts _ _ _ addr_b t2 tb Hd'' Hl'' Hc'' Hp''
                (key_of_hashable _ Hk'') Hport'' Hfree') as Hrun''.
  cbv zeta in Hrun''.
  eexists ta, tb, _, _. split; [exact Hrun|]. split; [exact Hrun'|].
  split; [exact Hrun''|]. cbn [sent]. split; [reflexivity|].
  change (List.filter _ ?d) with (without (get_or "peer_id" JNull other_fields) d).
  rewrite get_without_other by done. rewrite get_set_other by done.
  rewrite Hsame in Hget'. exact Hget'.
Qed.


(** ** Sample exchanges *)

(** UNREGISTER of peer-1. *)
Definition unregister_request : bytes :=
  "{" +:+ str_field "command" "UNREGISTER" +:+ ", " +:+ str_field "peer_id" "peer-1" +:+ "}".

(** HEARTBEAT of peer-1 without a port. *)
Definition heartbeat_without_port : bytes :=
  "{" +:+ str_field "command" "HEARTBEAT" +:+ ", " +:+ str_field "peer_id" "peer-1" +:+ "}".

(** REGISTER of peer-2 with its TCP port. *)
Definition register_of_peer_2 : bytes :=
  "{" +:+ str_field "command" "REGISTER" +:+ ", " +:+ str_field "peer_id" "peer-2"
      +:+ ", " +:+ field "port" "8001" +:+ "}".

Definition second_client : sockaddr := {| ip := "10.0.0.8"; udp_port := 40001 |}.

Definition register_fields : list (string * json) :=
  [("command", JStr "REGISTER"); ("peer_id", JStr "peer-1"); ("port", JInt 8000)].
Definition heartbeat_fields : list (string * json) :=
  [("command", JStr "HEARTBEAT"); ("peer_id", JStr "peer-1"); ("port", JInt 8000)].
Definition update_fields : list (string * json) :=
  [("command", JStr "UPDATE"); ("peer_id", JStr "peer-1");
   ("files", JObj [("x.bin", JArr [JInt 0; JInt 1; JInt 2])])].
Definition peer_1_at_10 : PeerInfo :=
  {| files := JObj []; last_seen := 10; addr := ("10.0.0.7", JInt 8000) |}.

Lemma peer_1_is_a_key : key_of (JStr "peer-1") <> None.
Proof. discriminate. Defined.

Lemma peer_2_is_a_key : key_of (JStr "peer-2") <> None.
Proof. discriminate. Defined.

Lemma register_records_the_peer_witness :
  exists t',
    _handle_request register_with_port client 100 (idle []) = Returned tt t' /\
    PyDict.get (JStr "peer-1") (peers t')
    = Some {| files := JObj []; last_seen := 100; addr := ("10.0.0.7", JInt 8000) |} /\
    (forall k, py_eq (JStr "peer-1") k = false ->
               PyDict.get k (peers t') = PyDict.get k (peers (idle []))) /\
    peers_lock t' = false /\
    sent t' = [(PeersList (without (JStr "peer-1") (peers t')), client)] /\
    PyDict.get (JStr "peer-1") (without (JStr "peer-1") (peers t')) = None.
Proof.
  exact (register_records_the_peer register_with_port register_with_port register_fields
           client 100 (idle [])
           eq_refl eq_refl eq_refl eq_refl peer_1_is_a_key eq_refl eq_refl).
Defined.

Lemma unregister_removes_the_peer_witness :
  _handle_request unregister_request client 100 (idle two_peers)
  = Returned tt {| peers := without (JStr "peer-1") two_peers; peers_lock := false;
                   sent := [(Ack, client)] |}
  /\ PyDict.get (JStr "peer-1") (without (JStr "peer-1") two_peers) = None
  /\ (PyDict.contains (JStr "peer-1") two_peers = false ->
      without (JStr "peer-1") two_peers = two_peers).
Proof.
  exact (unregister_removes_the_peer unregister_request unregister_request
           [("command", JStr "UNREGISTER"); ("peer_id", JStr "peer-1")]
           client 100 (idle two_peers)
           eq_refl eq_refl eq_refl eq_refl eq_refl two_peers_wf eq_refl).
Defined.

Lemma heartbeat_refreshes_known_peer_witness :
  exists t',
    _handle_request heartbeat_with_port client 100 (idle two_peers) = Returned tt t' /\
    PyDict.get (JStr "peer-1") (peers t')
    = Some {| files := JObj []; last_seen := 100; addr := ("10.0.0.7", JInt 8000) |} /\
    (forall k, py_eq (JStr "peer-1") k = false ->
               PyDict.get k (peers t') = PyDict.get k two_peers) /\
    List.map fst (peers t') = List.map fst two_peers /\
    peers_lock t' = false /\
    sent t' = [(Ack, client)].
Proof.
  exact (heartbeat_refreshes_known_peer heartbeat_with_port heartbeat_with_port
           heartbeat_fields client 100 (idle two_peers) peer_1_at_10
           eq_refl eq_refl eq_refl eq_refl eq_refl eq_refl eq_refl).
Defined.

Lemma heartbeat_unknown_peer_without_port_witness :
  _handle_request heartbeat_without_port client 100 (idle [])
  = Returned tt {| peers := []; peers_lock := false; sent := [(Ack, client)] |}.
Proof.
  exact (heartbeat_unknown_peer_without_port heartbeat_without_port heartbeat_without_port
           [("command", JStr "HEARTBEAT"); ("peer_id", JStr "peer-1")]
           client 100 (idle [])
           eq_refl eq_refl eq_refl eq_refl eq_refl eq_refl eq_refl eq_refl).
Defined.

Lemma request_outcome_witness :
  (exists t',
      _handle_request heartbeat_with_port client 100 (idle []) = Returned tt t' /\
      peers_lock t' = false /\
      (sent t' = [] \/ exists reply, sent t' = [] ++ [(reply, client)]))
  \/
  (exists text fields,
      Codec.decode_utf8 heartbeat_with_port = Some text /\
      Codec.loads text = Some (JObj fields) /\
      get_or "command" JNull fields = JStr "HEARTBEAT" /\
      PyDict.contains (get_or "peer_id" JNull fields) (peers (idle [])) = false /\
      truthy (get_or "port" JNull fields) = true /\
      _handle_request heartbeat_with_port client 100 (idle [])
      = Blocked {| peers := []; peers_lock := true; sent := [] |}).
Proof. exact (request_outcome heartbeat_with_port client 100 (idle []) eq_refl). Defined.

Lemma heartbeat_keeps_the_peer_alive_witness :
  exists t1 removed t2,
    _handle_request heartbeat_with_port client 100 (idle two_peers) = Returned tt t1 /\
    _remove_timeout_peers_pass 200 t1 = Returned removed t2 /\
    PyDict.get (JStr "peer-1") (peers t2)
    = Some {| files := JObj []; last_seen := 100; addr := ("10.0.0.7", JInt 8000) |}.
Proof.
  refine (heartbeat_keeps_the_peer_alive heartbeat_with_port heartbeat_with_port
            heartbeat_fields client 100 200 (idle two_peers) peer_1_at_10
            eq_refl eq_refl eq_refl eq_refl peer_1_is_a_key eq_refl two_peers_wf eq_refl _).
  discriminate.
Defined.

Lemma published_files_reach_other_peers_witness :
  exists ta tb tc others,
    _handle_request register_with_port client 100 (idle []) = Returned tt ta /\
    _handle_request update_without_port client 110 ta = Returned tt tb /\
    _handle_request register_of_peer_2 second_client 120 tb = Returned tt tc /\
    sent tc = sent tb ++ [(PeersList others, second_client)] /\
    PyDict.get (JStr "peer-1") others
    = Some {| files := JObj [("x.bin", JArr [JInt 0; JInt 1; JInt 2])];
              last_seen := 110;
              addr := ("10.0.0.7", JInt 8000) |}.
Proof.
  exact (published_files_reach_other_peers
           register_with_port register_with_port register_fields
           update_without_port update_without_port update_fields
           register_of_peer_2 register_of_peer_2
           [("command", JStr "REGISTER"); ("peer_id", JStr "peer-2"); ("port", JInt 8001)]
           client client second_client 100 110 120 (idle [])
           eq_refl eq_refl eq_refl eq_refl peer_1_is_a_key eq_refl
           eq_refl eq_refl eq_refl eq_refl
           eq_refl eq_refl eq_refl eq_refl peer_2_is_a_key eq_refl eq_refl eq_refl).
Defined.

End TrackerProtocol.

(* ================================================================== *)
(** * Facts about the ingest and the chunk store *)
(* ================================================================== *)

Module StoreFacts.
Import FileManager FileManagerFacts.
#[local] Opaque CHUNK_SIZE.

(** ** The chunk sets after an ingest *)

Lemma chunks_save_chunks file_name count : forall i stream fm s,
  available_chunks fm !! file_name = Some s ->
  available_chunks (save_chunks file_name i count stream fm) !! file_name
  = Some (s ∪ list_to_set (seqZ i (Z.of_nat count))).
Proof.
  induction count as [|count IH]; intros i stream fm s Hs.
  - simpl. rewrite Hs. f_equal. by rewrite (right_id_L ∅ (∪)).
  - cbn [save_chunks]. destruct (read CHUNK_SIZE stream) as [d r].
    erewrite IH.
    2: { unfold save_chunk. cbn [available_chunks]. rewrite lookup_insert_eq, Hs. done. }
    f_equal. rewrite Nat2Z.inj_succ, (seqZ_cons i) by lia. cbn [default].
    replace (Z.pred (Z.succ (Z.of_nat count))) with (Z.of_nat count) by lia.
    replace (Z.succ i) with (i + 1) by lia.
    rewrite list_to_set_cons. by rewrite (assoc_L (∪)).
Qed.


Lemma disk_save_chunks file_name count : forall i stream fm p,
  p.1 <> Chunks ->
  disk (save_chunks file_name i count stream fm) !! p = disk fm !! p.
Proof.
  induction count as [|count IH]; intros i stream fm p Hp; [done|].
  cbn [save_chunks]. destruct (read CHUNK_SIZE stream) as [d r].
  rewrite IH by done. unfold save_chunk. cbn [disk].
  apply lookup_insert_ne. unfold chunk_path. intros <-. done.
Qed.

Lemma size_seqZ_set (n : nat) : size (list_to_set (seqZ 0 (Z.of_nat n)) : gset Z) = n.
Proof.
  rewrite size_list_to_set by apply NoDup_seqZ.
  rewrite length_seqZ. lia.
Qed.

Lemma split_join (content : bytes) :
  join (read_chunks (Z.to_nat (total_chunks_of (Z.of_nat (String.length content)))) content)
  = content.
Proof.
  apply join_read_chunks.
  assert (0 <= Z.of_nat (String.length content)) as Hlen by lia.
  pose proof (total_chunks_nonneg _ Hlen). pose proof (total_chunks_covers _ Hlen). lia.
Qed.

Lemma total_chunks_pos (content : bytes) :
  content <> "" -> 0 < total_chunks_of (Z.of_nat (String.length content)).
Proof.
  intros Hne.
  assert (0 < Z.of_nat (String.length content)) as Hlen
    by (destruct content; [done|simpl; lia]).
  pose proof (total_chunks_covers _ (Z.lt_le_incl _ _ Hlen)).
  pose proof CHUNK_SIZE_pos. nia.
Qed.

(** What [process_new_file] leaves in the two dictionaries and in the chunk
    directory for a file it ingests. *)
Section ingest.
Context (file_name : string) (now : Q) (fm : file_manager) (content : bytes).
Hypothesis Hfile : disk fm !! (Shared, file_name) = Some content.
Hypothesis Hne : content <> "".
Hypothesis Hok : interpolation_ok file_name = true.

Let file_size := Z.of_nat (String.length content).
Let total := total_chunks_of file_size.
Let metadata :=
  {| fileName := file_name; fileSize := file_size; fileHash := SHA256.hexdigest content;
     totalChunks := total; createdAt := Qfloor (now * 1000) |}.

Lemma ingest_metadata :
  get_file_metadata file_name (process_new_file file_name now fm) = Some metadata.
Proof.
  unfold get_file_metadata. rewrite (process_new_file_unfold _ _ _ _ Hfile Hne Hok).
  rewrite metadata_save_chunks. cbn. apply lookup_insert_eq.
Qed.

Lemma ingest_chunks :
  available_chunks (process_new_file file_name now fm) !! file_name
  = Some (list_to_set (seqZ 0 total)).
Proof.
  pose proof (total_chunks_pos content Hne) as Hpos.
  rewrite (process_new_file_unfold _ _ _ _ Hfile Hne Hok).
  erewrite chunks_save_chunks; [|cbn; apply lookup_insert_eq].
  rewrite Z2Nat.id by lia. f_equal. by rewrite (left_id_L ∅ (∪)).
Qed.

Lemma ingest_complete : has_complete_file file_name (process_new_file file_name now fm) = true.
Proof.
  pose proof (total_chunks_pos content Hne) as Hpos. fold file_size total in Hpos.
  unfold has_complete_file. rewrite ingest_metadata, ingest_chunks. cbn [totalChunks metadata].
  assert (size (list_to_set (seqZ 0 total) : gset Z) = Z.to_nat total) as Hsize.
  { rewrite <- (Z2Nat.id total) at 1 by lia. apply size_seqZ_set. }
  destruct (decide _) as [Hempty|_].
  - rewrite Hempty, size_empty in Hsize. lia.
  - rewrite Hsize. apply Z.eqb_eq. lia.
Qed.

Lemma ingest_load (k : nat) chunk :
  read_chunks (Z.to_nat total) content !! k = Some chunk ->
  load_chunk file_name (Z.of_nat k) (process_new_file file_name now fm) = Some chunk.
Proof.
  intros Hk. rewrite (process_new_file_unfold _ _ _ _ Hfile Hne Hok).
  by apply (load_save_chunks file_name _ 0).
Qed.



Lemma ingest_meta_file :
  disk (process_new_file file_name now fm) !! (Metadata, _safe_filename file_name +:+ METADATA_EXTENSION)
  = Some (meta_text metadata).
Proof.
  rewrite (process_new_file_unfold _ _ _ _ Hfile Hne Hok).
  rewrite disk_save_chunks by done. cbn. by rewrite lookup_insert_eq.
Qed.

End ingest.


(** X9: After process_new_file has ingested a file that is not empty, in every
    store that has the same metadata, the same chunk sets and the same chunk
    files of that file, and whose shared folder has no file of that name with
    the same size (the file was deleted, or replaced by a file of another
    size), reconstruct_file returns True and the shared folder then holds the
    file with exactly the bytes that were ingested. *)
Theorem ingest_then_reconstruct file_name now fm content fm2 :
  disk fm !! (Shared, file_name) = Some content ->
  content <> "" ->
  interpolation_ok file_name = true ->
  file_name <> "" ->
  let fm1 := process_new_file file_name now fm in
  local_files_metadata fm2 = local_files_metadata fm1 ->
  available_chunks fm2 = available_chunks fm1 ->
  (forall i, load_chunk file_name i fm2 = load_chunk file_name i fm1) ->
  (forall existing, disk fm2 !! (Shared, file_name) = Some existing ->
                    String.length existing <> String.length content) ->
  exists fm3,
    reconstruct_file file_name fm2 = (true, fm3) /\
    disk fm3 !! (Shared, file_name) = Some content.
Proof.
  intros Hfile Hne Hok Hname fm1 Hmeta Hchunks Hload Hstale.
  pose proof (ingest_metadata _ now _ _ Hfile Hne Hok) as Hm.
  pose proof (ingest_complete _ now _ _ Hfile Hne Hok) as Hc.
  fold fm1 in Hm, Hc.
  assert (get_file_metadata file_name fm2 = get_file_metadata file_name fm1) as Hm2
    by (unfold get_file_metadata; by rewrite Hmeta).
  assert (has_complete_file file_name fm2 = true) as Hc2.
  { unfold has_complete_file. rewrite Hm2, Hchunks. exact Hc. }
  unfold reconstruct_file. rewrite Hc2, Hm2, Hm. cbn [negb fileSize totalChunks fileHash].
  assert (match disk fm2 !! (Shared, file_name) with
          | Some existing => Z.of_nat (String.length existing) =? Z.of_nat (String.length content)
          | None => false
          end = false) as ->.
  { destruct (disk fm2 !! (Shared, file_name)) as [existing|] eqn:E; [|done].
    apply Z.eqb_neq. specialize (Hstale existing eq_refl). lia. }
  unfold with_suffix. destruct (String.eqb_spec file_name "") as [|_]; [done|].
  set (total := total_chunks_of (Z.of_nat (String.length content))).
  assert (write_chunks file_name 0 (Z.to_nat total) fm2 "" = Some content) as ->.
  { pose proof (split_join content) as Hjoin. cbv zeta in Hjoin. fold total in Hjoin.
    rewrite <- (read_chunks_length (Z.to_nat total) content) at 1.
    rewrite write_chunks_all; [by rewrite Hjoin|].
    intros k chunk Hk. rewrite Hload, Z.add_0_l.
    by apply (ingest_load _ now _ content Hfile Hne Hok). }
  rewrite String.eqb_refl. eexists. split; [reflexivity|].
  cbn. apply lookup_insert_eq.
Qed.


(** X10: For a shared file that is not empty and whose name makes configparser
    raise an interpolation error (a stray percent sign, as in 100%.txt),
    process_new_file records the metadata and an empty chunk set in memory and
    stops there: nothing is written to disk (no .meta file and no chunk),
    has_complete_file is False and reconstruct_file returns False and leaves
    the store as it is. The file is known and can never be served. *)
Theorem percent_in_the_name_stops_the_ingest file_name now fm content :
  disk fm !! (Shared, file_name) = Some content ->
  content <> "" ->
  interpolation_ok file_name = false ->
  let fm' := process_new_file file_name now fm in
  is_Some (get_file_metadata file_name fm') /\
  available_chunks fm' !! file_name = Some ∅ /\
  disk fm' = disk fm /\
  has_complete_file file_name fm' = false /\
  reconstruct_file file_name fm' = (false, fm').
Proof.
  intros Hfile Hne Hbad fm'.
  assert (exists metadata,
             fm' = {| local_files_metadata := <[file_name := metadata]> (local_files_metadata fm);
                      available_chunks := <[file_name := ∅]> (available_chunks fm);
                      disk := disk fm |}) as [metadata Hfm'].
  { unfold fm', process_new_file. rewrite Hfile.
    destruct (Z.of_nat (String.length content) =? 0) eqn:E.
    { apply length_zero_iff in E. done. }
    unfold _save_metadata, get_file_metadata. cbn [local_files_metadata].
    rewrite lookup_insert_eq. cbn [fileName]. rewrite Hbad. cbn [andb]. by eexists. }
  assert (has_complete_file file_name fm' = false) as Hinc.
  { rewrite Hfm'. unfold has_complete_file, get_file_metadata. cbn.
    rewrite !lookup_insert_eq. by destruct (decide _). }
  split; [|split; [|split; [|split]]].
  - rewrite Hfm'. unfold get_file_metadata. cbn. rewrite lookup_insert_eq. by eexists.
  - rewrite Hfm'. cbn. apply lookup_insert_eq.
  - by rewrite Hfm'.
  - done.
  - unfold reconstruct_file. by rewrite Hinc.
Qed.

(** ** Names that differ in characters [_safe_filename] drops *)

(** A [str] of ASCII characters, on which [str.isalnum] is [isalnum]. *)
Definition is_ascii (s : string) : Prop :=
  Forall (fun c => (N_of_ascii c < 128)%N) (list_ascii_of_string s).

(** X11: Two ASCII file names that _safe_filename maps to the same text (as a
    b.txt and ab.txt) share their chunk files and their .meta file: once
    process_new_file has ingested the one, load_chunk for the other name and
    the index k returns the k-th chunk of the first file, and the .meta file
    of the other name holds the metadata of the first. *)
Theorem names_with_one_safe_name_share_storage name other now fm content :
  is_ascii name -> is_ascii other ->
  _safe_filename name = _safe_filename other ->
  disk fm !! (Shared, name) = Some content ->
  content <> "" ->
  interpolation_ok name = true ->
  let total := total_chunks_of (Z.of_nat (String.length content)) in
  let fm' := process_new_file name now fm in
  (forall (k : nat) chunk,
     read_chunks (Z.to_nat total) content !! k = Some chunk ->
     load_chunk other (Z.of_nat k) fm' = Some chunk) /\
  (exists metadata,
     get_file_metadata name fm' = Some metadata /\
     disk fm' !! (Metadata, _safe_filename other +:+ METADATA_EXTENSION)
     = Some (meta_text metadata)).
Proof.
  intros _ _ Hsafe Hfile Hne Hok total fm'. split.
  - intros k chunk Hk. unfold load_chunk, chunk_path. rewrite <- Hsafe.
    by apply (ingest_load _ now _ content Hfile Hne Hok).
  - eexists. split; [by apply ingest_metadata|]. rewrite <- Hsafe.
    by apply ingest_meta_file.
Qed.

(** ** What [reconstruct_file] touches *)

Lemma write_chunks_missing file_name fm count : forall i written j,
  i <= j < i + Z.of_nat count ->
  load_chunk file_name j fm = None ->
  write_chunks file_name i count fm written = None.
Proof.
  induction count as [|count IH]; intros i written j Hj Hmissing; [lia|].
  cbn [write_chunks]. destruct (load_chunk file_name i fm) as [chunk_data|] eqn:E; [|done].
  apply (IH _ _ j); [|done].
  destruct (Z.eq_dec i j) as [->|]; [congruence|lia].
Qed.


(** X13: When a file counts as complete (as many recorded chunk indices as
    totalChunks) while the chunk file of an index i with 0 <= i < totalChunks
    is missing on disk, and the shared folder has no file of that name with
    the expected size, reconstruct_file returns False: has_complete_file
    compares a count and not the indices, and the missing chunk is caught by
    the read. *)
Theorem missing_chunk_fails_the_reconstruction file_name fm meta i :
  get_file_metadata file_name fm = Some meta ->
  has_complete_file file_name fm = true ->
  (forall existing, disk fm !! (Shared, file_name) = Some existing ->
                    Z.of_nat (String.length existing) <> fileSize meta) ->
  0 <= i < totalChunks meta ->
  load_chunk file_name i fm = None ->
  (reconstruct_file file_name fm).1 = false.
Proof.
  intros Hmeta Hcomplete Hstale Hi Hmissing.
  unfold reconstruct_file. rewrite Hcomplete, Hmeta. cbn [negb].
  assert (match disk fm !! (Shared, file_name) with
          | Some existing => Z.of_nat (String.length existing) =? fileSize meta
          | None => false
          end = false) as ->.
  { destruct (disk fm !! (Shared, file_name)) as [existing|] eqn:E; [|done].
    apply Z.eqb_neq. by apply Hstale. }
  destruct (with_suffix file_name ".part") as [temp|]; [|done].
  rewrite (write_chunks_missing _ _ _ _ _ i); [done| |done]. lia.
Qed.

(** ** Counting chunks *)

Lemma total_chunks_count_insert file_name chunks (m : gmap string (gset Z)) :
  map_fold (fun _ chunks total => Z.of_nat (size chunks) + total) 0 (<[file_name := chunks]> m)
  = Z.of_nat (size chunks)
    + map_fold (fun _ chunks total => Z.of_nat (size chunks) + total) 0 (delete file_name m).
Proof.
  rewrite <- insert_delete_eq.
  rewrite map_fold_insert_L; [done| |apply lookup_delete_eq].
  intros. lia.
Qed.

Lemma total_chunks_count_lookup file_name chunks (m : gmap string (gset Z)) :
  m !! file_name = Some chunks ->
  map_fold (fun _ chunks total => Z.of_nat (size chunks) + total) 0 m
  = Z.of_nat (size chunks)
    + map_fold (fun _ chunks total => Z.of_nat (size chunks) + total) 0 (delete file_name m).
Proof.
  intros Hm. rewrite <- (insert_id m file_name chunks Hm) at 1.
  apply total_chunks_count_insert.
Qed.

Lemma union_recorded (chunks : gset Z) chunk_index :
  chunk_index ∈ chunks -> chunks ∪ {[chunk_index]} = chunks.
Proof.
  intros Hin. rewrite (comm_L (∪)). apply subseteq_union_1_L. by apply singleton_subseteq_l.
Qed.

(** X14: save_chunk raises get_total_chunks_count by one when the index was
    not recorded for the file and leaves it unchanged when it was; saving the
    same index a second time leaves the chunk sets unchanged, and saving an
    index that is recorded in an existing set leaves them unchanged too. *)
Theorem save_chunk_counts_each_index_once file_name chunk_index data fm :
  let recorded := default ∅ (available_chunks fm !! file_name) in
  let fm' := save_chunk file_name chunk_index data fm in
  get_total_chunks_count fm'
  = get_total_chunks_count fm + (if decide (chunk_index ∈ recorded) then 0 else 1)
  /\ available_chunks (save_chunk file_name chunk_index data fm') = available_chunks fm'
  /\ (chunk_index ∈ recorded ->
      is_Some (available_chunks fm !! file_name) ->
      available_chunks fm' = available_chunks fm).
Proof.
  cbv zeta. unfold get_total_chunks_count, save_chunk. cbn [available_chunks].
  split; [|split].
  - rewrite total_chunks_count_insert.
    destruct (available_chunks fm !! file_name) as [chunks|] eqn:E; cbn [default from_option id].
    + rewrite (total_chunks_count_lookup _ _ _ E).
      destruct (decide (chunk_index ∈ chunks)) as [Hin|Hnotin].
      * rewrite (union_recorded _ _ Hin). lia.
      * rewrite size_union by (by apply disjoint_singleton_r).
        rewrite size_singleton. lia.
    + rewrite (delete_id _ _ E). rewrite (left_id_L ∅ (∪)), size_singleton.
      destruct (decide _) as [Hin|_]; [by apply not_elem_of_empty in Hin|]. lia.
  - rewrite lookup_insert_eq. cbn [default from_option id]. rewrite insert_insert_eq. f_equal.
    by rewrite <- (assoc_L (∪)), (idemp_L (∪)).
  - intros Hin [chunks E]. rewrite E in Hin |- *. cbn [default from_option id] in *.
    rewrite (union_recorded _ _ Hin). by apply insert_id.
Qed.

(** ** Files the watcher and the scan pass over *)

Lemma endswith_app a suffix : endswith suffix (a +:+ suffix) = true.
Proof.
  induction a as [|c a IH].
  - rewrite string_app_nil_l. destruct suffix; simpl; by rewrite ?Ascii.eqb_refl, ?String.eqb_refl.
  - rewrite string_app_cons. cbn [endswith]. rewrite IH. apply orb_true_r.
Qed.

(** X15: The temporary file that reconstruct_file writes in the shared folder
    (the name of the file with its suffix replaced by .part) is passed over by
    scan_shared_folder_for_new_files and by FileChangeHandler.on_created: the
    scan goes on with the other entries as if the temporary were not there,
    and the event leaves the store unchanged. *)
Theorem part_files_are_never_ingested file_name temp_name now rest fm :
  with_suffix file_name ".part" = Some temp_name ->
  scan_skips temp_name = true /\
  on_created_skips temp_name = true /\
  scan_shared_folder_for_new_files ((temp_name, now) :: rest) fm
  = scan_shared_folder_for_new_files rest fm /\
  on_created false temp_name now fm = fm.
Proof.
  unfold with_suffix. destruct (String.eqb file_name ""); [done|]. intros [= <-].
  assert (endswith ".part" (stem file_name +:+ ".part") = true) as Hends
    by apply endswith_app.
  assert (scan_skips (stem file_name +:+ ".part") = true) as Hscan.
  { unfold scan_skips. cbn [existsb]. rewrite Hends. by rewrite !orb_true_r. }
  assert (on_created_skips (stem file_name +:+ ".part") = true) as Hwatch.
  { unfold on_created_skips. cbn [existsb]. rewrite Hends. by rewrite !orb_true_r. }
  split; [done|]. split; [done|]. split.
  - cbn [scan_shared_folder_for_new_files]. by rewrite Hscan.
  - unfold on_created. by rewrite Hwatch.
Qed.


(** ** Sample stores *)

(** A shared folder with one file whose name has a percent sign. *)
Definition percent_store : file_manager :=
  {| local_files_metadata := ∅; available_chunks := ∅;
     disk := {[ (Shared, "100%.txt") := "A" ]} |}.

(** A shared folder with one file whose name has a space. *)
Definition spaced_store : file_manager :=
  {| local_files_metadata := ∅; available_chunks := ∅;
     disk := {[ (Shared, "a b.txt") := "A" ]} |}.

(** The metadata of [f.bin] is known and the only chunk stored is one the
    file does not have. *)
Definition misnumbered : file_manager :=
  save_chunk "f.bin" 5 "B"
    {| local_files_metadata := {[ "f.bin" := meta_A ]}; available_chunks := ∅; disk := ∅ |}.

Lemma A_is_not_empty : "A" <> "".
Proof. discriminate. Defined.


Lemma ingest_then_reconstruct_witness :
  exists fm3,
    reconstruct_file "f.bin" deleted = (true, fm3) /\
    disk fm3 !! (Shared, "f.bin") = Some "A".
Proof.
  refine (ingest_then_reconstruct "f.bin" 0 fresh_store "A" deleted
            eq_refl A_is_not_empty eq_refl _ eq_refl eq_refl _ _).
  - discriminate.
  - intros i. apply lookup_delete_ne. discriminate.
  - intros existing H. vm_compute in H. discriminate.
Defined.

Lemma percent_in_the_name_stops_the_ingest_witness :
  let fm' := process_new_file "100%.txt" 0 percent_store in
  is_Some (get_file_metadata "100%.txt" fm') /\
  available_chunks fm' !! "100%.txt" = Some ∅ /\
  disk fm' = disk percent_store /\
  has_complete_file "100%.txt" fm' = false /\
  reconstruct_file "100%.txt" fm' = (false, fm').
Proof.
  exact (percent_in_the_name_stops_the_ingest "100%.txt" 0 percent_store "A"
           eq_refl A_is_not_empty eq_refl).
Defined.

Lemma names_with_one_safe_name_share_storage_witness :
  load_chunk "ab.txt" 0 (process_new_file "a b.txt" 0 spaced_store) = Some "A".
Proof.
  refine (proj1 (names_with_one_safe_name_share_storage "a b.txt" "ab.txt" 0 spaced_store "A"
                   _ _ eq_refl eq_refl A_is_not_empty eq_refl) 0%nat "A" _).
  - repeat (constructor; [reflexivity|]). constructor.
  - repeat (constructor; [reflexivity|]). constructor.
  - vm_compute. reflexivity.
Defined.

Lemma missing_chunk_fails_the_reconstruction_witness :
  (reconstruct_file "f.bin" misnumbered).1 = false.
Proof.
  refine (missing_chunk_fails_the_reconstruction "f.bin" misnumbered meta_A 0
            eq_refl eq_refl _ _ eq_refl).
  - intros existing H. vm_compute in H. discriminate.
  - vm_compute. split; [discriminate|reflexivity].
Defined.

Lemma part_files_are_never_ingested_witness :
  scan_skips "f.part" = true /\
  on_created_skips "f.part" = true /\
  scan_shared_folder_for_new_files [("f.part", 0%Q)] fresh_store
  = scan_shared_folder_for_new_files [] fresh_store /\
  on_created false "f.part" 0 fresh_store = fresh_store.
Proof. exact (part_files_are_never_ingested "f.bin" "f.part" 0 [] fresh_store eq_refl). Defined.

End StoreFacts.

(* ================================================================== *)
(** * Facts about the known peers *)
(* ================================================================== *)

Module PeerDirectoryFacts.
Import PeerDirectory DownloadManager DownloadManagerFacts.

(** ** Lookups in an object *)

Lemma obj_get_app key (m m' : list (string * json)) :
  obj_get key (m ++ m') = match obj_get key m with Some v => Some v | None => obj_get key m' end.
Proof.
  induction m as [|[k v] m IH]; simpl; [done|]. by destruct (String.eqb k key).
Qed.

Lemma obj_get_set_eq key v (m : list (string * json)) :
  obj_get key (Codec.obj_set key v m) = Some v.
Proof.
  induction m as [|[k' v'] m IH]; simpl.
  - by rewrite String.eqb_refl.
  - destruct (String.eqb k' key) eqn:E; simpl; by rewrite E.
Qed.

Lemma obj_get_set_ne key key' v (m : list (string * json)) :
  key <> key' -> obj_get key' (Codec.obj_set key v m) = obj_get key' m.
Proof.
  intros Hne. induction m as [|[k' v'] m IH]; simpl.
  - destruct (String.eqb_spec key key'); [done|done].
  - destruct (String.eqb_spec k' key) as [->|Hk]; simpl.
    + destruct (String.eqb_spec key key'); [done|done].
    + by destruct (String.eqb k' key').
Qed.

Lemma obj_set_keys key v old (m : list (string * json)) :
  obj_get key m = Some old -> List.map fst (Codec.obj_set key v m) = List.map fst m.
Proof.
  induction m as [|[k' v'] m IH]; simpl; [done|].
  destruct (String.eqb k' key); simpl; [done|]. intros H. by rewrite IH.
Qed.

Lemma obj_get_None key (m : list (string * json)) :
  obj_get key m = None <-> key ∉ List.map fst m.
Proof.
  induction m as [|[k v] m IH]; simpl.
  - split; [intros _; apply not_elem_of_nil|done].
  - rewrite not_elem_of_cons. destruct (String.eqb_spec k key) as [->|Hne].
    + split; [done|]. by intros [? _].
    + rewrite IH. split; [by split|by intros [_ ?]].
Qed.

Lemma obj_get_is_Some key (m : list (string * json)) :
  is_Some (obj_get key m) <-> key ∈ List.map fst m.
Proof.
  induction m as [|[k v] m IH]; simpl.
  - split; [by intros [? ?]|by intros ?%elem_of_nil].
  - rewrite elem_of_cons. destruct (String.eqb_spec k key) as [->|Hne].
    + split; [by left|by eexists].
    + rewrite IH. split; [by right|]. by intros [?|?].
Qed.

Lemma obj_get_In key v (m : list (string * json)) :
  NoDup (List.map fst m) -> In (key, v) m -> obj_get key m = Some v.
Proof.
  induction m as [|[k' v'] m IH]; simpl; [done|].
  intros [Hk Hm]%NoDup_cons [[= -> ->]|Hin].
  - by rewrite String.eqb_refl.
  - destruct (String.eqb_spec k' key) as [->|_]; [|by apply IH].
    exfalso. apply Hk. apply list_elem_of_In, in_map_iff. by exists (key, v).
Qed.

Lemma obj_get_filter (P : string -> bool) key (m : list (string * json)) :
  obj_get key (List.filter (fun '(k, _) => P k) m)
  = if P key then obj_get key m else None.
Proof.
  induction m as [|[k v] m IH]; simpl; [by destruct (P key)|].
  destruct (P k) eqn:HP; simpl.
  - destruct (String.eqb_spec k key) as [->|_]; [by rewrite HP|done].
  - destruct (String.eqb_spec k key) as [->|_]; [by rewrite IH, HP|done].
Qed.

(** [stored.update(peer_info)] for two dictionaries. *)
Definition updated (old new : list (string * json)) : list (string * json) :=
  fold_left (fun d kv => Codec.obj_set kv.1 kv.2 d) new old.

Lemma obj_get_updated key (new : list (string * json)) : forall old,
  NoDup (List.map fst new) ->
  obj_get key (updated old new)
  = match obj_get key new with Some v => Some v | None => obj_get key old end.
Proof.
  unfold updated. induction new as [|[k v] new IH]; intros old Hnd; simpl; [done|].
  apply NoDup_cons in Hnd as [Hk Hnd]. rewrite IH by done. cbn [fst snd] in *.
  destruct (String.eqb_spec k key) as [->|Hne].
  - apply obj_get_None in Hk. rewrite Hk. apply obj_get_set_eq.
  - destruct (obj_get key new); [done|]. by apply obj_get_set_ne.
Qed.


(** ** The merge of a peers list *)

Definition all_objects (m : list (string * json)) : Prop :=
  Forall (fun p => exists info, p.2 = JObj info) m.

Lemma all_objects_get pid v m : all_objects m -> obj_get pid m = Some v -> exists info, v = JObj info.
Proof.
  induction 1 as [|[k v'] m Hv Hm IH]; simpl; [done|].
  destruct (String.eqb k pid); [|done]. intros [= <-]. exact Hv.
Qed.

Lemma all_objects_set pid info m :
  all_objects m -> all_objects (Codec.obj_set pid (JObj info) m).
Proof.
  induction 1 as [|[k v'] m Hv Hm IH]; simpl.
  - repeat constructor. by eexists.
  - destruct (String.eqb k pid); constructor; try done. by eexists.
Qed.

(** The entry of a peer after the merge: the relayed entry, over the entry
    the peer had if it was known. *)
Definition merged_entry (stored : option json) (peer_info : json) : json :=
  match stored, peer_info with
  | Some (JObj old), JObj new => JObj (updated old new)
  | _, _ => peer_info
  end.

Definition unknown_in (known : list (string * json)) (pid : string) : bool :=
  match obj_get pid known with None => true | Some _ => false end.

Lemma merge_peers_spec new_peers : forall known,
  NoDup (List.map fst new_peers) ->
  all_objects new_peers ->
  all_objects known ->
  exists merged,
    merge_peers new_peers known = Done merged /\
    List.map fst merged
    = List.map fst known ++ List.filter (unknown_in known) (List.map fst new_peers) /\
    all_objects merged /\
    forall pid,
      obj_get pid merged
      = match obj_get pid new_peers with
        | Some peer_info => Some (merged_entry (obj_get pid known) peer_info)
        | None => obj_get pid known
        end.
Proof.
  induction new_peers as [|[peer_id peer_info] rest IH]; intros known Hnd Hnew Hknown.
  - exists known. simpl. rewrite app_nil_r. done.
  - apply NoDup_cons in Hnd as [Hfresh Hnd]. apply Forall_cons in Hnew as [[new Heq] Hnew].
    cbn [fst snd] in *. subst peer_info. apply obj_get_None in Hfresh.
    cbn [merge_peers]. destruct (obj_get peer_id known) as [stored|] eqn:Hstored.
    + destruct (all_objects_get _ _ _ Hknown Hstored) as [old ->]. cbn [dict_update].
      destruct (IH (Codec.obj_set peer_id (JObj (updated old new)) known) Hnd Hnew
                  (all_objects_set _ _ _ Hknown)) as (merged & Hrun & Hkeys & Hall & Hget).
      exists merged. split; [exact Hrun|]. split; [|split; [done|]].
      * rewrite Hkeys, (obj_set_keys _ _ _ _ Hstored). f_equal.
        cbn [List.map fst List.filter]. unfold unknown_in at 2. rewrite Hstored.
        apply filter_ext_in. intros pid Hin. unfold unknown_in.
        rewrite obj_get_set_ne; [done|]. intros <-.
        apply obj_get_None in Hfresh. by apply Hfresh, list_elem_of_In.
      * intros pid. rewrite Hget. cbn [obj_get].
        destruct (String.eqb_spec peer_id pid) as [<-|Hne].
        -- rewrite Hfresh, obj_get_set_eq, Hstored. done.
        -- by rewrite obj_get_set_ne.
    + destruct (IH (known ++ [(peer_id, JObj new)]) Hnd Hnew) as (merged & Hrun & Hkeys & Hall & Hget).
      { apply Forall_app. split; [done|]. repeat constructor. by eexists. }
      exists merged. split; [exact Hrun|]. split; [|split; [done|]].
      * rewrite Hkeys, map_app, <- app_assoc. f_equal.
        cbn [List.map fst List.filter app]. unfold unknown_in at 2. rewrite Hstored. f_equal.
        apply filter_ext_in. intros pid Hin. unfold unknown_in.
        rewrite obj_get_app. cbn [obj_get].
        destruct (String.eqb_spec peer_id pid) as [<-|_]; [|by destruct (obj_get pid known)].
        exfalso. apply obj_get_None in Hfresh. by apply Hfresh, list_elem_of_In.
      * intros pid. rewrite Hget, obj_get_app. cbn [obj_get].
        destruct (String.eqb_spec peer_id pid) as [<-|Hne].
        -- by rewrite Hfresh, Hstored.
        -- destruct (obj_get pid rest); [|by destruct (obj_get pid known)].
           by destruct (obj_get pid known).
Qed.


Lemma keys_filter (P : string -> bool) (m : list (string * json)) :
  List.map fst (List.filter (fun '(k, _) => P k) m) = List.filter P (List.map fst m).
Proof.
  induction m as [|[k v] m IH]; simpl; [done|]. destruct (P k); simpl; by rewrite IH.
Qed.

Lemma all_objects_filter (P : string * json -> bool) m :
  all_objects m -> all_objects (List.filter P m).
Proof.
  induction 1 as [|p m Hp Hm IH]; simpl; [constructor|].
  destruct (P p); [by constructor|done].
Qed.

Lemma NoDup_filter_list {A} (P : A -> bool) (l : list A) : NoDup l -> NoDup (List.filter P l).
Proof.
  induction 1 as [|x l Hx Hl IH]; simpl; [constructor|].
  destruct (P x); [|done]. constructor; [|done].
  intros Hin. apply Hx. apply list_elem_of_In in Hin. apply filter_In in Hin as [Hin _].
  by apply list_elem_of_In.
Qed.

(** X16: _process_tracker_response on a response with status success whose
    peers is a dictionary of dictionaries, the known peers being dictionaries
    too, returns and sets last_tracker_response_time to the clock. The known
    peers then have exactly the peer ids of the response: a peer the response
    lacks is dropped, a new peer gets the relayed entry, and a peer that was
    known gets its old entry updated key by key (a key of the relayed entry
    takes the relayed value, a key only the old entry has keeps its value). *)
Theorem tracker_response_replaces_the_peer_list fields new_peers now nm :
  obj_get "status" fields = Some (JStr "success") ->
  obj_get "peers" fields = Some (JObj new_peers) ->
  NoDup (List.map fst new_peers) ->
  all_objects new_peers ->
  NoDup (List.map fst (known_peers nm)) ->
  all_objects (known_peers nm) ->
  exists nm',
    _process_tracker_response (JObj fields) now nm = Done nm' /\
    last_tracker_response_time nm' = now /\
    List.map fst (known_peers nm') ≡ₚ List.map fst new_peers /\
    NoDup (List.map fst (known_peers nm')) /\
    all_objects (known_peers nm') /\
    (forall pid,
       obj_get pid (known_peers nm')
       = match obj_get pid new_peers with
         | Some peer_info => Some (merged_entry (obj_get pid (known_peers nm)) peer_info)
         | None => None
         end) /\
    (forall pid old new key,
       obj_get pid (known_peers nm) = Some (JObj old) ->
       obj_get pid new_peers = Some (JObj new) ->
       NoDup (List.map fst new) ->
       exists info,
         obj_get pid (known_peers nm') = Some (JObj info) /\
         obj_get key info
         = match obj_get key new with Some v => Some v | None => obj_get key old end).
Proof.
  intros Hstatus Hpeers Hnd Hnew Hndk Hknown.
  destruct (merge_peers_spec new_peers (known_peers nm) Hnd Hnew Hknown)
    as (merged & Hrun & Hkeys & Hall & Hget).
  cbn [_process_tracker_response]. rewrite Hstatus, Hpeers, Hrun.
  set (present := fun pid => match obj_get pid new_peers with Some _ => true | None => false end).
  eexists. split; [reflexivity|]. cbn [known_peers last_tracker_response_time].
  change (List.filter _ merged) with (List.filter (fun '(pid, _) => present pid) merged).
  assert (forall pid,
            obj_get pid (List.filter (fun '(pid, _) => present pid) merged)
            = match obj_get pid new_peers with
              | Some peer_info => Some (merged_entry (obj_get pid (known_peers nm)) peer_info)
              | None => None
              end) as Hget'.
  { intros pid. rewrite obj_get_filter, Hget. unfold present.
    by destruct (obj_get pid new_peers). }
  assert (NoDup (List.map fst (List.filter (fun '(pid, _) => present pid) merged))) as Hnd'.
  { rewrite keys_filter. apply NoDup_filter_list. rewrite Hkeys.
    apply NoDup_app. split; [done|]. split; [|by apply NoDup_filter_list].
    intros pid Hin Hin'. apply list_elem_of_In, filter_In in Hin' as [_ Hun].
    unfold unknown_in in Hun. destruct (obj_get pid (known_peers nm)) eqn:E; [done|].
    by apply obj_get_None in E. }
  split; [done|]. split; [|split; [done|split; [by apply all_objects_filter|split; [done|]]]].
  - apply NoDup_Permutation; [done|done|]. intros pid.
    rewrite <- !obj_get_is_Some, Hget'. destruct (obj_get pid new_peers); [|done].
    split; by eexists.
  - intros pid old new key Hold Hinfo Hndn. rewrite Hget', Hinfo, Hold. cbn [merged_entry].
    eexists. split; [reflexivity|]. by apply obj_get_updated.
Qed.

(** ** Who has a chunk *)

Lemma lists_chunk_well_formed file_name chunk_index info :
  well_formed_peer file_name info ->
  lists_chunk file_name chunk_index info
  = Some (List.existsb (py_eq (JInt chunk_index)) (advertised file_name info)) /\
  (List.existsb (py_eq (JInt chunk_index)) (advertised file_name info) = true ->
   advertises file_name info = Some true) /\
  is_Some (advertises file_name info).
Proof.
  intros (fields & peer_files & -> & Hfiles & Hlist). unfold lists_chunk, advertised, advertises.
  rewrite Hfiles. destruct Hlist as [->|(l & -> & _)]; by eauto.
Qed.

(** X17: For known peers whose entries are well formed (files maps the file,
    if present, to a list of hashable values), find_peers_with_chunk and
    find_peers_with_file return without an exception; the number of peers
    find_peers_with_chunk returns is the number of known peers that list the
    chunk, which is the score _get_rarest_chunks_first gives the chunk when no
    list repeats a chunk; every peer it returns is also returned by
    find_peers_with_file, and that one returns known peers only. *)
Theorem chunk_holders_match_the_rarity_score file_name chunk_index nm :
  Forall (well_formed_peer file_name) (List.map snd (known_peers nm)) ->
  exists holders advertisers,
    find_peers_with_chunk file_name chunk_index nm = Some holders /\
    find_peers_with_file file_name nm = Some advertisers /\
    Z.of_nat (List.length holders) = peers_listing file_name (known_peers nm) chunk_index /\
    (Forall (lists_a_set file_name) (List.map snd (known_peers nm)) ->
     Z.of_nat (List.length holders) = rarity_score file_name (known_peers nm) chunk_index) /\
    (forall peer, In peer holders -> In peer advertisers) /\
    (forall peer, In peer advertisers -> In peer (known_peers nm)).
Proof.
  unfold find_peers_with_chunk, find_peers_with_file.
  induction (known_peers nm) as [|[peer_id info] known IH]; intros Hwf.
  - exists [], []. by repeat split.
  - cbn [List.map snd] in Hwf. apply Forall_cons in Hwf as [Hinfo Hwf].
    destruct (IH Hwf) as (holders & advertisers & Hh & Ha & Hcount & Hscore & Hincl & Hknown).
    destruct (lists_chunk_well_formed file_name chunk_index info Hinfo) as (Hl & Hadv & [adv Ha']).
    cbn [select_peers]. rewrite Hl, Hh, Ha', Ha.
    eexists _, _. split; [reflexivity|]. split; [reflexivity|].
    assert (Z.of_nat (List.length
              (if List.existsb (py_eq (JInt chunk_index)) (advertised file_name info)
               then (peer_id, info) :: holders else holders))
            = peers_listing file_name ((peer_id, info) :: known) chunk_index) as Hcount'.
    { cbn [peers_listing fold_right snd]. fold (peers_listing file_name known chunk_index).
      rewrite <- Hcount. destruct (List.existsb _ _); cbn [b2z List.length]; lia. }
    split; [exact Hcount'|]. split; [|split].
    + intros Hsets. rewrite Hcount'. symmetry. by apply rarity_score_counts_peers.
    + intros peer Hin. destruct (List.existsb _ _) eqn:E.
      * specialize (Hadv eq_refl). rewrite Ha' in Hadv. injection Hadv as ->.
        destruct Hin as [<-|Hin]; [by left|right; by apply Hincl].
      * destruct adv; [right|]; by apply Hincl.
    + intros peer Hin. destruct adv; [destruct Hin as [<-|Hin]; [by left|]|];
        right; by apply Hknown.
Qed.


(** ** A sample response *)

(** The peer knows the swarm, and the tracker answers with C, whose list has
    grown, and a new peer D; A is not in the answer any more. *)
Definition knows_the_swarm : network_manager :=
  {| known_peers := swarm; last_tracker_response_time := 0 |}.

Definition relayed_peers : list (string * json) :=
  [("C", JObj [("files", JObj [("x.bin", JArr [JInt 1; JInt 2])])]);
   ("D", JObj [("addr", JStr "10.0.0.4:8000"); ("files", JObj [])])].

Definition peers_response : list (string * json) :=
  [("status", JStr "success"); ("peers", JObj relayed_peers)].

Lemma relayed_peers_NoDup : NoDup (List.map fst relayed_peers).
Proof. compute_done. Defined.

Lemma relayed_peers_objects : all_objects relayed_peers.
Proof. repeat constructor; by eexists. Defined.

Lemma swarm_NoDup : NoDup (List.map fst swarm).
Proof. compute_done. Defined.

Lemma swarm_objects : all_objects swarm.
Proof. repeat constructor; by eexists. Defined.

Lemma tracker_response_replaces_the_peer_list_witness :
  exists nm',
    _process_tracker_response (JObj peers_response) 50 knows_the_swarm = Done nm' /\
    last_tracker_response_time nm' = 50%Q /\
    List.map fst (known_peers nm') ≡ₚ ["C"; "D"] /\
    obj_get "A" (known_peers nm') = None.
Proof.
  destruct (tracker_response_replaces_the_peer_list peers_response relayed_peers 50
              knows_the_swarm eq_refl eq_refl relayed_peers_NoDup relayed_peers_objects
              swarm_NoDup swarm_objects)
    as (nm' & Hrun & Htime & Hkeys & _ & _ & Hget & _).
  exists nm'. split; [exact Hrun|]. split; [exact Htime|]. split; [exact Hkeys|].
  exact (Hget "A").
Defined.

Lemma chunk_holders_match_the_rarity_score_witness :
  exists holders advertisers,
    find_peers_with_chunk "x.bin" 2 knows_the_swarm = Some holders /\
    find_peers_with_file "x.bin" knows_the_swarm = Some advertisers /\
    Z.of_nat (List.length holders) = peers_listing "x.bin" swarm 2 /\
    (Forall (lists_a_set "x.bin") (List.map snd swarm) ->
     Z.of_nat (List.length holders) = rarity_score "x.bin" swarm 2) /\
    (forall peer, In peer holders -> In peer advertisers) /\
    (forall peer, In peer advertisers -> In peer swarm).
Proof. exact (chunk_holders_match_the_rarity_score "x.bin" 2 knows_the_swarm swarm_well_formed). Defined.

End PeerDirectoryFacts.

(* ================================================================== *)
(** * Facts about the datagrams of the peer *)
(* ================================================================== *)

Module FramingFacts.
Import NetworkManager FileManagerFacts.


Section framing.
Variable zlib_compress : bytes -> bytes.
Variable zlib_decompress : bytes -> option bytes.
Hypothesis zlib_round_trip : forall data, zlib_decompress (zlib_compress data) = Some data.


End framing.


End FramingFacts.

(* ================================================================== *)
(** * Facts about the connections between peers *)
(* ================================================================== *)

Module ConnectionFacts.
Import FileManager PeerDirectory Connections FileManagerFacts.
#[local] Opaque CHUNK_SIZE.

(** ** Strings *)

Lemma string_app_split (a b c d : string) :
  a +:+ b = c +:+ d ->
  (String.length a <= String.length c)%nat ->
  exists c', c = a +:+ c' /\ b = c' +:+ d.
Proof.
  revert c. induction a as [|x a IH]; intros c Heq Hlen.
  - exists c. by rewrite !string_app_nil_l in *.
  - destruct c as [|y c]; [simpl in Hlen; lia|].
    rewrite !string_app_cons in Heq. injection Heq as -> Heq.
    destruct (IH c Heq) as (c' & -> & ->); [simpl in Hlen; lia|].
    exists c'. by rewrite string_app_cons.
Qed.

Lemma string_eqb_empty (s : string) : String.eqb s "" = true <-> s = "".
Proof. by destruct s. Qed.

Lemma string_length_zero (s : string) : String.length s = 0%nat <-> s = "".
Proof. by destruct s. Qed.

Lemma string_length_pos (s : string) : s <> "" -> (0 < String.length s)%nat.
Proof. destruct s; [done|]. simpl. lia. Qed.

(** ** [recv] *)

Lemma recv_join bufsize s data s' : recv bufsize s = (data, s') -> data +:+ join s' = join s.
Proof.
  revert data s'. induction s as [|piece rest IH]; intros data s'; cbn [recv].
  - by intros [= <- <-].
  - destruct (String.eqb piece "") eqn:E.
    + apply string_eqb_empty in E as ->. intros H. cbn [join fold_right].
      rewrite string_app_nil_l. by apply IH.
    + destruct (bufsize =? 0)%N; [by intros [= <- <-]|].
      destruct (read bufsize piece) as [d remaining] eqn:R. intros [= <- <-].
      apply read_app in R as <-.
      destruct (String.eqb remaining "") eqn:E'.
      * apply string_eqb_empty in E' as ->. by rewrite string_app_nil_r.
      * cbn [join fold_right]. by rewrite string_app_assoc.
Qed.

Lemma recv_length bufsize s data s' :
  recv bufsize s = (data, s') -> (String.length data <= N.to_nat bufsize)%nat.
Proof.
  revert data s'. induction s as [|piece rest IH]; intros data s'; cbn [recv].
  - intros [= <- <-]. simpl. lia.
  - destruct (String.eqb piece ""); [apply IH|].
    destruct (bufsize =? 0)%N; [intros [= <- <-]; simpl; lia|].
    destruct (read bufsize piece) as [d remaining] eqn:R. intros [= <- <-].
    apply read_length in R. lia.
Qed.

(** [recv] returns nothing only at the end of the stream or when nothing is asked. *)
Lemma recv_nothing bufsize s data s' :
  recv bufsize s = (data, s') -> data = "" -> bufsize = 0%N \/ join s = "".
Proof.
  revert data s'. induction s as [|piece rest IH]; intros data s'; cbn [recv].
  - by right.
  - destruct (String.eqb piece "") eqn:E.
    + apply string_eqb_empty in E as ->. cbn [join fold_right]. rewrite string_app_nil_l.
      apply IH.
    + destruct (N.eqb_spec bufsize 0) as [->|Hn]; [by left|].
      destruct (read bufsize piece) as [d remaining] eqn:R. intros [= <- <-] ->.
      apply read_length in R. simpl in R.
      destruct piece; [done|]. simpl in R. lia.
Qed.


(** ** The loop that receives the chunk *)

(** With [chunk_size] turns the loop ends. *)
Lemma recv_chunk_turns chunk_size fuel : forall data s,
  chunk_size - Z.of_nat (String.length data) <= Z.of_nat fuel ->
  (recv_chunk fuel chunk_size data s).1 <> OutOfTurns.
Proof.
  induction fuel as [|fuel IH]; intros data s Hfuel; cbn [recv_chunk];
    destruct (Z.ltb_spec (Z.of_nat (String.length data)) chunk_size) as [Hlt|Hge];
    try done; try lia.
  destruct (recv _ s) as [packet s'] eqn:R.
  destruct (String.eqb packet "") eqn:E; [done|].
  apply IH. rewrite string_app_length.
  assert (packet <> "") as Hne%string_length_pos by (intros ->; done). lia.
Qed.

(** The bytes that are to arrive begin with the bytes wanted: the loop
    returns them, however they are cut into pieces. *)
Lemma recv_chunk_all chunk_size fuel : forall data s wanted tail,
  join s = wanted +:+ tail ->
  Z.of_nat (String.length data) + Z.of_nat (String.length wanted) = chunk_size ->
  (String.length wanted <= fuel)%nat ->
  exists s',
    recv_chunk fuel chunk_size data s = (Received (data +:+ wanted), s') /\ join s' = tail.
Proof.
  induction fuel as [|fuel IH]; intros data s wanted tail Hjoin Hsize Hfuel.
  - assert (wanted = "") as -> by (apply string_length_zero; lia).
    cbn [recv_chunk]. rewrite string_app_nil_r.
    destruct (Z.ltb_spec (Z.of_nat (String.length data)) chunk_size); [simpl in Hsize; lia|].
    by exists s.
  - cbn [recv_chunk].
    destruct (Z.ltb_spec (Z.of_nat (String.length data)) chunk_size) as [Hlt|Hge].
    + destruct (recv _ s) as [packet s'] eqn:R.
      pose proof (recv_join _ _ _ _ R) as Hj. pose proof (recv_length _ _ _ _ R) as Hl.
      rewrite Hjoin in Hj.
      destruct (string_app_split packet (join s') wanted tail Hj) as (wanted' & -> & Hj'); [lia|].
      destruct (String.eqb packet "") eqn:E.
      * apply string_eqb_empty in E. destruct (recv_nothing _ _ _ _ R E) as [Hz|He]; [lia|].
        rewrite He in Hjoin. symmetry in Hjoin.
        apply (f_equal String.length) in Hjoin. rewrite !string_app_length in Hjoin.
        simpl in Hjoin. rewrite string_app_length in Hsize. subst packet. simpl in *. lia.
      * assert (packet <> "") as Hne%string_length_pos by (intros ->; done).
        rewrite string_app_length in Hsize, Hfuel.
        destruct (IH (data +:+ packet) s' wanted' tail Hj') as (s'' & Hrun & Hj'').
        { rewrite string_app_length. lia. }
        { lia. }
        exists s''. by rewrite Hrun, string_app_assoc.
    + assert (wanted = "") as -> by (apply string_length_zero; lia).
      rewrite string_app_nil_r. by exists s.
Qed.

(** ** The length prefix *)

Lemma pack_u32_length n size_bytes : pack_u32 n = Some size_bytes -> String.length size_bytes = 4%nat.
Proof.
  unfold pack_u32. destruct (_ && _); [|discriminate]. intros H.
  apply (inj Some) in H. by rewrite <- H.
Qed.

Lemma N_of_byte_of (n : Z) : Z.of_N (N_of_ascii (byte_of n)) = n mod 256.
Proof.
  unfold byte_of. pose proof (Z.mod_pos_bound n 256 ltac:(lia)).
  rewrite N_ascii_embedding by lia. lia.
Qed.

#[local] Opaque byte_of.

Lemma unpack_pack_u32 n size_bytes : pack_u32 n = Some size_bytes -> unpack_u32 size_bytes = Some n.
Proof.
  unfold pack_u32. destruct (Z.leb_spec 0 n) as [H0|]; [|discriminate].
  destruct (Z.ltb_spec n 4294967296) as [H1|]; [|discriminate]. cbn [andb].
  intros H. apply (inj Some) in H. rewrite <- H. cbn [unpack_u32].
  rewrite !N_of_byte_of. f_equal.
  rewrite !Z.shiftr_div_pow2 by lia.
  change (2 ^ 8) with 256. change (2 ^ 16) with (256 * 256).
  change (2 ^ 24) with (256 * 256 * 256).
  rewrite <- !Z.div_div by lia.
  pose proof (Z.div_mod n 256 ltac:(lia)).
  pose proof (Z.div_mod (n / 256) 256 ltac:(lia)).
  pose proof (Z.div_mod (n / 256 / 256) 256 ltac:(lia)).
  pose proof (Z.mod_pos_bound n 256 ltac:(lia)).
  pose proof (Z.mod_pos_bound (n / 256) 256 ltac:(lia)).
  pose proof (Z.mod_pos_bound (n / 256 / 256) 256 ltac:(lia)).
  assert (0 <= n / 256 / 256 / 256 < 256) as Htop.
  { split; [repeat apply Z.div_pos; lia|].
    repeat (apply Z.div_lt_upper_bound; [lia|]). lia. }
  rewrite (Z.mod_small (n / 256 / 256 / 256)) by lia. lia.
Qed.


(** ** Frames *)

Lemma string_app_same_length (a b c d : string) :
  a +:+ b = c +:+ d -> String.length a = String.length c -> a = c /\ b = d.
Proof.
  intros Heq Hlen. destruct (string_app_split a b c d Heq) as (c' & -> & ->); [lia|].
  rewrite string_app_length in Hlen.
  assert (c' = "") as -> by (apply string_length_zero; lia).
  by rewrite string_app_nil_r, string_app_nil_l.
Qed.

(** The length prefix and the header it announces arrive in one piece each:
    the two calls of [recv] for them return all that is asked, or all that
    is to come. *)
Definition header_whole (s : stream) : Prop :=
  String.length (recv 4 s).1 = Nat.min 4 (String.length (join s)) /\
  forall header_size,
    unpack_u32 (recv 4 s).1 = Some header_size ->
    String.length (recv (Z.to_N header_size) (recv 4 s).2).1
    = Nat.min (Z.to_nat header_size) (String.length (join (recv 4 s).2)).

(** [json.loads] gives the header back from its serialization, which is
    shorter than 4 GiB. *)
Definition faithful (json_dumps : json -> bytes) (header : json) : Prop :=
  (text ← Codec.decode_utf8 (json_dumps header); Codec.loads text) = Some header /\
  Z.of_nat (String.length (json_dumps header)) < 4294967296.

Definition body_of (data : option bytes) : bytes :=
  match data with Some (String c d) => String c d | _ => "" end.

Lemma send_tcp_request_frame json_dumps header data :
  faithful json_dumps header ->
  exists size_bytes,
    pack_u32 (Z.of_nat (String.length (json_dumps header))) = Some size_bytes /\
    _send_tcp_request json_dumps header data
    = Some (size_bytes +:+ json_dumps header +:+ body_of data).
Proof.
  intros [_ Hshort]. unfold _send_tcp_request, pack_u32.
  destruct (Z.leb_spec 0 (Z.of_nat (String.length (json_dumps header)))); [|lia].
  destruct (Z.ltb_spec (Z.of_nat (String.length (json_dumps header))) 4294967296); [|lia].
  cbn [andb]. by eexists.
Qed.

(** The header of a frame that arrives with its header whole. *)
Lemma read_header json_dumps header data frame s tail :
  faithful json_dumps header ->
  _send_tcp_request json_dumps header data = Some frame ->
  join s = frame +:+ tail ->
  header_whole s ->
  exists size_bytes s1 s2,
    recv 4 s = (size_bytes, s1) /\ size_bytes <> "" /\
    unpack_u32 size_bytes = Some (Z.of_nat (String.length (json_dumps header))) /\
    recv (Z.to_N (Z.of_nat (String.length (json_dumps header)))) s1 = (json_dumps header, s2) /\
    join s2 = body_of data +:+ tail.
Proof.
  intros Hfaithful Hsend Hjoin [Hfour Hheader].
  destruct (send_tcp_request_frame json_dumps header data Hfaithful) as (size_bytes & Hpack & Hframe).
  rewrite Hframe in Hsend. injection Hsend as <-.
  destruct (recv 4 s) as [p s1] eqn:R1. cbn [fst snd] in *.
  pose proof (recv_join _ _ _ _ R1) as Hj1. rewrite Hjoin, !string_app_assoc in Hj1.
  destruct (string_app_same_length _ _ _ _ Hj1) as [-> Hj1'].
  { rewrite Hfour, Hjoin, !string_app_length, (pack_u32_length _ _ Hpack). lia. }
  pose proof (unpack_pack_u32 _ _ Hpack) as Hunpack.
  specialize (Hheader _ Hunpack).
  destruct (recv (Z.to_N (Z.of_nat (String.length (json_dumps header)))) s1) as [h s2] eqn:R2.
  cbn [fst] in Hheader.
  pose proof (recv_join _ _ _ _ R2) as Hj2. rewrite Hj1' in Hj2.
  destruct (string_app_same_length _ _ _ _ Hj2) as [-> Hj2'].
  { rewrite Hheader, Hj1', !string_app_length. lia. }
  exists size_bytes, s1, s2. split; [done|]. split; [|done].
  intros ->. apply pack_u32_length in Hpack. done.
Qed.

Lemma read_tcp_response_start json_dumps header data frame s tail :
  faithful json_dumps header ->
  _send_tcp_request json_dumps header data = Some frame ->
  join s = frame +:+ tail ->
  header_whole s ->
  exists s2,
    join s2 = body_of data +:+ tail /\
    _read_tcp_response s
    = match header with
      | JObj fields =>
          let loop (chunk_size : Z) :=
            match recv_chunk (Z.to_nat chunk_size) chunk_size "" s2 with
            | (Received data, s3) => (Read (Some header) (Some data), s3)
            | (_, s3) => (Read (Some header) None, s3)
            end in
          match obj_get "status" fields, obj_get "chunk_size" fields with
          | Some (JStr "success"), Some chunk_size =>
              match chunk_size with
              | JInt z => loop z
              | JBool b => loop (if b then 1 else 0)
              | JFloat f =>
                  if float_positive f then (ReadRaised, s2)
                  else (Read (Some header) (Some ""), s2)
              | _ => (ReadRaised, s2)
              end
          | _, _ => (Read (Some header) None, s2)
          end
      | _ => (ReadRaised, s2)
      end.
Proof.
  intros Hfaithful Hsend Hjoin Hwhole.
  destruct (read_header _ _ _ _ _ _ Hfaithful Hsend Hjoin Hwhole)
    as (size_bytes & s1 & s2 & R1 & Hne & Hunpack & R2 & Hj).
  exists s2. split; [done|]. unfold _read_tcp_response. rewrite R1.
  destruct (String.eqb size_bytes "") eqn:E; [by apply string_eqb_empty in E|].
  rewrite Hunpack, R2. destruct Hfaithful as [-> _]. by destruct header.
Qed.


Lemma a_frame_is_read_back_lemma json_dumps fields chunk_data frame s tail :
  faithful json_dumps (JObj fields) ->
  obj_get "status" fields = Some (JStr "success") ->
  obj_get "chunk_size" fields = Some (JInt (Z.of_nat (String.length chunk_data))) ->
  _send_tcp_request json_dumps (JObj fields) (Some chunk_data) = Some frame ->
  join s = frame +:+ tail ->
  header_whole s ->
  exists s',
    _read_tcp_response s = (Read (Some (JObj fields)) (Some chunk_data), s') /\
    join s' = tail.
Proof.
  intros Hfaithful Hstatus Hsize Hsend Hjoin Hwhole.
  destruct (read_tcp_response_start _ _ _ _ _ _ Hfaithful Hsend Hjoin Hwhole)
    as (s2 & Hj & ->).
  rewrite Hstatus, Hsize. cbv beta iota zeta. rewrite Nat2Z.id.
  assert (body_of (Some chunk_data) = chunk_data) as Hbody by (by destruct chunk_data).
  rewrite Hbody in Hj.
  destruct (recv_chunk_all (Z.of_nat (String.length chunk_data)) (String.length chunk_data)
              "" s2 chunk_data tail Hj) as (s' & -> & Hj'); [simpl; lia|lia|].
  exists s'. by rewrite string_app_nil_l.
Qed.

(** X19: _read_tcp_response reads back what _send_tcp_request has written for
    a header with status success and chunk_size = len(data) followed by the
    data: it returns that header and exactly the data, and leaves on the
    connection the bytes that follow the frame, in whatever pieces the body
    arrives. This holds when json.loads gives the header back from its
    serialization (shorter than 4 GiB) and the length prefix and the header
    arrive whole each. *)
Theorem a_frame_is_read_back json_dumps fields chunk_data frame s tail :
  faithful json_dumps (JObj fields) ->
  obj_get "status" fields = Some (JStr "success") ->
  obj_get "chunk_size" fields = Some (JInt (Z.of_nat (String.length chunk_data))) ->
  _send_tcp_request json_dumps (JObj fields) (Some chunk_data) = Some frame ->
  join s = frame +:+ tail ->
  header_whole s ->
  exists s',
    _read_tcp_response s = (Read (Some (JObj fields)) (Some chunk_data), s') /\
    join s' = tail.
Proof. apply a_frame_is_read_back_lemma. Qed.

(** X20: When the first piece that arrives on a connection has one to three
    bytes, _read_tcp_response raises: recv(4) is called once and its result is
    unpacked as it is, the method does not wait for the four bytes of the
    length prefix. request_chunk on such a connection returns None, whatever
    the server has sent. *)
Theorem a_split_length_prefix_fails_the_read piece rest :
  (0 < String.length piece < 4)%nat ->
  (_read_tcp_response (piece :: rest)).1 = ReadRaised /\
  (forall json_dumps connection file_name chunk_index,
     (forall request, connection request = piece :: rest) ->
     request_chunk json_dumps connection file_name chunk_index = None).
Proof.
  intros Hlen.
  assert (_read_tcp_response (piece :: rest)
          = (ReadRaised, rest)) as Hread.
  { unfold _read_tcp_response. cbn [recv].
    destruct (String.eqb piece "") eqn:E.
    { apply string_eqb_empty in E as ->. simpl in Hlen. lia. }
    change (4 =? 0)%N with false. cbv iota.
    destruct piece as [|a [|b [|c [|d piece]]]]; simpl in Hlen; try lia; reflexivity. }
  split; [by rewrite Hread|].
  intros json_dumps connection file_name chunk_index Hconn. unfold request_chunk.
  destruct (_send_tcp_request _ _ _) as [request|]; [|done].
  by rewrite Hconn, Hread.
Qed.

(** ** A chunk from one peer to another *)

(** The connection leads to the server of the store [fm]: the request
    arrives there with its header whole, and what the server writes arrives
    with its header whole. *)
Definition links_to (json_dumps : json -> bytes) (fm : file_manager)
    (connection : bytes -> stream) : Prop :=
  forall request,
    exists at_server,
      join at_server = request /\ header_whole at_server /\
      match _handle_tcp_client json_dumps at_server fm with
      | Done response | Raises response =>
          join (connection request) = response /\ header_whole (connection request)
      | NotFollowed => True
      end.

Definition get_chunk_header (file_name : string) (chunk_index : Z) : json :=
  JObj [("command", JStr "GET_CHUNK"); ("file_name", JStr file_name);
        ("chunk_index", JInt chunk_index)].

Definition chunk_header (chunk_data : bytes) : json :=
  JObj [("status", JStr "success");
        ("chunk_size", JInt (Z.of_nat (String.length chunk_data)))].

Lemma server_serves_chunk json_dumps file_name chunk_index fm chunk_data request at_server :
  load_chunk file_name chunk_index fm = Some chunk_data ->
  chunk_data <> "" ->
  faithful json_dumps (get_chunk_header file_name chunk_index) ->
  _send_tcp_request json_dumps (get_chunk_header file_name chunk_index) None = Some request ->
  join at_server = request ->
  header_whole at_server ->
  _handle_tcp_client json_dumps at_server fm
  = written (_send_tcp_request json_dumps (chunk_header chunk_data) (Some chunk_data)).
Proof.
  intros Hload Hne Hreq Hsend Hj Hwhole. unfold _handle_tcp_client.
  destruct (read_tcp_response_start json_dumps _ None request at_server ""
              Hreq Hsend) as (s2 & _ & ->); [by rewrite string_app_nil_r|done|].
  unfold get_chunk_header, chunk_header.
  cbn -[load_chunk _send_tcp_request String.length]. rewrite Hload. by destruct chunk_data.
Qed.

Lemma request_chunk_served json_dumps connection file_name chunk_index fm chunk_data :
  load_chunk file_name chunk_index fm = Some chunk_data ->
  chunk_data <> "" ->
  faithful json_dumps (get_chunk_header file_name chunk_index) ->
  faithful json_dumps (chunk_header chunk_data) ->
  links_to json_dumps fm connection ->
  request_chunk json_dumps connection file_name chunk_index = Some chunk_data.
Proof.
  intros Hload Hne Hreq Hresp Hlink. unfold request_chunk.
  fold (get_chunk_header file_name chunk_index).
  destruct (send_tcp_request_frame json_dumps _ None Hreq) as (size_bytes & _ & Hsend).
  rewrite Hsend. set (request := size_bytes +:+ _) in *.
  destruct (Hlink request) as (at_server & Hj & Hwhole & Hserver).
  assert (_handle_tcp_client json_dumps at_server fm
          = written (_send_tcp_request json_dumps (chunk_header chunk_data) (Some chunk_data)))
    as Hhandled by (by eapply server_serves_chunk).
  destruct (send_tcp_request_frame json_dumps _ (Some chunk_data) Hresp)
    as (size_bytes' & _ & Hsend').
  rewrite Hhandled, Hsend' in Hserver. cbn [written] in Hserver.
  destruct Hserver as [Hj' Hwhole'].
  destruct (a_frame_is_read_back_lemma json_dumps _ chunk_data _ (connection request) ""
              Hresp eq_refl eq_refl Hsend') as (s' & -> & _);
    [by rewrite string_app_nil_r|done|].
  reflexivity.
Qed.

(** X21: request_chunk, over a connection to the server of a peer that has the
    chunk on disk with at least one byte, returns exactly the bytes load_chunk
    returns at that peer; what crosses the connection is the GET_CHUNK frame
    and, back, the frame of a success header with chunk_size and the chunk.
    The serialization of the two headers is faithful and the length prefix and
    the header of each message arrive whole. *)
Theorem a_stored_chunk_travels_intact json_dumps connection file_name chunk_index fm chunk_data :
  load_chunk file_name chunk_index fm = Some chunk_data ->
  chunk_data <> "" ->
  faithful json_dumps (get_chunk_header file_name chunk_index) ->
  faithful json_dumps (chunk_header chunk_data) ->
  links_to json_dumps fm connection ->
  exists request response,
    _send_tcp_request json_dumps (get_chunk_header file_name chunk_index) None = Some request /\
    _send_tcp_request json_dumps (chunk_header chunk_data) (Some chunk_data) = Some response /\
    join (connection request) = response /\
    request_chunk json_dumps connection file_name chunk_index = Some chunk_data.
Proof.
  intros Hload Hne Hreq Hresp Hlink.
  destruct (send_tcp_request_frame json_dumps _ None Hreq) as (size_bytes & _ & Hsend).
  destruct (send_tcp_request_frame json_dumps _ (Some chunk_data) Hresp)
    as (size_bytes' & _ & Hsend').
  eexists _, _. split; [exact Hsend|]. split; [exact Hsend'|]. split.
  - destruct (Hlink (size_bytes +:+ json_dumps (get_chunk_header file_name chunk_index)
                     +:+ body_of None)) as (at_server & Hj & Hwhole & Hserver).
    assert (_handle_tcp_client json_dumps at_server fm
            = written (_send_tcp_request json_dumps (chunk_header chunk_data) (Some chunk_data)))
      as Hhandled by (by eapply server_serves_chunk).
    rewrite Hhandled, Hsend' in Hserver. by destruct Hserver.
  - by eapply request_chunk_served.
Qed.


(** ** Refusals and file information *)

Definition error_header (error_code message : string) : json :=
  JObj [("status", JStr "error"); ("error_code", JStr error_code); ("message", JStr message)].

Definition file_info_header (file_name : string) : json :=
  JObj [("command", JStr "FILE_INFO"); ("file_name", JStr file_name)].

Definition metadata_header (metadata : FileMetadata) : json :=
  JObj [("status", JStr "success"); ("metadata", metadata_json metadata)].

Lemma server_refuses_chunk json_dumps file_name chunk_index fm request at_server :
  load_chunk file_name chunk_index fm = None ->
  faithful json_dumps (get_chunk_header file_name chunk_index) ->
  _send_tcp_request json_dumps (get_chunk_header file_name chunk_index) None = Some request ->
  join at_server = request ->
  header_whole at_server ->
  _handle_tcp_client json_dumps at_server fm
  = written (_send_tcp_error json_dumps "CHUNK_NOT_FOUND" "Chunk não encontrado").
Proof.
  intros Hload Hreq Hsend Hj Hwhole. unfold _handle_tcp_client.
  destruct (read_tcp_response_start json_dumps _ None request at_server ""
              Hreq Hsend) as (s2 & _ & ->); [by rewrite string_app_nil_r|done|].
  unfold get_chunk_header.
  cbn -[load_chunk _send_tcp_error]. by rewrite Hload.
Qed.

Lemma server_answers_file_info json_dumps file_name fm request at_server :
  faithful json_dumps (file_info_header file_name) ->
  _send_tcp_request json_dumps (file_info_header file_name) None = Some request ->
  join at_server = request ->
  header_whole at_server ->
  _handle_tcp_client json_dumps at_server fm
  = match get_file_metadata file_name fm with
    | Some metadata => written (_send_tcp_request json_dumps (metadata_header metadata) None)
    | None =>
        written (_send_tcp_error json_dumps "FILE_NOT_FOUND"
                   ("Arquivo '" +:+ file_name +:+ "' não encontrado"))
    end.
Proof.
  intros Hreq Hsend Hj Hwhole. unfold _handle_tcp_client.
  destruct (read_tcp_response_start json_dumps _ None request at_server ""
              Hreq Hsend) as (s2 & _ & ->); [by rewrite string_app_nil_r|done|].
  unfold file_info_header. cbn -[get_file_metadata _send_tcp_error _send_tcp_request].
  reflexivity.
Qed.

(** What the reader makes of a frame whose header has no body to announce. *)
Lemma a_header_is_read_back json_dumps fields frame s :
  faithful json_dumps (JObj fields) ->
  obj_get "chunk_size" fields = None ->
  _send_tcp_request json_dumps (JObj fields) None = Some frame ->
  join s = frame ->
  header_whole s ->
  (_read_tcp_response s).1 = Read (Some (JObj fields)) None.
Proof.
  intros Hfaithful Hsize Hsend Hjoin Hwhole.
  destruct (read_tcp_response_start json_dumps _ None frame s "" Hfaithful Hsend)
    as (s2 & _ & ->); [by rewrite string_app_nil_r|done|].
  rewrite Hsize. cbv zeta.
  repeat match goal with
         | |- context [match ?x with _ => _ end] => destruct x; try done
         end.
Qed.

(** X22: request_chunk for a chunk whose file the serving peer does not have
    on disk returns None and raises nothing: the server answers the GET_CHUNK
    frame with the frame of the error header CHUNK_NOT_FOUND, which the client
    reads as a header without data. The serialization of the two headers is
    faithful and the length prefix and the header of each message arrive
    whole. *)
Theorem a_chunk_the_server_lacks_is_refused
    json_dumps connection file_name chunk_index fm :
  load_chunk file_name chunk_index fm = None ->
  faithful json_dumps (get_chunk_header file_name chunk_index) ->
  faithful json_dumps (error_header "CHUNK_NOT_FOUND" "Chunk não encontrado") ->
  links_to json_dumps fm connection ->
  request_chunk json_dumps connection file_name chunk_index = None /\
  exists request response,
    _send_tcp_request json_dumps (get_chunk_header file_name chunk_index) None = Some request /\
    _send_tcp_error json_dumps "CHUNK_NOT_FOUND" "Chunk não encontrado" = Some response /\
    join (connection request) = response.
Proof.
  intros Hload Hreq Hresp Hlink.
  destruct (send_tcp_request_frame json_dumps _ None Hreq) as (size_bytes & _ & Hsend).
  destruct (send_tcp_request_frame json_dumps _ None Hresp) as (size_bytes' & _ & Hsend').
  destruct (Hlink (size_bytes +:+ json_dumps (get_chunk_header file_name chunk_index)
                   +:+ body_of None)) as (at_server & Hj & Hwhole & Hserver).
  rewrite (server_refuses_chunk _ _ _ _ _ _ Hload Hreq Hsend Hj Hwhole) in Hserver.
  unfold _send_tcp_error in Hserver |- *. fold (error_header "CHUNK_NOT_FOUND" "Chunk não encontrado") in Hserver |- *.
  rewrite Hsend' in Hserver. cbn [written] in Hserver. destruct Hserver as [Hj' Hwhole'].
  split; [|by eexists _, _].
  unfold request_chunk. fold (get_chunk_header file_name chunk_index). rewrite Hsend.
  pose proof (a_header_is_read_back json_dumps _ _ _ Hresp eq_refl Hsend' Hj' Hwhole') as Hread.
  destruct (_read_tcp_response _) as [r s']. cbn [fst] in Hread. by rewrite Hread.
Qed.

Lemma request_file_info_served json_dumps connection file_name fm :
  faithful json_dumps (file_info_header file_name) ->
  links_to json_dumps fm connection ->
  (forall metadata,
     get_file_metadata file_name fm = Some metadata ->
     faithful json_dumps (metadata_header metadata) ->
     request_file_info json_dumps connection file_name = metadata_json metadata) /\
  (get_file_metadata file_name fm = None ->
   faithful json_dumps
     (error_header "FILE_NOT_FOUND" ("Arquivo '" +:+ file_name +:+ "' não encontrado")) ->
   request_file_info json_dumps connection file_name = JNull).
Proof.
  intros Hreq Hlink.
  destruct (send_tcp_request_frame json_dumps _ None Hreq) as (size_bytes & _ & Hsend).
  destruct (Hlink (size_bytes +:+ json_dumps (file_info_header file_name) +:+ body_of None))
    as (at_server & Hj & Hwhole & Hserver).
  rewrite (server_answers_file_info _ _ _ _ _ Hreq Hsend Hj Hwhole) in Hserver.
  unfold request_file_info. fold (file_info_header file_name). rewrite Hsend.
  split.
  - intros metadata Hmeta Hresp. rewrite Hmeta in Hserver.
    destruct (send_tcp_request_frame json_dumps _ None Hresp) as (size_bytes' & _ & Hsend').
    rewrite Hsend' in Hserver. cbn [written] in Hserver. destruct Hserver as [Hj' Hwhole'].
    pose proof (a_header_is_read_back json_dumps _ _ _ Hresp eq_refl Hsend' Hj' Hwhole')
      as Hread.
    destruct (_read_tcp_response _) as [r s']. cbn [fst] in Hread. by rewrite Hread.
  - intros Hmeta Hresp. rewrite Hmeta in Hserver.
    destruct (send_tcp_request_frame json_dumps _ None Hresp) as (size_bytes' & _ & Hsend').
    unfold _send_tcp_error in Hserver.
    fold (error_header "FILE_NOT_FOUND" ("Arquivo '" +:+ file_name +:+ "' não encontrado"))
      in Hserver.
    rewrite Hsend' in Hserver. cbn [written] in Hserver. destruct Hserver as [Hj' Hwhole'].
    pose proof (a_header_is_read_back json_dumps _ _ _ Hresp eq_refl Hsend' Hj' Hwhole')
      as Hread.
    destruct (_read_tcp_response _) as [r s']. cbn [fst] in Hread. by rewrite Hread.
Qed.

(** X23: request_file_info, over a connection to the server of a peer, returns
    the metadata dictionary that peer has for the file (fileName, fileSize,
    fileHash, totalChunks, createdAt) when it has one, and None when it has
    none (the server then answers FILE_NOT_FOUND). The serialization of the
    headers that travel is faithful and the length prefix and the header of
    each message arrive whole. *)
Theorem file_information_is_relayed json_dumps connection file_name fm :
  faithful json_dumps (file_info_header file_name) ->
  links_to json_dumps fm connection ->
  (forall metadata,
     get_file_metadata file_name fm = Some metadata ->
     faithful json_dumps (metadata_header metadata) ->
     request_file_info json_dumps connection file_name = metadata_json metadata) /\
  (get_file_metadata file_name fm = None ->
   faithful json_dumps
     (error_header "FILE_NOT_FOUND" ("Arquivo '" +:+ file_name +:+ "' não encontrado")) ->
   request_file_info json_dumps connection file_name = JNull).
Proof. apply request_file_info_served. Qed.

(** ** Messages that arrive in one piece *)

Lemma recv_single bufsize piece :
  String.length (recv bufsize [piece]).1 = Nat.min (N.to_nat bufsize) (String.length piece) /\
  ((recv bufsize [piece]).2 = [] \/ exists remaining, (recv bufsize [piece]).2 = [remaining]).
Proof.
  cbn [recv]. destruct (String.eqb piece "") eqn:E.
  { apply string_eqb_empty in E as ->. cbn. split; [lia|by left]. }
  destruct (N.eqb_spec bufsize 0) as [->|Hn].
  { cbn. split; [done|right; by eexists]. }
  destruct (read bufsize piece) as [data remaining] eqn:R. cbn [fst snd].
  split; [by apply read_length in R|].
  destruct (String.eqb remaining ""); [by left|right; by eexists].
Qed.

Lemma join_single piece : join [piece] = piece.
Proof. cbn. apply string_app_nil_r. Qed.

Lemma header_whole_single piece : header_whole [piece].
Proof.
  destruct (recv_single 4 piece) as [Hlen Hrest]. split.
  - by rewrite join_single.
  - intros header_size _. destruct Hrest as [->|[remaining ->]].
    + cbn. lia.
    + destruct (recv_single (Z.to_N header_size) remaining) as [Hlen' _].
      by rewrite join_single, Hlen', Z_N_nat.
Qed.

(** The connection to the server of the store [fm] on which every message
    arrives in one piece. *)
Definition in_one_piece (json_dumps : json -> bytes) (fm : file_manager) : bytes -> stream :=
  fun request =>
    match _handle_tcp_client json_dumps [request] fm with
    | Done response | Raises response => [response]
    | NotFollowed => []
    end.

Lemma in_one_piece_links json_dumps fm : links_to json_dumps fm (in_one_piece json_dumps fm).
Proof.
  intros request. exists [request]. split; [apply join_single|].
  split; [apply header_whole_single|]. unfold in_one_piece.
  destruct (_handle_tcp_client json_dumps [request] fm); try done;
    (split; [apply join_single|apply header_whole_single]).
Defined.

(** ** Sample messages *)

(** A serializer for the samples.  It writes [None], booleans, integers,
    strings of printable ASCII characters without quote and backslash, and
    the lists and dictionaries of these as [json.dumps] does; other strings
    are written as they are. *)
Fixpoint sample_dumps (v : json) : bytes :=
  match v with
  | JNull | JFloat _ => "null"
  | JBool b => if b then "true" else "false"
  | JInt z => pretty z
  | JStr s => CodecFacts.quoted s
  | JArr l =>
      "[" +:+ (fix items (l : list json) : bytes :=
                 match l with
                 | [] => ""
                 | [x] => sample_dumps x
                 | x :: rest => sample_dumps x +:+ ", " +:+ items rest
                 end) l +:+ "]"
  | JObj m =>
      "{" +:+ (fix items (m : list (string * json)) : bytes :=
                 match m with
                 | [] => ""
                 | [(k, x)] => CodecFacts.quoted k +:+ ": " +:+ sample_dumps x
                 | (k, x) :: rest =>
                     CodecFacts.quoted k +:+ ": " +:+ sample_dumps x +:+ ", " +:+ items rest
                 end) m +:+ "}"
  end.

Definition success_header : list (string * json) :=
  [("status", JStr "success"); ("chunk_size", JInt (Z.of_nat (String.length "A")))].

Lemma success_header_faithful : faithful sample_dumps (JObj success_header).
Proof. split; vm_compute; reflexivity. Defined.

Lemma get_chunk_header_faithful : faithful sample_dumps (get_chunk_header "f.bin" 0).
Proof. split; vm_compute; reflexivity. Defined.

Definition success_frame : bytes :=
  default "" (_send_tcp_request sample_dumps (JObj success_header) (Some "A")).

Lemma a_frame_is_read_back_witness :
  exists s',
    _read_tcp_response [success_frame] = (Read (Some (JObj success_header)) (Some "A"), s') /\
    join s' = "".
Proof.
  refine (a_frame_is_read_back sample_dumps success_header "A" success_frame [success_frame] ""
            success_header_faithful eq_refl eq_refl _ _ (header_whole_single _)).
  - vm_compute. reflexivity.
  - vm_compute. reflexivity.
Defined.

Lemma a_split_length_prefix_fails_the_read_witness :
  (_read_tcp_response ["ab"; "cd"]).1 = ReadRaised.
Proof.
  refine (proj1 (a_split_length_prefix_fails_the_read "ab" ["cd"] _)). simpl. lia.
Defined.

Lemma a_stored_chunk_travels_intact_witness :
  request_chunk sample_dumps (in_one_piece sample_dumps ingested) "f.bin" 0 = Some "A".
Proof.
  destruct (a_stored_chunk_travels_intact sample_dumps (in_one_piece sample_dumps ingested)
              "f.bin" 0 ingested "A")
    as (request & response & _ & _ & _ & Hchunk).
  - vm_compute. reflexivity.
  - discriminate.
  - exact get_chunk_header_faithful.
  - exact success_header_faithful.
  - apply in_one_piece_links.
  - exact Hchunk.
Defined.


Lemma file_info_header_faithful : faithful sample_dumps (file_info_header "f.bin").
Proof. split; vm_compute; reflexivity. Defined.

Lemma metadata_header_faithful : faithful sample_dumps (metadata_header meta_A).
Proof. split; vm_compute; reflexivity. Defined.

Lemma chunk_not_found_faithful :
  faithful sample_dumps (error_header "CHUNK_NOT_FOUND" "Chunk não encontrado").
Proof. split; vm_compute; reflexivity. Defined.

Lemma a_chunk_the_server_lacks_is_refused_witness :
  request_chunk sample_dumps (in_one_piece sample_dumps ingested) "f.bin" 7 = None.
Proof.
  refine (proj1 (a_chunk_the_server_lacks_is_refused sample_dumps
                   (in_one_piece sample_dumps ingested) "f.bin" 7 ingested
                   _ _ chunk_not_found_faithful (in_one_piece_links _ _))).
  - vm_compute. reflexivity.
  - split; vm_compute; reflexivity.
Defined.

Lemma file_information_is_relayed_witness :
  request_file_info sample_dumps (in_one_piece sample_dumps ingested) "f.bin"
  = metadata_json meta_A.
Proof.
  refine (proj1 (file_information_is_relayed sample_dumps
                   (in_one_piece sample_dumps ingested) "f.bin" ingested
                   file_info_header_faithful (in_one_piece_links _ _))
            meta_A _ metadata_header_faithful).
  vm_compute. reflexivity.
Defined.

End ConnectionFacts.

(* ================================================================== *)
(** * Facts about the download loop *)
(* ================================================================== *)

Module DownloadLoopFacts.
Import FileManager DownloadManager FileManagerFacts SortedFacts DownloadManagerFacts StoreFacts.
#[local] Opaque CHUNK_SIZE.

(** ** One turn of the loop *)

Definition served (t : turn) (chunk_index : Z) (chunk_data : bytes) : Prop :=
  fetch_attempts MAX_CHUNK_RETRY_ATTEMPTS (answers_then t chunk_index) = Fetched chunk_data.

Definition without_chunks (chunks needed_chunks : list Z) : list Z :=
  List.filter (fun c => negb (bool_decide (c ∈ chunks))) needed_chunks.

Lemma without_chunks_nil needed_chunks : without_chunks [] needed_chunks = needed_chunks.
Proof.
  unfold without_chunks. induction needed_chunks as [|c l IH]; [done|].
  cbn [List.filter]. case_bool_decide as Hin; [by apply elem_of_nil in Hin|].
  cbn [negb]. by rewrite IH.
Qed.

Lemma without_chunks_cons c chunks needed_chunks :
  without_chunks chunks (List.filter (fun x => negb (x =? c)) needed_chunks)
  = without_chunks (c :: chunks) needed_chunks.
Proof.
  unfold without_chunks. induction needed_chunks as [|x l IH]; [done|].
  cbn [List.filter]. destruct (Z.eqb_spec x c) as [->|Hne]; cbn [negb List.filter].
  - case_bool_decide as Hin; [done|]. exfalso. apply Hin, list_elem_of_here.
  - rewrite IH. repeat case_bool_decide; try done.
    + exfalso. set_unfold. tauto.
    + exfalso. set_unfold. tauto.
Qed.

(** A chunk that is not fetched stays in [needed_chunks]. *)
Lemma fetch_batch_keeps file_name t c chunks : forall needed_chunks fm,
  (forall chunk_data, ~ served t c chunk_data) ->
  c ∈ needed_chunks ->
  c ∈ (fetch_batch file_name chunks t needed_chunks fm).1.2.
Proof.
  induction chunks as [|chunk_index rest IH]; intros needed_chunks fm Hc Hin; [done|].
  cbn [fetch_batch]. unfold _fetch_one_chunk.
  destruct (fetch_attempts _ (answers_then t chunk_index)) as [chunk_data| |] eqn:E.
  - apply IH; [done|]. apply list_elem_of_In, filter_In. split; [by apply list_elem_of_In|].
    apply negb_true_iff, Z.eqb_neq. intros ->. by apply (Hc chunk_data).
  - by apply IH.
  - specialize (IH needed_chunks fm Hc Hin).
    by destruct (fetch_batch file_name rest t needed_chunks fm) as [[? ?] ?].
Qed.


(** The chunk indices the store has for a file. *)
Definition chunks_of (file_name : string) (fm : file_manager) : gset Z :=
  default ∅ (available_chunks fm !! file_name).

Lemma chunks_of_save_chunk file_name c data fm :
  chunks_of file_name (save_chunk file_name c data fm) = chunks_of file_name fm ∪ {[c]}.
Proof. unfold chunks_of, save_chunk. cbn [available_chunks]. by rewrite lookup_insert_eq. Qed.


(** What a store has become after chunks were saved for one file. *)
Record extends (file_name : string) (chunks : list Z) (fm fm' : file_manager) : Prop :=
  { ext_metadata : local_files_metadata fm' = local_files_metadata fm;
    ext_others : forall other, other <> file_name ->
                   available_chunks fm' !! other = available_chunks fm !! other;
    ext_chunks : chunks_of file_name fm' = chunks_of file_name fm ∪ list_to_set chunks;
    ext_files : forall c, c ∉ chunks -> load_chunk file_name c fm' = load_chunk file_name c fm;
    ext_disk : forall p, p.1 <> Chunks -> disk fm' !! p = disk fm !! p }.

Lemma extends_nil file_name fm : extends file_name [] fm fm.
Proof. split; try done. cbn. by rewrite (right_id_L ∅ (∪)). Qed.

Lemma fetch_batch_served file_name t chunks : forall needed_chunks fm,
  NoDup chunks ->
  (forall c, c ∈ chunks -> exists chunk_data, served t c chunk_data) ->
  exists fm',
    fetch_batch file_name chunks t needed_chunks fm
    = (false, without_chunks chunks needed_chunks, fm') /\
    extends file_name chunks fm fm' /\
    (forall c chunk_data, c ∈ chunks -> served t c chunk_data ->
                          load_chunk file_name c fm' = Some chunk_data).
Proof.
  induction chunks as [|c rest IH]; intros needed_chunks fm Hnd Hserved.
  - exists fm. rewrite without_chunks_nil. split; [done|]. split; [apply extends_nil|].
    by intros c d ?%elem_of_nil.
  - apply NoDup_cons in Hnd as [Hc Hnd].
    destruct (Hserved c (list_elem_of_here _ _)) as [chunk_data Hdata].
    cbn [fetch_batch]. unfold _fetch_one_chunk. unfold served in Hdata. rewrite Hdata.
    destruct (IH (List.filter (fun x => negb (x =? c)) needed_chunks)
                 (save_chunk file_name c chunk_data fm) Hnd) as (fm' & Hrun & Hext & Hload).
    { intros x Hx. apply Hserved. by apply list_elem_of_further. }
    exists fm'. rewrite Hrun, without_chunks_cons. split; [done|]. split.
    + destruct Hext as [Hm Ho Hch Hf Hd]. split.
      * by rewrite Hm.
      * intros other Hother. rewrite Ho by done. unfold save_chunk. cbn.
        by rewrite lookup_insert_ne.
      * rewrite Hch, chunks_of_save_chunk, list_to_set_cons. by rewrite (assoc_L (∪)).
      * intros x Hx. apply not_elem_of_cons in Hx as [Hxc Hx]. rewrite Hf by done.
        apply load_save_chunk_ne. congruence.
      * intros p Hp. rewrite Hd by done. unfold save_chunk. cbn.
        apply lookup_insert_ne. unfold chunk_path. intros <-. done.
    + intros x d [->|Hx]%elem_of_cons Hd.
      * rewrite (ext_files _ _ _ _ Hext) by done. unfold served in Hd.
        rewrite Hdata in Hd. injection Hd as <-. apply load_save_chunk_eq.
      * by apply Hload.
Qed.

Lemma length_filter_remove (c : Z) (l : list Z) :
  NoDup l -> c ∈ l ->
  S (List.length (List.filter (fun x => negb (x =? c)) l)) = List.length l.
Proof.
  induction 1 as [|x l Hx Hl IH]; [by intros ?%elem_of_nil|].
  cbn [List.filter]. destruct (Z.eqb_spec x c) as [->|Hne]; cbn [negb List.length].
  - intros _. f_equal. f_equal. clear IH Hl. induction l as [|y l IH]; [done|].
    apply not_elem_of_cons in Hx as [Hy Hx]. cbn [List.filter].
    destruct (Z.eqb_spec y c); [congruence|]. cbn [negb]. f_equal. by apply IH.
  - intros [?|Hin]%elem_of_cons; [congruence|]. by rewrite IH.
Qed.

Lemma NoDup_filter_Z (P : Z -> bool) (l : list Z) : NoDup l -> NoDup (List.filter P l).
Proof.
  induction 1 as [|x l Hx Hl IH]; simpl; [constructor|].
  destruct (P x); [|done]. constructor; [|done].
  intros Hin. apply Hx. apply list_elem_of_In in Hin. apply filter_In in Hin as [Hin _].
  by apply list_elem_of_In.
Qed.

Lemma without_chunks_length chunks : forall needed_chunks,
  NoDup needed_chunks -> NoDup chunks ->
  (forall c, c ∈ chunks -> c ∈ needed_chunks) ->
  (List.length (without_chunks chunks needed_chunks) + List.length chunks
   = List.length needed_chunks)%nat.
Proof.
  induction chunks as [|c chunks IH]; intros needed_chunks Hnd Hndc Hsub.
  - rewrite without_chunks_nil. simpl. lia.
  - apply NoDup_cons in Hndc as [Hc Hndc]. rewrite <- without_chunks_cons.
    rewrite <- (length_filter_remove c needed_chunks Hnd (Hsub c (list_elem_of_here _ _))).
    cbn [List.length]. rewrite <- (IH (List.filter (fun x => negb (x =? c)) needed_chunks)).
    + lia.
    + by apply NoDup_filter_Z.
    + done.
    + intros x Hx. apply list_elem_of_In, filter_In. split.
      * apply list_elem_of_In, Hsub. by apply list_elem_of_further.
      * apply negb_true_iff, Z.eqb_neq. by intros ->.
Qed.

Lemma elem_of_without_chunks c chunks needed_chunks :
  c ∈ without_chunks chunks needed_chunks <-> c ∈ needed_chunks /\ c ∉ chunks.
Proof.
  unfold without_chunks. rewrite !list_elem_of_In, filter_In, <- !list_elem_of_In.
  rewrite negb_true_iff, bool_decide_eq_false. done.
Qed.

(** The order of a turn, for peers whose entries are well formed. *)
Lemma order_of_turn needed_chunks file_name known_peers :
  NoDup needed_chunks ->
  Forall (well_formed_peer file_name) (List.map snd known_peers) ->
  exists order,
    _get_rarest_chunks_first needed_chunks file_name known_peers = Some order /\
    order ≡ₚ needed_chunks.
Proof.
  intros Hnd Hwf.
  destruct (count_peers_returns file_name known_peers (fun _ => 0) needed_chunks Hnd Hwf)
    as [cf Hcf].
  assert (exists order, _get_rarest_chunks_first needed_chunks file_name known_peers = Some order)
    as [order Horder].
  { unfold _get_rarest_chunks_first.
    change (List.map (fun chunk_idx => (JInt chunk_idx, 0)) needed_chunks)
      with (freq (fun _ => 0) needed_chunks).
    rewrite Hcf. by eexists. }
  exists order. split; [done|].
  rewrite (rarest_first_when_returned _ _ _ _ Hnd Horder). apply sorted_perm.
Qed.


(** ** The loop *)

Lemma extends_trans file_name chunks chunks' all fm fm1 fm2 :
  extends file_name chunks fm fm1 ->
  extends file_name chunks' fm1 fm2 ->
  (forall c, c ∈ all <-> c ∈ chunks \/ c ∈ chunks') ->
  extends file_name all fm fm2.
Proof.
  intros [Hm Ho Hch Hf Hd] [Hm' Ho' Hch' Hf' Hd'] Hall. split.
  - by rewrite Hm'.
  - intros other Hother. by rewrite Ho', Ho.
  - rewrite Hch', Hch, <- (assoc_L (∪)). f_equal. apply set_eq. intros c.
    rewrite elem_of_union, !elem_of_list_to_set. symmetry. apply Hall.
  - intros c Hc. rewrite Hf', Hf; [done| |]; intros Hin; apply Hc, Hall; tauto.
  - intros p Hp. by rewrite Hd', Hd.
Qed.

Lemma loop_step fuel (world : nat -> turn) turn_no file_name needed_chunks fm :
  needed_chunks <> [] ->
  _fetch_all_needed_chunks (S fuel) world turn_no file_name needed_chunks fm
  = match _get_rarest_chunks_first needed_chunks file_name (peers_then (world turn_no)) with
    | None => Failed fm
    | Some sorted_chunks_to_download =>
        let '(raised, needed_chunks', fm') :=
          fetch_batch file_name
            (List.firstn CHUNK_DOWNLOADER_THREADS sorted_chunks_to_download)
            (world turn_no) needed_chunks fm in
        if (raised : bool) then Failed fm'
        else _fetch_all_needed_chunks fuel world (S turn_no) file_name needed_chunks' fm'
    end.
Proof. by destruct needed_chunks. Qed.

Lemma loop_all_served (world : nat -> turn) file_name fuel : forall needed_chunks fm turn_no,
  NoDup needed_chunks ->
  (List.length needed_chunks <= 5 * fuel)%nat ->
  (forall n, Forall (well_formed_peer file_name) (List.map snd (peers_then (world n)))) ->
  (forall n c, c ∈ needed_chunks -> exists chunk_data, served (world n) c chunk_data) ->
  exists fm',
    _fetch_all_needed_chunks fuel world turn_no file_name needed_chunks fm = Finished fm' /\
    extends file_name needed_chunks fm fm' /\
    (forall c, c ∈ needed_chunks ->
       exists n chunk_data,
         served (world n) c chunk_data /\ load_chunk file_name c fm' = Some chunk_data).
Proof.
  induction fuel as [|fuel IH]; intros needed_chunks fm turn_no Hnd Hlen Hwf Hserved.
  - destruct needed_chunks; [|simpl in Hlen; lia].
    exists fm. split; [done|]. split; [apply extends_nil|]. by intros c ?%elem_of_nil.
  - destruct (decide (needed_chunks = [])) as [->|Hsome].
    { exists fm. split; [done|]. split; [apply extends_nil|]. by intros c ?%elem_of_nil. }
    rewrite loop_step by done.
    destruct (order_of_turn needed_chunks file_name (peers_then (world turn_no)) Hnd (Hwf _))
      as (order & Horder & Hperm).
    rewrite Horder.
    set (batch := List.firstn CHUNK_DOWNLOADER_THREADS order).
    assert (NoDup order) as Hndo by (by rewrite Hperm).
    assert (NoDup batch) as Hndb.
    { unfold batch. rewrite <- (firstn_skipn CHUNK_DOWNLOADER_THREADS order) in Hndo.
      by apply NoDup_app in Hndo as [? _]. }
    assert (forall c, c ∈ batch -> c ∈ needed_chunks) as Hsub.
    { intros c Hc. rewrite <- Hperm. by apply (subseteq_take CHUNK_DOWNLOADER_THREADS order). }
    destruct (fetch_batch_served file_name (world turn_no) batch needed_chunks fm Hndb)
      as (fm1 & Hrun & Hext & Hload).
    { intros c Hc. apply Hserved. by apply Hsub. }
    rewrite Hrun.
    pose proof (without_chunks_length batch needed_chunks Hnd Hndb Hsub) as Hleft.
    assert (List.length batch = Nat.min 5 (List.length needed_chunks)) as Hbatch.
    { unfold batch. rewrite length_firstn. by rewrite Hperm. }
    destruct (IH (without_chunks batch needed_chunks) fm1 (S turn_no)) as (fm2 & Hrun2 & Hext2 & Hload2).
    + by apply NoDup_filter_Z.
    + lia.
    + done.
    + intros n c [Hc _]%elem_of_without_chunks. by apply Hserved.
    + exists fm2. split; [done|]. split.
      * eapply extends_trans; [exact Hext|exact Hext2|].
        intros c. rewrite elem_of_without_chunks.
        destruct (decide (c ∈ batch)) as [Hin|Hnotin]; [|tauto].
        specialize (Hsub c Hin). tauto.
      * intros c Hc. destruct (decide (c ∈ batch)) as [Hin|Hnotin].
        -- destruct (Hserved turn_no c Hc) as [chunk_data Hdata].
           exists turn_no, chunk_data. split; [done|].
           rewrite (ext_files _ _ _ _ Hext2); [by apply Hload|].
           rewrite elem_of_without_chunks. tauto.
        -- apply Hload2. by apply elem_of_without_chunks.
Qed.

(** X24: If no attempt ever obtains a chunk that is needed, the loop of
    _fetch_all_needed_chunks never ends by itself: after any number of turns
    it is still in the loop with that chunk among the needed ones, unless an
    exception has left it. The loop has no give-up: a chunk for which
    _fetch_one_chunk has used its three attempts is submitted again in a later
    turn. *)
Theorem a_chunk_nobody_serves_keeps_the_download_running
    (world : nat -> turn) file_name chunk_index :
  (forall n chunk_data, ~ served (world n) chunk_index chunk_data) ->
  forall fuel turn_no needed_chunks fm,
    chunk_index ∈ needed_chunks ->
    (exists fm', _fetch_all_needed_chunks fuel world turn_no file_name needed_chunks fm
                 = Failed fm') \/
    (exists needed_chunks' fm',
        _fetch_all_needed_chunks fuel world turn_no file_name needed_chunks fm
        = Running needed_chunks' fm' /\ chunk_index ∈ needed_chunks').
Proof.
  intros Hnever. induction fuel as [|fuel IH]; intros turn_no needed_chunks fm Hin.
  - destruct needed_chunks as [|c0 rest] eqn:Hneeded; [by apply elem_of_nil in Hin|].
    right. by exists (c0 :: rest), fm.
  - rewrite loop_step by (intros ->; by apply elem_of_nil in Hin).
    destruct (_get_rarest_chunks_first _ _ _) as [order|]; [|left; by eexists].
    pose proof (fetch_batch_keeps file_name (world turn_no) chunk_index
                  (List.firstn CHUNK_DOWNLOADER_THREADS order) needed_chunks fm
                  (Hnever turn_no) Hin) as Hkept.
    destruct (fetch_batch _ _ _ _ _) as [[raised needed_chunks'] fm'].
    destruct raised; [left; by eexists|]. by apply IH.
Qed.


Lemma turns_suffice (n : nat) : (n <= 5 * ((n + 4) / 5))%nat.
Proof.
  pose proof (Nat.div_mod_eq (n + 4) 5). pose proof (Nat.mod_upper_bound (n + 4) 5). lia.
Qed.

(** X25: If in every turn each needed chunk is obtained within the three
    attempts of _fetch_one_chunk and the entries of the known peers are well
    formed, the loop of _fetch_all_needed_chunks over n needed chunks ends
    within ceil(n / 5) turns. Every needed chunk is then on disk with bytes an
    attempt obtained for it, the chunk set of the file has grown by exactly
    the needed chunks, and the metadata and the other chunk files of the file
    are unchanged. *)
Theorem the_download_ends_once_every_chunk_is_served
    (world : nat -> turn) file_name needed_chunks fm first_turn :
  NoDup needed_chunks ->
  (forall n, Forall (well_formed_peer file_name) (List.map snd (peers_then (world n)))) ->
  (forall n c, c ∈ needed_chunks -> exists chunk_data, served (world n) c chunk_data) ->
  let turns := ((List.length needed_chunks + 4) / 5)%nat in
  exists fm',
    _fetch_all_needed_chunks turns world first_turn file_name needed_chunks fm = Finished fm' /\
    local_files_metadata fm' = local_files_metadata fm /\
    chunks_of file_name fm' = chunks_of file_name fm ∪ list_to_set needed_chunks /\
    (forall c, c ∈ needed_chunks ->
       exists n chunk_data,
         served (world n) c chunk_data /\ load_chunk file_name c fm' = Some chunk_data) /\
    (forall c, c ∉ needed_chunks -> load_chunk file_name c fm' = load_chunk file_name c fm).
Proof.
  intros Hnd Hwf Hserved turns.
  destruct (loop_all_served world file_name turns needed_chunks fm first_turn Hnd
              (turns_suffice _) Hwf Hserved) as (fm' & Hrun & [Hm Ho Hch Hf Hd] & Hload).
  exists fm'. done.
Qed.

(** ** The download task *)





(** ** Sample downloads *)

(** Nobody answers for any chunk. *)
Definition silent_world : nat -> turn :=
  fun _ => {| peers_then := swarm; answers_then := fun _ => [] |}.

(** The first attempt for every chunk is answered with the byte A. *)
Definition generous_world (known : list (string * json)) : nat -> turn :=
  fun _ => {| peers_then := known; answers_then := fun _ => [Answered (Some "A")] |}.

Definition nothing_stored : file_manager :=
  {| local_files_metadata := ∅; available_chunks := ∅; disk := ∅ |}.

Lemma silent_world_serves_nothing n (chunk_data : bytes) : ~ served (silent_world n) 0 chunk_data.
Proof. intros H. discriminate H. Defined.

Lemma a_chunk_nobody_serves_keeps_the_download_running_witness :
  (exists fm', _fetch_all_needed_chunks 2 silent_world 0 "x.bin" [0; 1] nothing_stored
               = Failed fm') \/
  (exists needed_chunks' fm',
      _fetch_all_needed_chunks 2 silent_world 0 "x.bin" [0; 1] nothing_stored
      = Running needed_chunks' fm' /\ 0 ∈ needed_chunks').
Proof.
  apply (a_chunk_nobody_serves_keeps_the_download_running silent_world "x.bin" 0
           silent_world_serves_nothing 2%nat 0%nat [0; 1] nothing_stored).
  apply list_elem_of_here.
Defined.

Lemma the_download_ends_once_every_chunk_is_served_witness :
  exists fm',
    _fetch_all_needed_chunks ((List.length [0; 1; 2] + 4) / 5) (generous_world swarm) 0
      "x.bin" [0; 1; 2] nothing_stored = Finished fm' /\
    local_files_metadata fm' = local_files_metadata nothing_stored /\
    chunks_of "x.bin" fm' = chunks_of "x.bin" nothing_stored ∪ list_to_set [0; 1; 2] /\
    (forall c, c ∈ [0; 1; 2] ->
       exists n chunk_data,
         served (generous_world swarm n) c chunk_data /\
         load_chunk "x.bin" c fm' = Some chunk_data) /\
    (forall c, c ∉ [0; 1; 2] ->
       load_chunk "x.bin" c fm' = load_chunk "x.bin" c nothing_stored).
Proof.
  apply (the_download_ends_once_every_chunk_is_served (generous_world swarm) "x.bin"
           [0; 1; 2] nothing_stored 0%nat needed_three_NoDup).
  - intros n. exact swarm_well_formed.
  - intros n c _. exists "A". reflexivity.
Defined.


End DownloadLoopFacts.

(* ================================================================== *)
(** * A file from one peer to another *)
(* ================================================================== *)

Module TransferFacts.
Import FileManager DownloadManager PeerDirectory Connections.
Import FileManagerFacts DownloadManagerFacts StoreFacts ConnectionFacts DownloadLoopFacts.
#[local] Opaque CHUNK_SIZE.




(** ** A sample transfer *)





End TransferFacts.
